(** * PageRank and topic-specific PageRank: a shallow embedding

    Sources embedded here:
    - [src/IR/Assignment2/pr.py]: [page_rank], [print_rankings], [main];
    - [src/IR/Assignment5/topic_pagerank.py]: [parse_xml] (from the parsed
      tree on), [build_incoming_links], [build_topic_vector],
      [topic_pagerank], [main].

    Conventions.
    - A Python [dict] is an insertion-ordered association list with
      pairwise distinct keys ([wf_dict]); iteration follows list order.
    - Python [float] arithmetic is abstracted by the class [Arith]; the
      definitions are generic in it.  Two instances are given: the exact
      rationals [Qc], in which the numeric theorems are proved, and IEEE
      binary64 ([Arith_float]), the arithmetic a Python [float] has, in
      which the programs can be run on concrete inputs.
    - Exceptions are values of [exn]; a computation that can raise returns
      a [result].  [topic_pagerank] mutates its [graph] argument, so it
      also returns the final graph, whether or not it raised.
    - A function that prints returns the lines printed with its result.
    - The library functions [str.strip], [str.lower] and [sorted] are
      parameters of the definitions that call them; a theorem says what it
      assumes of them. *)

From Stdlib Require Import PrimFloat.
From Stdlib Require Import List String Ascii Bool Arith PeanoNat Lia ZArith.
From Stdlib Require Import Permutation Sorted.
From Stdlib Require Import QArith Qcanon Qcabs.
Import ListNotations.

Set Implicit Arguments.

(** ** Numbers *)

(** The operations the two programs use on floats.  [fdivide] is the raw
    quotient; the zero check Python performs is in [pdiv] and [pdiv_int]. *)
Class Arith (F : Type) : Type := {
  fzero : F;
  fone : F;
  fadd : F -> F -> F;
  fsub : F -> F -> F;
  fmul : F -> F -> F;
  fdivide : F -> F -> F;
  fabs : F -> F;
  fltb : F -> F -> bool;
  feqb : F -> F -> bool;
  of_nat : nat -> F
}.

(** ** Exceptions *)

Inductive exn : Type :=
| KeyError (k : string)
| ZeroDivisionError
| RuntimeError (msg : string).

Inductive result (A : Type) : Type :=
| Ok (a : A)
| Raise (e : exn).

Arguments Ok {A} a.
Arguments Raise {A} e.

Definition bind {A B : Type} (m : result A) (k : A -> result B) : result B :=
  match m with
  | Ok a => k a
  | Raise e => Raise e
  end.

Declare Scope result_scope.
Delimit Scope result_scope with result.
Notation "x <- m ;; k" := (bind m (fun x => k))
  (at level 61, m at next level, right associativity) : result_scope.
Local Open Scope result_scope.
Local Open Scope string_scope.
Local Open Scope list_scope.
Local Open Scope nat_scope.

(** [[e x for x in xs]] where [e] may raise. *)
Fixpoint mapM {A B : Type} (f : A -> result B) (xs : list A) : result (list B) :=
  match xs with
  | [] => Ok []
  | x :: rest =>
      y <- f x ;;
      ys <- mapM f rest ;;
      Ok (y :: ys)
  end.

(** [for x in xs: acc = body(x, acc)] where the body may raise. *)
Fixpoint foldM {A S : Type} (body : A -> S -> result S) (xs : list A) (acc : S)
  : result S :=
  match xs with
  | [] => Ok acc
  | x :: rest =>
      acc' <- body x acc ;;
      foldM body rest acc'
  end.

(** ** Dictionaries *)

Definition dict (V : Type) : Type := list (string * V).

Definition keys {V : Type} (d : dict V) : list string := map fst d.
Definition values {V : Type} (d : dict V) : list V := map snd d.

(** [d.get(k)] *)
Fixpoint get {V : Type} (k : string) (d : dict V) : option V :=
  match d with
  | [] => None
  | (k', v) :: rest => if String.eqb k k' then Some v else get k rest
  end.

(** [d.get(k, dflt)] *)
Definition get_default {V : Type} (k : string) (dflt : V) (d : dict V) : V :=
  match get k d with
  | Some v => v
  | None => dflt
  end.

(** [d[k]] *)
Definition getitem {V : Type} (k : string) (d : dict V) : result V :=
  match get k d with
  | Some v => Ok v
  | None => Raise (KeyError k)
  end.

(** [k in d] *)
Definition contains_key {V : Type} (k : string) (d : dict V) : bool :=
  match get k d with
  | Some _ => true
  | None => false
  end.

(** [d[k] = v]: an existing key keeps its position, a new key goes last. *)
Fixpoint set {V : Type} (k : string) (v : V) (d : dict V) : dict V :=
  match d with
  | [] => [(k, v)]
  | (k', v') :: rest =>
      if String.eqb k k' then (k', v) :: rest else (k', v') :: set k v rest
  end.

(** [d.setdefault(k, v)], as far as the dictionary is concerned. *)
Definition setdefault {V : Type} (k : string) (v : V) (d : dict V) : dict V :=
  if contains_key k d then d else set k v d.

(** [{k: f(k) for k in ks}] for pairwise distinct [ks]. *)
Definition tabulate {V : Type} (ks : list string) (f : string -> V) : dict V :=
  map (fun k => (k, f k)) ks.

Fixpoint distinctb (ks : list string) : bool :=
  match ks with
  | [] => true
  | k :: rest => negb (existsb (String.eqb k) rest) && distinctb rest
  end.

(** What every Python dict satisfies: no key occurs twice. *)
Definition wf_dict {V : Type} (d : dict V) : Prop := distinctb (keys d) = true.

(** ** Checked arithmetic and sums *)

Section Numeric.

Context {F : Type} {AF : Arith F}.

(** [x / y] for a float [y]: [ZeroDivisionError] when [y == 0]. *)
Definition pdiv (x y : F) : result F :=
  if feqb y fzero then Raise ZeroDivisionError else Ok (fdivide x y).

(** [x / n] for an int [n] (a length or a page count). *)
Definition pdiv_int (x : F) (n : nat) : result F :=
  match n with
  | O => Raise ZeroDivisionError
  | S _ => Ok (fdivide x (of_nat n))
  end.

(** [sum(xs)]: left to right, starting from 0. *)
Definition fsum (xs : list F) : F := fold_left fadd xs fzero.

(** ** Classic PageRank: [page_rank] of [pr.py] *)

Section PageRank.

Variable graph : dict (list string).
Variable damping_factor : F.
Variable tolerance : F.

Definition num_pages : nat := List.length graph.

(** [ranks = {page: 1.0 / num_pages for page in graph}] *)
Definition initial_ranks : result (dict F) :=
  mapM (fun page => r <- pdiv_int fone num_pages ;; Ok (page, r)) (keys graph).

(** Step 1: [for page in graph: new_ranks[page] = (1 - damping_factor) / num_pages] *)
Definition base_ranks : result (dict F) :=
  foldM (fun page new_ranks =>
           b <- pdiv_int (fsub fone damping_factor) num_pages ;;
           Ok (set page b new_ranks))
        (keys graph) [].

(** [for target in targets: new_ranks[target] += amount] *)
Definition add_to (amount : F) (targets : list string) (new_ranks : dict F)
  : result (dict F) :=
  foldM (fun target new_ranks =>
           old <- getitem target new_ranks ;;
           Ok (set target (fadd old amount) new_ranks))
        targets new_ranks.

(** Step 2, body of [for page, links in graph.items()]. *)
Definition distribute (ranks : dict F) (item : string * list string)
  (new_ranks : dict F) : result (dict F) :=
  let (page, links) := item in
  match links with
  | _ :: _ =>
      r <- getitem page ranks ;;
      share <- pdiv_int r (List.length links) ;;
      add_to (fmul damping_factor share) links new_ranks
  | [] =>
      r <- getitem page ranks ;;
      share <- pdiv_int r num_pages ;;
      add_to (fmul damping_factor share) (keys graph) new_ranks
  end.

(** Step 3: [sum(abs(new_ranks[page] - ranks[page]) for page in graph)] *)
Definition total_difference (nodes : list string) (new_ranks ranks : dict F)
  : result F :=
  ds <- mapM (fun page =>
                n <- getitem page new_ranks ;;
                o <- getitem page ranks ;;
                Ok (fabs (fsub n o)))
             nodes ;;
  Ok (fsum ds).

(** One pass of the loop body: the new ranks and [total_diff]. *)
Definition page_rank_iteration (ranks : dict F) : result (dict F * F) :=
  new_ranks <- base_ranks ;;
  new_ranks <- foldM (distribute ranks) graph new_ranks ;;
  total_diff <- total_difference (keys graph) new_ranks ranks ;;
  Ok (new_ranks, total_diff).

(** [for iteration in range(max_iterations): ... break]; [done] counts the
    passes already made, the result carries the number of passes run.
    The budget is a [nat]: a negative [max_iterations] makes [range]
    empty, as 0 does. *)
Fixpoint page_rank_loop (remaining done : nat) (ranks : dict F)
  : result (dict F * nat) :=
  match remaining with
  | O => Ok (ranks, done)
  | S remaining' =>
      step <- page_rank_iteration ranks ;;
      let (new_ranks, total_diff) := step in
      if fltb total_diff tolerance
      then Ok (new_ranks, S done)
      else page_rank_loop remaining' (S done) new_ranks
  end.

Definition page_rank_run (max_iterations : nat) : result (dict F * nat) :=
  ranks <- initial_ranks ;;
  page_rank_loop max_iterations 0 ranks.

Definition page_rank (max_iterations : nat) : result (dict F) :=
  run <- page_rank_run max_iterations ;;
  Ok (fst run).

End PageRank.

(** ** Topic-specific PageRank: [topic_pagerank.py] *)

(** *** [build_incoming_links]

    The function mutates [graph] ([graph.setdefault(dst, [])]) while the
    outer [for] iterates over [graph.items()].  A dict iterator checks the
    size of its dict each time it is advanced, also for the advance that
    would end the loop, and raises [RuntimeError] if the size changed.  The
    function only ever adds keys, so the entries the iterator yields are
    those of the dict at entry: [scan_items] walks that snapshot and
    compares the live size with [used] before every advance. *)

(** Body of [for dst in outs]. *)
Definition record_link (src : string)
  (st : dict (list string) * dict (list string)) (dst : string)
  : dict (list string) * dict (list string) :=
  let (graph, incoming) := st in
  match get dst incoming with
  | Some sources => (graph, set dst (sources ++ [src]) incoming)
  | None => (setdefault dst [] graph, set dst ([] ++ [src]) incoming)
  end.

Definition record_links (src : string) (outs : list string)
  (st : dict (list string) * dict (list string))
  : dict (list string) * dict (list string) :=
  fold_left (record_link src) outs st.

Definition size_changed : exn :=
  RuntimeError "dictionary changed size during iteration".

Fixpoint scan_items (used : nat) (its : list (string * list string))
  (graph incoming : dict (list string))
  : dict (list string) * result (dict (list string)) :=
  if Nat.eqb (List.length graph) used then
    match its with
    | [] => (graph, Ok incoming)
    | (src, outs) :: rest =>
        let (graph', incoming') := record_links src outs (graph, incoming) in
        scan_items used rest graph' incoming'
    end
  else (graph, Raise size_changed).

(** Returns the graph as the call leaves it, then [(incoming, nodes)]. *)
Definition build_incoming_links (graph : dict (list string))
  : dict (list string) * result (dict (list string) * list string) :=
  let nodes := keys graph in
  let incoming := tabulate nodes (fun _ => @nil string) in
  match scan_items (List.length graph) graph graph incoming with
  | (graph', Ok incoming') => (graph', Ok (incoming', keys graph'))
  | (graph', Raise e) => (graph', Raise e)
  end.

(** *** [topic_pagerank] *)

Section TopicPageRank.

Variable topic_vector : dict F.
Variable damping : F.
Variable tol : F.

(** [topic_vector.get(p, 0.0)] *)
Definition teleport (p : string) : F := get_default p fzero topic_vector.

(** [{n: len(graph.get(n, [])) for n in nodes}] *)
Definition out_degrees (graph : dict (list string)) (nodes : list string)
  : dict nat :=
  tabulate nodes (fun n => List.length (get_default n [] graph)).

(** [sum(ranks[n] for n, d in out_degree.items() if d == 0)] *)
Definition dangling_mass (ranks : dict F) (out_degree : dict nat) : result F :=
  rs <- mapM (fun n => getitem n ranks)
             (keys (filter (fun nd => Nat.eqb (snd nd) 0) out_degree)) ;;
  Ok (fsum rs).

(** [for p in nodes: new_ranks[p] = (1.0 - damping) * topic_vector.get(p, 0.0)] *)
Definition teleport_base (nodes : list string) : dict F :=
  fold_left (fun new_ranks p => set p (fmul (fsub fone damping) (teleport p)) new_ranks)
            nodes [].

(** The inner loop [for q in incoming.get(p, [])], from [rank_sum = 0.0]. *)
Definition rank_sum (ranks : dict F) (out_degree : dict nat)
  (sources : list string) : result F :=
  foldM (fun q acc =>
           let dq := get_default q 0 out_degree in
           if Nat.ltb 0 dq
           then r <- getitem q ranks ;;
                x <- pdiv_int r dq ;;
                Ok (fadd acc x)
           else Ok acc)
        sources fzero.

(** The second [for p in nodes] loop. *)
Definition add_contributions (ranks : dict F) (out_degree : dict nat)
  (incoming : dict (list string)) (dangling_sum : F) (nodes : list string)
  (new_ranks : dict F) : result (dict F) :=
  foldM (fun p new_ranks =>
           rs <- rank_sum ranks out_degree (get_default p [] incoming) ;;
           old <- getitem p new_ranks ;;
           Ok (set p (fadd old (fmul damping
                                  (fadd rs (fmul dangling_sum (teleport p)))))
                   new_ranks))
        nodes new_ranks.

(** One pass of the loop body: the graph it leaves, the new ranks, [diff]. *)
Definition topic_iteration (graph : dict (list string)) (nodes : list string)
  (out_degree : dict nat) (ranks : dict F)
  : dict (list string) * result (dict F * F) :=
  match dangling_mass ranks out_degree with
  | Raise e => (graph, Raise e)
  | Ok dangling_sum =>
      let new_ranks := teleport_base nodes in
      match build_incoming_links graph with
      | (graph', Raise e) => (graph', Raise e)
      | (graph', Ok (incoming, _)) =>
          (graph',
           new_ranks <- add_contributions ranks out_degree incoming
                          dangling_sum nodes new_ranks ;;
           diff <- total_difference nodes new_ranks ranks ;;
           Ok (new_ranks, diff))
      end
  end.

Fixpoint topic_loop (remaining done : nat) (graph : dict (list string))
  (nodes : list string) (out_degree : dict nat) (ranks : dict F)
  : dict (list string) * result (dict F * nat) :=
  match remaining with
  | O => (graph, Ok (ranks, done))
  | S remaining' =>
      match topic_iteration graph nodes out_degree ranks with
      | (graph', Raise e) => (graph', Raise e)
      | (graph', Ok (new_ranks, diff)) =>
          if fltb diff tol
          then (graph', Ok (new_ranks, S done))
          else topic_loop remaining' (S done) graph' nodes out_degree new_ranks
      end
  end.

(** [s = sum(ranks.values()); if s > 0: ranks = {n: ranks[n] / s for n in ranks}] *)
Definition normalize (ranks : dict F) : result (dict F) :=
  let s := fsum (values ranks) in
  if fltb fzero s
  then mapM (fun n => r <- getitem n ranks ;; x <- pdiv r s ;; Ok (n, x))
            (keys ranks)
  else Ok ranks.

(** [pages] is a parameter of the source function that its body never reads. *)
Definition topic_pagerank_run (graph : dict (list string))
  (pages : dict (dict string)) (max_iter : nat)
  : dict (list string) * result (dict F * nat) :=
  let nodes := keys graph in
  let N := List.length nodes in
  match mapM (fun n => r <- pdiv_int fone N ;; Ok (n, r)) nodes with
  | Raise e => (graph, Raise e)
  | Ok ranks =>
      let out_degree := out_degrees graph nodes in
      match topic_loop max_iter 0 graph nodes out_degree ranks with
      | (graph', Raise e) => (graph', Raise e)
      | (graph', Ok (ranks', iterations)) =>
          (graph', ranks'' <- normalize ranks' ;; Ok (ranks'', iterations))
      end
  end.

Definition topic_pagerank (graph : dict (list string))
  (pages : dict (dict string)) (max_iter : nat)
  : dict (list string) * result (dict F) :=
  let (graph', run) := topic_pagerank_run graph pages max_iter in
  (graph', r <- run ;; Ok (fst r)).

End TopicPageRank.

(** *** [build_topic_vector] *)

Section TopicVector.

(** [str.lower] *)
Variable lower : string -> string.

(** [k in text] for strings *)
Fixpoint substringb (k text : string) : bool :=
  String.prefix k text ||
  match text with
  | EmptyString => false
  | String _ rest => substringb k rest
  end.

(** [(meta.get('title', '') + " " + meta.get('content', '')).lower()] *)
Definition page_text (meta : dict string) : string :=
  lower (get_default "title" "" meta ++ " " ++ get_default "content" "" meta).

(** [any(k in text for k in kws)] *)
Definition matches (kws : list string) (meta : dict string) : bool :=
  existsb (fun k => substringb k (page_text meta)) kws.

(** [1.0 if match else 0.0] *)
Definition raw_weight (kws : list string) (meta : dict string) : F :=
  if matches kws meta then fone else fzero.

(** The [for pid, meta in pages.items()] loop: [(v, total)]. *)
Definition topic_weights (kws : list string) (pages : dict (dict string))
  : dict F * F :=
  fold_left (fun (acc : dict F * F) (item : string * dict string) =>
               let (v, total) := acc in
               let (pid, meta) := item in
               let w := raw_weight kws meta in
               (set pid w v, fadd total w))
            pages ([], fzero).

Definition build_topic_vector (pages : dict (dict string))
  (topic_keywords : list string) : result (dict F) :=
  let kws := map lower topic_keywords in
  let (v, total) := topic_weights kws pages in
  if feqb total fzero
  then let n := List.length pages in
       mapM (fun pid => x <- pdiv_int fone n ;; Ok (pid, x)) (keys pages)
  else mapM (fun pid => w <- getitem pid v ;; x <- pdiv w total ;; Ok (pid, x))
            (keys pages).

End TopicVector.

End Numeric.

(** ** Exact rational arithmetic *)

#[export] Instance Arith_Qc : Arith Qc := {|
  fzero := 0%Qc;
  fone := 1%Qc;
  fadd := Qcplus;
  fsub := Qcminus;
  fmul := Qcmult;
  fdivide := Qcdiv;
  fabs := Qcabs;
  fltb := fun x y => match (x ?= y)%Qc with Lt => true | _ => false end;
  feqb := fun x y => match (x ?= y)%Qc with Eq => true | _ => false end;
  of_nat := fun n => Q2Qc (inject_Z (Z.of_nat n))
|}.

(** ** Binary64 arithmetic

    The primitive floats are IEEE binary64 with round-to-nearest-even, as
    the C doubles behind a Python [float].  [fsum] adds from left to
    right; CPython does so up to version 3.11 and compensates the
    rounding errors from 3.12 on, and both give the same result on one or
    two summands.  The binary64 runs below only sum two ranks. *)

(** [float(n)] for a small non-negative int (exact below 2^53). *)
Fixpoint float_of_nat (n : nat) : float :=
  match n with
  | O => 0%float
  | S m => PrimFloat.add (float_of_nat m) 1%float
  end.

#[export] Instance Arith_float : Arith float := {|
  fzero := 0%float;
  fone := 1%float;
  fadd := PrimFloat.add;
  fsub := PrimFloat.sub;
  fmul := PrimFloat.mul;
  fdivide := PrimFloat.div;
  fabs := PrimFloat.abs;
  fltb := PrimFloat.ltb;
  feqb := PrimFloat.eqb;
  of_nat := float_of_nat
|}.

(** The doubles Python reads for [0.85] and [1e-6], the defaults of
    [page_rank]. *)
Definition default_damping : float := 0x1.b333333333333p-1%float.
Definition default_tolerance : float := 0x1.0c6f7a0b5ed8dp-20%float.

(** The doubles Python reads for [0.425] and [1e308]. *)
Definition tolerance_0425 : float := 0x1.b333333333333p-2%float.
Definition weight_1e308 : float := 0x1.1ccf385ebc8a0p+1023%float.

(** A rank mapping with its values as plain fractions, for display. *)
Definition fractions (d : dict Qc) : list (string * Q) :=
  map (fun kv => (fst kv, this (snd kv))) d.

(** ASCII lower-casing, used where a concrete [lower] is needed. *)
Definition ascii_lower (c : ascii) : ascii :=
  let n := nat_of_ascii c in
  if (Nat.leb 65 n && Nat.leb n 90)%bool then ascii_of_nat (n + 32) else c.

Fixpoint lower_ascii (s : string) : string :=
  match s with
  | EmptyString => EmptyString
  | String c rest => String (ascii_lower c) (lower_ascii rest)
  end.

(** Every rank of the mapping is non-negative. *)
Definition nonneg (ranks : dict Qc) : Prop :=
  Forall (fun v => (0 <= v)%Qc) (values ranks).

(** A teleportation vector over [nodes]: non-negative weights that sum
    to 1; a node missing from [tv] weighs 0, as in the code. *)
Definition valid_teleport (tv : dict Qc) (nodes : list string) : Prop :=
  fsum (map (teleport tv) nodes) = 1%Qc /\
  forall p, In p nodes -> (0 <= teleport tv p)%Qc.

(** ** Example inputs *)

(** Two pages, one of which mentions ranking. *)
Definition example_pages : dict (dict string) :=
  [("A", [("title", "Link Analysis"); ("content", "PageRank basics")]);
   ("B", [("title", "Cooking"); ("content", "Recipes")])].

(** The graph of [main] in [pr.py]. *)
Definition example_graph : dict (list string) :=
  [("A", ["B"; "C"]); ("B", ["C"]); ("C", ["A"]); ("D", ["C"]); ("E", ["A"; "D"])].

(** A link to a page that is not a key. *)
Definition open_graph : dict (list string) := [("A", ["B"])].

(** A repeated link. *)
Definition double_graph : dict (list string) := [("A", ["B"; "B"]); ("B", ["A"])].

(** [A] links to itself and to [B], [B] links back. *)
Definition loop_graph : dict (list string) := [("A", ["A"; "B"]); ("B", ["A"])].

(** [B] has no outgoing link. *)
Definition sink_graph : dict (list string) := [("A", ["B"]); ("B", [])].

(** No page has an outgoing link. *)
Definition linkless_graph : dict (list string) := [("A", []); ("B", [])].

(** The fraction [n/d] for a positive [d]. *)
Definition q (n d : Z) : Qc := Q2Qc (Qmake n (Z.to_pos d)).

(** Every page of [example_graph] weighted 1/5. *)
Definition example_teleport : dict Qc :=
  tabulate (keys example_graph) (fun _ => q 1 5).

(** ** Notions used in the statements *)

(** Every link target is a key of the graph. *)
Definition closedb (graph : dict (list string)) : bool :=
  forallb (fun item => forallb (fun t => contains_key t graph) (snd item)) graph.

Definition closed (graph : dict (list string)) : Prop := closedb graph = true.

Definition out_links (graph : dict (list string)) (n : string) : list string :=
  get_default n [] graph.

Definition out_degree (graph : dict (list string)) (n : string) : nat :=
  List.length (out_links graph n).

(** The sources of the links into [p]: one entry per occurrence of [p] in
    an outbound list, in the order of the graph. *)
Definition in_links (graph : dict (list string)) (p : string) : list string :=
  flat_map (fun item => repeat (fst item) (count_occ string_dec (snd item) p))
           graph.

(** [after] is [before] followed by new keys with empty outbound lists. *)
Definition extends (before after : dict (list string)) : Prop :=
  exists added, after = before ++ tabulate added (fun _ => @nil string).

Section Updates.

Context {F : Type} {AF : Arith F}.

Definition rank_of (ranks : dict F) (n : string) : F := get_default n fzero ranks.

(** Sum of the ranks of the pages without outgoing links. *)
Definition dangling_of (graph : dict (list string)) (rank : string -> F) : F :=
  fsum (map rank (filter (fun n => Nat.eqb (out_degree graph n) 0) (keys graph))).

(** Sum over the links into [p] of [rank(q) / outDegree(q)]. *)
Definition link_sum (graph : dict (list string)) (rank : string -> F)
  (p : string) : F :=
  fsum (map (fun q => fdivide (rank q) (of_nat (out_degree graph q)))
            (in_links graph p)).

(** The recurrence of the topic-specific solver. *)
Definition topic_update (tv : dict F) (d : F) (graph : dict (list string))
  (rank : string -> F) (p : string) : F :=
  fadd (fmul (fsub fone d) (teleport tv p))
       (fmul d (fadd (link_sum graph rank p)
                     (fmul (dangling_of graph rank) (teleport tv p)))).

(** What the page [fst item] adds to [new_ranks[p]] in step 2 of
    [page_rank], one summand per [+=]. *)
Definition shares (d : F) (graph : dict (list string)) (rank : string -> F)
  (item : string * list string) (p : string) : list F :=
  match snd item with
  | [] => [fmul d (fdivide (rank (fst item)) (of_nat (List.length graph)))]
  | _ :: _ =>
      repeat (fmul d (fdivide (rank (fst item)) (of_nat (List.length (snd item)))))
             (count_occ string_dec (snd item) p)
  end.

(** The recurrence of the classic solver, in the order of its additions. *)
Definition classic_update (d : F) (graph : dict (list string))
  (rank : string -> F) (p : string) : F :=
  fold_left fadd
            (flat_map (fun item => shares d graph rank item p) graph)
            (fdivide (fsub fone d) (of_nat (List.length graph))).

(** The L1 distance both loops compare with the tolerance. *)
Definition l1_distance (nodes : list string) (new old : string -> F) : F :=
  fsum (map (fun n => fabs (fsub (new n) (old n))) nodes).

(** The ranks both solvers start from. *)
Definition uniform_rank (graph : dict (list string)) : string -> F :=
  fun _ => fdivide fone (of_nat (List.length graph)).

(** The final division of [topic_pagerank] by the sum [s] of the ranks,
    performed when [s > 0]. *)
Definition normalized (nodes : list string) (rank : string -> F) : string -> F :=
  fun n =>
    if fltb fzero (fsum (map rank nodes))
    then fdivide (rank n) (fsum (map rank nodes))
    else rank n.

(** A comparison [0 < s] that holds excludes [s == 0]: what the guard
    [if s > 0] of the final division relies on. *)
Definition positive_nonzero : Prop :=
  forall s : F, fltb fzero s = true -> feqb s fzero = false.

End Updates.

(** ** What [pr.py] prints: [page_rank], [print_rankings], [main] *)

(** What one printed line shows: fixed text, or the values that a
    formatted line prints (here unformatted).  [Converged] and
    [MaximumReached] are the two lines of [page_rank], the others those of
    [print_rankings]. *)
Inductive line (F : Type) : Type :=
| Text (s : string)
| Converged (iterations : nat) (total_diff : F)
| MaximumReached (max_iterations : nat)
| RankLine (page : string) (score : F) (inbound outbound : nat)
| TotalPages (n : nat)
| TotalLinks (n : nat)
| AverageRank (x : F).

Arguments Text {F} s.
Arguments Converged {F} iterations total_diff.
Arguments MaximumReached {F} max_iterations.
Arguments RankLine {F} page score inbound outbound.
Arguments TotalPages {F} n.
Arguments TotalLinks {F} n.
Arguments AverageRank {F} x.

(** [c * n] for a one-character string [c]. *)
Definition ruler (c : ascii) (n : nat) : string :=
  string_of_list_ascii (repeat c n).

Section Report.

Context {F : Type} {AF : Arith F}.

(** The loop of [page_rank] with what it prints.  It ends at the
    [break], after printing the number of passes made and the last
    [total_diff], or with its budget used up, and then the [else] branch of
    the [for] prints the budget.  A pass that raises prints nothing. *)
Fixpoint page_rank_loop_printing (graph : dict (list string))
  (damping_factor tolerance : F) (max_iterations remaining done : nat)
  (ranks : dict F) : list (line F) * result (dict F) :=
  match remaining with
  | O => ([MaximumReached max_iterations], Ok ranks)
  | S remaining' =>
      match page_rank_iteration graph damping_factor ranks with
      | Raise e => ([], Raise e)
      | Ok (new_ranks, total_diff) =>
          if fltb total_diff tolerance
          then ([Converged (S done) total_diff], Ok new_ranks)
          else page_rank_loop_printing graph damping_factor tolerance
                 max_iterations remaining' (S done) new_ranks
      end
  end.

(** [page_rank]: the lines printed and the result. *)
Definition page_rank_printing (graph : dict (list string))
  (damping_factor tolerance : F) (max_iterations : nat)
  : list (line F) * result (dict F) :=
  match initial_ranks graph with
  | Raise e => ([], Raise e)
  | Ok ranks =>
      page_rank_loop_printing graph damping_factor tolerance max_iterations
                              max_iterations 0 ranks
  end.

(** The stable sort by descending score: pages of equal score keep their
    original order.  Where the scores are totally ordered, as the exact
    rationals are, this is the list that
    [sorted(items, key=lambda x: x[1], reverse=True)] returns. *)
Fixpoint insert_desc (x : string * F) (l : list (string * F))
  : list (string * F) :=
  match l with
  | [] => [x]
  | y :: rest =>
      if fltb (snd x) (snd y) then y :: insert_desc x rest else x :: l
  end.

Definition sorted_desc (items : list (string * F)) : list (string * F) :=
  fold_right insert_desc [] items.

(** [sum(1 for p, links in graph.items() if page in links)] *)
Definition inbound_count (graph : dict (list string)) (page : string) : nat :=
  List.length (filter (fun item => existsb (String.eqb page) (snd item)) graph).

(** [sum(len(links) for links in graph.values())] *)
Definition total_links (graph : dict (list string)) : nat :=
  list_sum (map (fun links => List.length links) (values graph)).

(** The [for page, score in sorted_ranks] loop; [out] is what has been
    printed so far, and stays printed when [graph[page]] raises. *)
Fixpoint print_rows (graph : dict (list string)) (rows : list (string * F))
  (out : list (line F)) : list (line F) * result unit :=
  match rows with
  | [] => (out, Ok tt)
  | (page, score) :: rest =>
      match getitem page graph with
      | Raise e => (out, Raise e)
      | Ok links =>
          print_rows graph rest
            (out ++ [RankLine page score (inbound_count graph page)
                              (List.length links)])
      end
  end.

Definition report_header : list (line F) :=
  [Text ""; Text "PageRank Analysis Results"; Text (ruler "=" 50);
   Text ""; Text "Page Rankings:"; Text (ruler "-" 20)].

Definition statistics_header : list (line F) :=
  [Text ""; Text "Network Statistics:"; Text (ruler "-" 20)].

(** [sorted(ranks.items(), key=lambda x: x[1], reverse=True)], the sort
    of the library.  It returns a rearrangement of its input whatever the
    scores are; with a score that is not a number the order it produces
    depends on the comparisons it happens to make, so the sort is a
    parameter here.  In exact arithmetic it is [sorted_desc]. *)
Variable sorted_by_score : list (string * F) -> list (string * F).

(** The lines printed, and how the call ends.  The last line divides
    [sum(ranks.values())] by [len(ranks)]. *)
Definition print_rankings (ranks : dict F) (graph : dict (list string))
  : list (line F) * result unit :=
  match print_rows graph (sorted_by_score ranks) report_header with
  | (out, Raise e) => (out, Raise e)
  | (out, Ok _) =>
      let out := out ++ statistics_header
                     ++ [TotalPages (List.length graph);
                         TotalLinks (total_links graph)] in
      match pdiv_int (fsum (values ranks)) (List.length ranks) with
      | Raise e => (out, Raise e)
      | Ok average => (out ++ [AverageRank average], Ok tt)
      end
  end.

(** [main] of [pr.py] for a graph and parameters of choice: rank the
    pages, which prints one line, then print the report. *)
Definition main_on (graph : dict (list string)) (damping_factor tolerance : F)
  (max_iterations : nat) : list (line F) * result unit :=
  match page_rank_printing graph damping_factor tolerance max_iterations with
  | (out, Raise e) => (out, Raise e)
  | (out, Ok ranks) =>
      let (report, outcome) := print_rankings ranks graph in
      (out ++ report, outcome)
  end.

(** The line of a page that is a key of the graph. *)
Definition rank_line (graph : dict (list string)) (item : string * F) : line F :=
  RankLine (fst item) (snd item) (inbound_count graph (fst item))
           (out_degree graph (fst item)).

(** The three lines under "Network Statistics". *)
Definition statistics (graph : dict (list string)) (average : F)
  : list (line F) :=
  [TotalPages (List.length graph); TotalLinks (total_links graph);
   AverageRank average].

(** The sums of the [In] and of the [Out] figures of the lines. *)
Definition inbound_column (out : list (line F)) : nat :=
  list_sum (map (fun l => match l with RankLine _ _ i _ => i | _ => 0 end) out).

Definition outbound_column (out : list (line F)) : nat :=
  list_sum (map (fun l => match l with RankLine _ _ _ o => o | _ => 0 end) out).

End Report.

(** ** Reading the pages: [parse_xml] of [topic_pagerank.py] *)

(** An element as [xml.etree.ElementTree] presents it: tag, attributes,
    the text before its first child ([None] when there is none), and its
    children in document order.  Reading the file and parsing its text
    into this tree is the library's part and is not modelled. *)
#[warnings="-register-all"]
Inductive element : Type :=
| Element (tag : string) (attrib : dict string) (text : option string)
          (children : list element).

Definition tag_of (e : element) : string :=
  match e with Element tag _ _ _ => tag end.
Definition attrib_of (e : element) : dict string :=
  match e with Element _ attrib _ _ => attrib end.
Definition text_of (e : element) : option string :=
  match e with Element _ _ text _ => text end.
Definition children_of (e : element) : list element :=
  match e with Element _ _ _ children => children end.

(** [e.findall(tag)] and [e.find(tag)] for a plain tag name: the direct
    children with that tag, and the first of them. *)
Definition findall (tag : string) (e : element) : list element :=
  filter (fun c => String.eqb (tag_of c) tag) (children_of e).

Definition find_child (tag : string) (e : element) : option element :=
  List.find (fun c => String.eqb (tag_of c) tag) (children_of e).

(** A non-empty string is true in a condition. *)
Definition truthy (s : string) : bool := negb (String.eqb s "").

Section ParseXml.

(** [str.strip] *)
Variable strip : string -> string.

(** [el.text.strip() if el is not None and el.text else ""] *)
Definition stripped_text (el : option element) : string :=
  match el with
  | Some e =>
      match text_of e with
      | Some t => if truthy t then strip t else ""
      | None => ""
      end
  | None => ""
  end.

(** The links of a page: for every [<link>] under [<links>] whose text
    and stripped text are non-empty, the stripped text. *)
Definition link_texts (page : element) : list string :=
  match find_child "links" page with
  | None => []
  | Some links_el =>
      fold_left (fun outs l =>
                   match text_of l with
                   | Some t =>
                       if truthy t && truthy (strip t)
                       then outs ++ [strip t]
                       else outs
                   | None => outs
                   end)
                (findall "link" links_el) []
  end.

(** [{'title': title, 'content': content}] *)
Definition page_meta (page : element) : dict string :=
  [("title", stripped_text (find_child "title" page));
   ("content", stripped_text (find_child "content" page))].

(** Body of [for page in root.findall('page')].  [page.get('id')] is
    [None] for a page without [id]; Python then uses [None] as the key,
    which the string-keyed dictionaries of this development do not have:
    the model answers [None] for such a document. *)
Definition parse_page
  (acc : option (dict (dict string) * dict (list string))) (page : element)
  : option (dict (dict string) * dict (list string)) :=
  match acc with
  | None => None
  | Some (pages, graph) =>
      match get "id" (attrib_of page) with
      | None => None
      | Some pid =>
          Some (set pid (page_meta page) pages, set pid (link_texts page) graph)
      end
  end.

(** [parse_xml], from the root element on: [(pages, graph)]. *)
Definition parse_xml (root : element)
  : option (dict (dict string) * dict (list string)) :=
  fold_left parse_page (findall "page" root) (Some ([], [])).

End ParseXml.

(** A document with two pages; the second link of [A] is blank. *)
Definition example_document : element :=
  Element "webpages" [] None
    [Element "page" [("id", "A")] None
       [Element "title" [] (Some "Introduction to AI") [];
        Element "content" [] (Some "Artificial Intelligence basics") [];
        Element "links" [] None
          [Element "link" [] (Some "B") []; Element "link" [] (Some " ") []]];
     Element "page" [("id", "B")] None
       [Element "title" [] (Some "Ranking") [];
        Element "links" [] None [Element "link" [] (Some "A") []]]].

(** What [parse_xml] reads from [example_document]. *)
Definition example_document_pages : dict (dict string) :=
  [("A", [("title", "Introduction to AI");
          ("content", "Artificial Intelligence basics")]);
   ("B", [("title", "Ranking"); ("content", "")])].

Definition example_document_graph : dict (list string) :=
  [("A", ["B"]); ("B", ["A"])].

(** Two pages with the same id. *)
Definition old_page : element :=
  Element "page" [("id", "A")] None
    [Element "title" [] (Some "Old") [];
     Element "links" [] None [Element "link" [] (Some "A") []]].

Definition new_page : element :=
  Element "page" [("id", "A")] None [Element "title" [] (Some "New") []].

Definition repeated_document : element :=
  Element "webpages" [] None [old_page; new_page].

(** A document whose only page links to an id that no page has. *)
Definition open_document : element :=
  Element "webpages" [] None
    [Element "page" [("id", "A")] None
       [Element "title" [] (Some "Home") [];
        Element "links" [] None [Element "link" [] (Some "B") []]]].

(** What [parse_xml] reads from [open_document]; the graph is
    [open_graph]. *)
Definition open_document_pages : dict (dict string) :=
  [("A", [("title", "Home"); ("content", "")])].

(** Removes the spaces at both ends; stands for [str.strip] on texts whose
    only whitespace is the space. *)
Fixpoint strip_left (s : string) : string :=
  match s with
  | String " " rest => strip_left rest
  | _ => s
  end.

Definition reverse_string (s : string) : string :=
  string_of_list_ascii (rev (list_ascii_of_string s)).

Definition strip_spaces (s : string) : string :=
  reverse_string (strip_left (reverse_string (strip_left s))).

(** ** The driver of [topic_pagerank.py]: [main]

    From the parsed pages and the keyword list on.  Of what [main] prints,
    the lines that show data of the pages are kept: the summary of every
    page, the positive weights of the teleportation vector, and the ranks
    by descending score; each shows a title looked up in [pages]. *)
Inductive topic_line (F : Type) : Type :=
| Summary (pid title : string) (links : list string)
| Weight (pid : string) (w : F) (title : string)
| Ranked (pid : string) (rank : F) (title : string).

Arguments Summary {F} pid title links.
Arguments Weight {F} pid w title.
Arguments Ranked {F} pid rank title.

Section TopicMain.

Context {F : Type} {AF : Arith F}.

(** The sort of the library, as in [print_rankings]. *)
Variable sorted_by_score : list (string * F) -> list (string * F).

Variable lower : string -> string.

(** A loop that prints at most one line per item; [out] is what has been
    printed so far, and stays printed when the body raises. *)
Fixpoint print_each {A : Type} (line_of : A -> result (option (topic_line F)))
  (items : list A) (out : list (topic_line F))
  : list (topic_line F) * result unit :=
  match items with
  | [] => (out, Ok tt)
  | item :: rest =>
      match line_of item with
      | Raise e => (out, Raise e)
      | Ok None => print_each line_of rest out
      | Ok (Some l) => print_each line_of rest (out ++ [l])
      end
  end.

(** [pages[pid]['title']] *)
Definition title_of (pages : dict (dict string)) (pid : string) : result string :=
  meta <- getitem pid pages ;;
  getitem "title" meta.

(** The title of a page that is in [pages] and has one. *)
Definition page_title (pages : dict (dict string)) (pid : string) : string :=
  get_default "title" "" (get_default (V := dict string) pid [] pages).

(** [print(f"  {pid}: {meta['title']} (links -> {graph.get(pid, [])})")] *)
Definition summary_line (graph : dict (list string))
  (item : string * dict string) : result (option (topic_line F)) :=
  title <- getitem "title" (snd item) ;;
  Ok (Some (Summary (fst item) title (get_default (fst item) [] graph))).

(** [if w > 0: print(f"  {pid}: {w:.4f} -> {pages[pid]['title']}")] *)
Definition weight_line (pages : dict (dict string)) (item : string * F)
  : result (option (topic_line F)) :=
  if fltb fzero (snd item)
  then title <- title_of pages (fst item) ;;
       Ok (Some (Weight (fst item) (snd item) title))
  else Ok None.

(** [print(f"  Page {pid}  Rank={r:.6f}  Title='{pages[pid]['title']}'")] *)
Definition ranked_line (pages : dict (dict string)) (item : string * F)
  : result (option (topic_line F)) :=
  title <- title_of pages (fst item) ;;
  Ok (Some (Ranked (fst item) (snd item) title)).

(** [main] after [parse_xml] and the reading of the keywords, for
    parameters of choice ([main] passes 0.85, 1e-8 and 200). *)
Definition topic_main_on (pages : dict (dict string))
  (graph : dict (list string)) (keywords : list string) (damping tol : F)
  (max_iter : nat) : list (topic_line F) * result unit :=
  match print_each (summary_line graph) pages [] with
  | (out, Raise e) => (out, Raise e)
  | (out, Ok _) =>
      match build_topic_vector lower pages keywords with
      | Raise e => (out, Raise e)
      | Ok topic_vec =>
          match print_each (weight_line pages) topic_vec out with
          | (out, Raise e) => (out, Raise e)
          | (out, Ok _) =>
              match snd (topic_pagerank topic_vec damping tol graph pages
                                        max_iter) with
              | Raise e => (out, Raise e)
              | Ok ranks =>
                  print_each (ranked_line pages) (sorted_by_score ranks) out
              end
          end
      end
  end.

End TopicMain.

(** * Properties *)

(** ** Concrete runs *)

(** The first pass of [page_rank] on the graph of [main], damping 0.85. *)
Example page_rank_first_pass :
  match page_rank example_graph (q 85 100) (q 1 1000000) 1 with
  | Ok ranks => fractions ranks
  | Raise _ => []
  end
  = [("A", 57 # 200); ("B", 23 # 200); ("C", 91 # 200); ("D", 23 # 200);
     ("E", 3 # 100)]%Q.
Proof. vm_compute. reflexivity. Qed.

(** With the defaults the loop stops after 27 passes, [C] ranking above [D]. *)
Example page_rank_example_converges :
  exists ranks,
    page_rank_run example_graph (q 85 100) (q 1 1000000) 100 = Ok (ranks, 27) /\
    fltb (rank_of ranks "D") (rank_of ranks "C") = true.
Proof. eexists. split; vm_compute; reflexivity. Qed.

(** A single page without links keeps rank 1 whatever the vector. *)
Example single_sink_rank :
  match topic_pagerank [("X", q 1 1)] (q 85 100) (q 1 1000000) [("X", [])] [] 100 with
  | (graph, Ok ranks) => (graph, fractions ranks)
  | (graph, Raise _) => (graph, [])
  end
  = ([("X", [])], [("X", 1 # 1)]%Q).
Proof. vm_compute. reflexivity. Qed.

(** Only page [A] mentions the keyword, in another letter case. *)
Example build_topic_vector_match :
  match build_topic_vector (F := Qc) lower_ascii example_pages ["PageRank"] with
  | Ok v => fractions v
  | Raise _ => []
  end
  = [("A", 1 # 1); ("B", 0 # 1)]%Q.
Proof. vm_compute. reflexivity. Qed.

(** The reverse index keeps repeated links. *)
Example build_incoming_links_repeated :
  build_incoming_links double_graph
  = (double_graph, Ok ([("A", ["B"]); ("B", ["A"; "A"])], ["A"; "B"])).
Proof. reflexivity. Qed.

(** ** Dictionaries *)

Lemma distinctb_NoDup (ks : list string) : distinctb ks = true <-> NoDup ks.
Proof.
  induction ks as [|k ks IH]; simpl.
  - split; [constructor | reflexivity].
  - rewrite andb_true_iff, negb_true_iff, IH. split.
    + intros [Hk Hn]. constructor; [|assumption].
      intro Hin. assert (existsb (String.eqb k) ks = true) as E.
      { apply existsb_exists. exists k. split; [assumption | apply String.eqb_refl]. }
      congruence.
    + intro H. inversion H as [|? ? Hk Hn]; subst. split; [|assumption].
      destruct (existsb (String.eqb k) ks) eqn:E; [|reflexivity].
      apply existsb_exists in E. destruct E as [x [Hx Hkx]].
      apply String.eqb_eq in Hkx. subst. contradiction.
Qed.

Lemma keys_tabulate {V : Type} (ks : list string) (f : string -> V) :
  keys (tabulate ks f) = ks.
Proof.
  unfold keys, tabulate. rewrite map_map. simpl. apply map_id.
Qed.

Lemma values_tabulate {V : Type} (ks : list string) (f : string -> V) :
  values (tabulate ks f) = map f ks.
Proof. unfold values, tabulate. now rewrite map_map. Qed.

Lemma length_tabulate {V : Type} (ks : list string) (f : string -> V) :
  List.length (tabulate ks f) = List.length ks.
Proof. unfold tabulate. apply length_map. Qed.

Lemma tabulate_ext {V : Type} (ks : list string) (f g : string -> V) :
  (forall k, In k ks -> f k = g k) -> tabulate ks f = tabulate ks g.
Proof.
  intro H. unfold tabulate. apply map_ext_in. intros k Hk. now rewrite H.
Qed.

Lemma get_tabulate {V : Type} (ks : list string) (f : string -> V) (k : string) :
  In k ks -> get k (tabulate ks f) = Some (f k).
Proof.
  induction ks as [|a ks IH]; simpl; [contradiction|].
  intros [->|Hin].
  - now rewrite String.eqb_refl.
  - destruct (String.eqb k a) eqn:E.
    + apply String.eqb_eq in E. now subst.
    + now apply IH.
Qed.

Lemma get_none {V : Type} (d : dict V) (k : string) :
  ~ In k (keys d) -> get k d = None.
Proof.
  induction d as [|[a v] d IH]; simpl; [reflexivity|].
  intro H. destruct (String.eqb k a) eqn:E.
  - apply String.eqb_eq in E. subst. exfalso. apply H. now left.
  - apply IH. intro Hin. apply H. now right.
Qed.

Lemma get_some_in {V : Type} (d : dict V) (k : string) (v : V) :
  get k d = Some v -> In (k, v) d.
Proof.
  induction d as [|[a w] d IH]; simpl; [discriminate|].
  destruct (String.eqb k a) eqn:E.
  - apply String.eqb_eq in E. subst. intro H. injection H as ->. now left.
  - intro H. right. now apply IH.
Qed.

Lemma get_in {V : Type} (d : dict V) (k : string) (v : V) :
  NoDup (keys d) -> In (k, v) d -> get k d = Some v.
Proof.
  induction d as [|[a w] d IH]; simpl; [contradiction|].
  intros Hnd H. inversion Hnd as [|? ? Ha Hd]; subst.
  destruct H as [H|H].
  - injection H as -> ->. now rewrite String.eqb_refl.
  - destruct (String.eqb k a) eqn:E.
    + apply String.eqb_eq in E. subst. exfalso. apply Ha.
      change a with (fst (a, v)). now apply in_map.
    + now apply IH.
Qed.

Lemma get_key_in {V : Type} (d : dict V) (k : string) :
  In k (keys d) -> exists v, get k d = Some v.
Proof.
  induction d as [|[a w] d IH]; simpl; [contradiction|].
  intros [->|H].
  - rewrite String.eqb_refl. now exists w.
  - destruct (String.eqb k a); [now exists w | now apply IH].
Qed.

Lemma set_absent {V : Type} (d : dict V) (k : string) (v : V) :
  ~ In k (keys d) -> set k v d = d ++ [(k, v)].
Proof.
  induction d as [|[a w] d IH]; simpl; [reflexivity|].
  intro H. destruct (String.eqb k a) eqn:E.
  - apply String.eqb_eq in E. subst. exfalso. apply H. now left.
  - f_equal. apply IH. intro Hin. apply H. now right.
Qed.

Lemma set_tabulate {V : Type} (ks : list string) (f : string -> V)
  (k : string) (v : V) :
  NoDup ks -> In k ks ->
  set k v (tabulate ks f)
  = tabulate ks (fun k' => if String.eqb k' k then v else f k').
Proof.
  induction ks as [|a ks IH]; simpl; [contradiction|].
  intros Hnd Hin. inversion Hnd as [|? ? Ha Hks]; subst.
  destruct (String.eqb k a) eqn:E.
  - apply String.eqb_eq in E. subst a. rewrite String.eqb_refl. f_equal.
    apply tabulate_ext. intros k' Hk'.
    destruct (String.eqb k' k) eqn:E'; [|reflexivity].
    apply String.eqb_eq in E'. subst. contradiction.
  - rewrite String.eqb_sym, E. f_equal. apply IH; [assumption|].
    destruct Hin as [->|Hin]; [|assumption].
    rewrite String.eqb_refl in E. discriminate.
Qed.

Lemma tabulate_keys {V : Type} (d : dict V) (dflt : V) :
  NoDup (keys d) -> d = tabulate (keys d) (fun k => get_default k dflt d).
Proof.
  intro Hnd. unfold tabulate, keys. rewrite map_map.
  rewrite <- (map_id d) at 1. apply map_ext_in.
  intros [k v] Hin. simpl. unfold get_default.
  now rewrite (get_in d k v Hnd Hin).
Qed.

Lemma tabulate_app {V : Type} (ks ls : list string) (f : string -> V) :
  tabulate (ks ++ ls) f = tabulate ks f ++ tabulate ls f.
Proof. unfold tabulate. apply map_app. Qed.

(** ** Loops that cannot raise *)

Lemma mapM_ok {A B : Type} (f : A -> result B) (g : A -> B) (xs : list A) :
  (forall x, In x xs -> f x = Ok (g x)) -> mapM f xs = Ok (map g xs).
Proof.
  induction xs as [|x xs IH]; simpl; intro H; [reflexivity|].
  rewrite (H x (or_introl eq_refl)). simpl.
  rewrite IH by (intros y Hy; apply H; now right). reflexivity.
Qed.

Lemma foldM_ok {A S : Type} (body : A -> S -> result S) (h : S -> A -> S)
  (P : S -> Prop) (xs : list A) (acc : S) :
  (forall x s, In x xs -> P s -> body x s = Ok (h s x) /\ P (h s x)) ->
  P acc ->
  foldM body xs acc = Ok (fold_left h xs acc) /\ P (fold_left h xs acc).
Proof.
  revert acc. induction xs as [|x xs IH]; simpl; intros acc H Hacc.
  - now split.
  - destruct (H x acc (or_introl eq_refl) Hacc) as [E HP]. rewrite E. simpl.
    apply IH; [|assumption]. intros y s Hy. apply H. now right.
Qed.

Lemma fold_set_fresh {V : Type} (g : string -> V) (ks : list string) (acc : dict V) :
  NoDup (keys acc ++ ks) ->
  fold_left (fun new p => set p (g p) new) ks acc = acc ++ tabulate ks g.
Proof.
  revert acc. induction ks as [|k ks IH]; simpl; intros acc Hnd.
  - now rewrite app_nil_r.
  - assert (~ In k (keys acc)) as Hk.
    { intro Hin. apply NoDup_remove_2 in Hnd. apply Hnd.
      apply in_or_app. now left. }
    rewrite set_absent by assumption. rewrite IH.
    + now rewrite <- app_assoc.
    + unfold keys in *. rewrite map_app. simpl. now rewrite <- app_assoc.
Qed.

Lemma fold_left_add_map {F : Type} {AF : Arith F} {A : Type} (g : A -> F)
  (xs : list A) (start : F) :
  fold_left (fun acc x => fadd acc (g x)) xs start
  = fold_left fadd (map g xs) start.
Proof.
  revert start. induction xs as [|x xs IH]; simpl; intro start;
    [reflexivity | apply IH].
Qed.

(** ** Classic PageRank: one pass in closed form *)

Section ClassicStep.

Context {F : Type} {AF : Arith F}.

Lemma pdiv_int_pos (x : F) (n : nat) :
  0 < n -> pdiv_int x n = Ok (fdivide x (of_nat n)).
Proof. destruct n; [lia | reflexivity]. Qed.

Lemma initial_ranks_ok (graph : dict (list string)) :
  initial_ranks (F := F) graph
  = Ok (tabulate (keys graph) (uniform_rank graph)).
Proof.
  unfold initial_ranks, num_pages. destruct graph as [|item graph].
  - reflexivity.
  - apply mapM_ok. intros page _. reflexivity.
Qed.

Lemma base_ranks_ok (graph : dict (list string)) (d : F) :
  NoDup (keys graph) ->
  base_ranks graph d
  = Ok (tabulate (keys graph)
          (fun _ => fdivide (fsub fone d) (of_nat (List.length graph)))).
Proof.
  intro Hnd. unfold base_ranks, num_pages.
  destruct graph as [|item graph]; [reflexivity|].
  set (b := fdivide (fsub fone d) (of_nat (List.length (item :: graph)))).
  destruct (foldM_ok
              (fun page new_ranks =>
                 b0 <- pdiv_int (fsub fone d) (List.length (item :: graph)) ;;
                 Ok (set page b0 new_ranks))
              (fun new (page : string) => set page b new)
              (fun _ => True) (keys (item :: graph)) []) as [E _].
  - intros x s _ _. split; [reflexivity | exact I].
  - exact I.
  - rewrite E. f_equal.
    apply (fold_set_fresh (fun _ => b) (keys (item :: graph)) []). exact Hnd.
Qed.

Lemma add_to_tabulate (amount : F) (ks targets : list string) (f : string -> F) :
  NoDup ks -> (forall t, In t targets -> In t ks) ->
  add_to amount targets (tabulate ks f)
  = Ok (tabulate ks (fun k =>
          fold_left fadd (repeat amount (count_occ string_dec targets k)) (f k))).
Proof.
  intros Hnd. revert f. unfold add_to.
  induction targets as [|t targets IH]; intros f Hin; simpl.
  - reflexivity.
  - unfold getitem. rewrite get_tabulate by (apply Hin; now left). simpl.
    rewrite set_tabulate by (auto; apply Hin; now left).
    rewrite IH by (intros t' Ht'; apply Hin; now right).
    f_equal. apply tabulate_ext. intros k Hk.
    destruct (string_dec t k) as [->|Hne].
    + now rewrite String.eqb_refl.
    + destruct (String.eqb k t) eqn:E; [|reflexivity].
      apply String.eqb_eq in E. congruence.
Qed.

Lemma add_to_missing (amount : F) (ks pre post : list string) (t : string)
  (f : string -> F) :
  NoDup ks -> (forall t', In t' pre -> In t' ks) -> ~ In t ks ->
  add_to amount (pre ++ t :: post) (tabulate ks f) = Raise (KeyError t).
Proof.
  intros Hnd. revert f. unfold add_to.
  induction pre as [|a pre IH]; intros f Hpre Ht; simpl.
  - unfold getitem. rewrite get_none; [reflexivity|].
    now rewrite keys_tabulate.
  - unfold getitem. rewrite get_tabulate by (apply Hpre; now left). simpl.
    rewrite set_tabulate by (auto; apply Hpre; now left).
    apply IH; [|assumption]. intros t' Ht'. apply Hpre. now right.
Qed.

End ClassicStep.

Lemma contains_key_in {V : Type} (d : dict V) (k : string) :
  contains_key k d = true <-> In k (keys d).
Proof.
  unfold contains_key. split.
  - intro H. destruct (get k d) as [v|] eqn:E; [|discriminate].
    apply get_some_in in E. change k with (fst (k, v)). now apply in_map.
  - intro H. destruct (get_key_in d k H) as [v ->]. reflexivity.
Qed.

Lemma closed_targets (graph : dict (list string)) :
  closed graph ->
  forall page links t, In (page, links) graph -> In t links -> In t (keys graph).
Proof.
  unfold closed, closedb. intros H page links t Hitem Ht.
  rewrite forallb_forall in H. specialize (H _ Hitem). simpl in H.
  rewrite forallb_forall in H. apply contains_key_in. now apply H.
Qed.

Lemma in_length_pos {A : Type} (x : A) (l : list A) :
  In x l -> 0 < List.length l.
Proof. destruct l; simpl; [contradiction | lia]. Qed.

Lemma iter_succ_inner {A : Type} (f : A -> A) (n : nat) (x : A) :
  Nat.iter (S n) f x = Nat.iter n f (f x).
Proof. induction n as [|n IH]; simpl in *; [reflexivity | now rewrite IH]. Qed.

Lemma iter_invariant {A : Type} (P : A -> Prop) (f : A -> A) :
  (forall x, P x -> P (f x)) -> forall n x, P x -> P (Nat.iter n f x).
Proof.
  intros Hf n x Hx. induction n as [|n IH]; simpl; [assumption | now apply Hf].
Qed.

Section ClassicSolver.

Context {F : Type} {AF : Arith F}.

Variable graph : dict (list string).
Variable d tol : F.

Hypothesis graph_wf : wf_dict graph.

Let ks : list string := keys graph.

Lemma keys_NoDup : NoDup (keys graph).
Proof. now apply distinctb_NoDup. Qed.

Lemma item_key (page : string) (links : list string) :
  In (page, links) graph -> In page (keys graph).
Proof. intro H. change page with (fst (page, links)). now apply in_map. Qed.

Lemma distribute_tabulate (r f : string -> F) (item : string * list string) :
  In item graph ->
  (forall t, In t (snd item) -> In t ks) ->
  distribute graph d (tabulate ks r) item (tabulate ks f)
  = Ok (tabulate ks (fun k => fold_left fadd (shares d graph r item k) (f k))).
Proof.
  intros Hitem Htargets. destruct item as [page links]. unfold distribute, getitem.
  rewrite get_tabulate by (eapply item_key; eassumption).
  unfold shares. simpl fst. simpl snd.
  destruct links as [|l links]; simpl bind.
  - unfold num_pages.
    rewrite pdiv_int_pos by (eapply in_length_pos; eassumption).
    simpl bind. unfold ks. rewrite add_to_tabulate; auto using keys_NoDup.
    f_equal. apply tabulate_ext. intros k Hk.
    pose proof keys_NoDup as Hnd. rewrite (NoDup_count_occ' string_dec) in Hnd.
    now rewrite (Hnd k Hk).
  - unfold ks. rewrite add_to_tabulate; auto using keys_NoDup.
Qed.

Lemma distribute_all (r : string -> F) (its : list (string * list string))
  (f : string -> F) :
  incl its graph ->
  (forall item t, In item its -> In t (snd item) -> In t ks) ->
  foldM (distribute graph d (tabulate ks r)) its (tabulate ks f)
  = Ok (tabulate ks (fun k =>
          fold_left fadd (flat_map (fun item => shares d graph r item k) its)
                    (f k))).
Proof.
  revert f. induction its as [|item its IH]; intros f Hincl Htargets; simpl.
  - reflexivity.
  - rewrite distribute_tabulate
      by (try (apply Hincl; now left); intros t Ht; apply (Htargets item); auto using in_eq).
    simpl.
    rewrite IH
      by (try (intros x Hx; apply Hincl; now right);
          intros x t Hx Ht; apply (Htargets x); auto using in_cons).
    f_equal. apply tabulate_ext. intros k _. now rewrite fold_left_app.
Qed.

Lemma total_difference_tabulate (nodes : list string) (new old : string -> F) :
  incl nodes ks ->
  total_difference nodes (tabulate ks new) (tabulate ks old)
  = Ok (l1_distance nodes new old).
Proof.
  intro Hincl. unfold total_difference, l1_distance.
  rewrite (mapM_ok _ (fun n => fabs (fsub (new n) (old n)))); [reflexivity|].
  intros n Hn. unfold getitem. now rewrite !get_tabulate by (now apply Hincl).
Qed.

Hypothesis graph_closed : closed graph.

(** One pass of [page_rank] on a closed graph. *)
Lemma page_rank_iteration_tabulate (r : string -> F) :
  page_rank_iteration graph d (tabulate ks r)
  = Ok (tabulate ks (classic_update d graph r),
        l1_distance ks (classic_update d graph r) r).
Proof.
  unfold page_rank_iteration. rewrite base_ranks_ok by apply keys_NoDup.
  simpl bind. fold ks.
  rewrite distribute_all
    by (try apply incl_refl;
        intros [page links] t Hitem Ht; eapply closed_targets; eassumption).
  simpl bind.
  fold (classic_update d graph r).
  change (fun k => classic_update d graph r k) with (classic_update d graph r).
  rewrite total_difference_tabulate by apply incl_refl. reflexivity.
Qed.

(** The loop of [page_rank] runs at most [remaining] passes and cannot
    raise; it makes all of them when the distance never drops below the
    tolerance. *)
Lemma page_rank_loop_iter (remaining done : nat) (r : string -> F) :
  exists n,
    n <= remaining /\
    page_rank_loop graph d tol remaining done (tabulate ks r)
    = Ok (tabulate ks (Nat.iter n (classic_update d graph) r), done + n) /\
    ((forall k, k < remaining ->
        fltb (l1_distance ks (Nat.iter (S k) (classic_update d graph) r)
                          (Nat.iter k (classic_update d graph) r)) tol = false) ->
     n = remaining).
Proof.
  revert done r. induction remaining as [|remaining IH]; intros done r.
  - exists 0. simpl. rewrite Nat.add_0_r. repeat split; auto.
  - simpl page_rank_loop. rewrite page_rank_iteration_tabulate. simpl bind.
    destruct (fltb (l1_distance ks (classic_update d graph r) r) tol) eqn:E.
    + exists 1. simpl. rewrite Nat.add_1_r. repeat split; [lia|].
      intro H. specialize (H 0 (Nat.lt_0_succ _)). simpl in H. congruence.
    + destruct (IH (S done) (classic_update d graph r)) as [n [Hn [Hrun Hall]]].
      exists (S n). rewrite iter_succ_inner. repeat split; [lia| |].
      * rewrite Hrun. do 2 f_equal. lia.
      * intro H. f_equal. apply Hall. intros k Hk.
        specialize (H (S k) (proj1 (Nat.succ_lt_mono _ _) Hk)).
        now rewrite <- !iter_succ_inner.
Qed.

End ClassicSolver.

(** ** The reverse index *)

Lemma in_links_spec (graph : dict (list string)) (p q : string) :
  In q (in_links graph p) <-> exists outs, In (q, outs) graph /\ In p outs.
Proof.
  unfold in_links. rewrite in_flat_map. split.
  - intros [[src outs] [Hitem Hq]]. simpl in Hq.
    pose proof (repeat_spec _ _ _ Hq) as ->. exists outs. split; [assumption|].
    apply (count_occ_In string_dec).
    destruct (count_occ string_dec outs p); [contradiction | lia].
  - intros [outs [Hitem Hp]]. exists (q, outs). split; [assumption|]. simpl.
    apply (count_occ_In string_dec) in Hp.
    destruct (count_occ string_dec outs p); [lia | now left].
Qed.

Lemma out_links_item (graph : dict (list string)) (q : string) (outs : list string) :
  NoDup (keys graph) -> In (q, outs) graph -> out_links graph q = outs.
Proof.
  intros Hnd Hitem. unfold out_links, get_default.
  now rewrite (get_in graph q outs Hnd Hitem).
Qed.

Lemma in_links_source (graph : dict (list string)) (p q : string) :
  NoDup (keys graph) -> In q (in_links graph p) ->
  In q (keys graph) /\ 0 < out_degree graph q.
Proof.
  intros Hnd Hq. apply in_links_spec in Hq. destruct Hq as [outs [Hitem Hp]].
  split.
  - change q with (fst (q, outs)). now apply in_map.
  - unfold out_degree. rewrite (out_links_item graph q outs Hnd Hitem).
    eapply in_length_pos; eassumption.
Qed.

Section IncomingLinks.

Variable ks : list string.
Hypothesis ks_NoDup : NoDup ks.

Lemma record_link_known (src dst : string) (g : dict (list string))
  (f : string -> list string) :
  In dst ks ->
  record_link src (g, tabulate ks f) dst
  = (g, tabulate ks (fun k => if String.eqb k dst then f dst ++ [src] else f k)).
Proof.
  intro Hin. unfold record_link. rewrite get_tabulate by assumption.
  now rewrite set_tabulate.
Qed.

Lemma record_links_known (src : string) (outs : list string)
  (g : dict (list string)) (f : string -> list string) :
  (forall t, In t outs -> In t ks) ->
  record_links src outs (g, tabulate ks f)
  = (g, tabulate ks (fun k => f k ++ repeat src (count_occ string_dec outs k))).
Proof.
  revert f. unfold record_links.
  induction outs as [|dst outs IH]; intros f Hin; cbn [fold_left].
  - f_equal. apply tabulate_ext. intros k _. now rewrite app_nil_r.
  - rewrite record_link_known by (apply Hin; now left).
    rewrite IH by (intros t Ht; apply Hin; now right).
    f_equal. apply tabulate_ext. intros k _.
    destruct (string_dec dst k) as [->|Hne].
    + rewrite String.eqb_refl, count_occ_cons_eq by reflexivity.
      now rewrite <- app_assoc.
    + rewrite count_occ_cons_neq by assumption.
      destruct (String.eqb k dst) eqn:E; [|reflexivity].
      apply String.eqb_eq in E. congruence.
Qed.

Lemma scan_items_known (its : list (string * list string))
  (g : dict (list string)) (f : string -> list string) :
  (forall src outs t, In (src, outs) its -> In t outs -> In t ks) ->
  scan_items (List.length g) its g (tabulate ks f)
  = (g, Ok (tabulate ks (fun k =>
              f k ++ flat_map (fun item =>
                                 repeat (fst item)
                                        (count_occ string_dec (snd item) k))
                              its))).
Proof.
  revert f. induction its as [|[src outs] its IH]; intros f Hin;
    cbn [scan_items]; rewrite Nat.eqb_refl.
  - do 2 f_equal. apply tabulate_ext. intros k _. now rewrite app_nil_r.
  - rewrite record_links_known
      by (intros t Ht; apply (Hin src outs); [now left | assumption]).
    rewrite IH by (intros s o t Hso; apply (Hin s o); now right).
    do 2 f_equal. apply tabulate_ext. intros k _. now rewrite <- app_assoc.
Qed.

End IncomingLinks.

(** On a closed graph [build_incoming_links] leaves the graph as it is and
    returns the reverse index [in_links]. *)
Lemma build_incoming_links_closed (graph : dict (list string)) :
  wf_dict graph -> closed graph ->
  build_incoming_links graph
  = (graph, Ok (tabulate (keys graph) (in_links graph), keys graph)).
Proof.
  intros Hwf Hcl. unfold build_incoming_links.
  rewrite scan_items_known.
  - reflexivity.
  - now apply distinctb_NoDup.
  - intros src outs t. now apply closed_targets.
Qed.

(** ** Topic-specific PageRank: one pass in closed form *)

Lemma keys_filter_tabulate {V : Type} (ks : list string) (h : string -> V)
  (test : V -> bool) :
  keys (filter (fun nd => test (snd nd)) (tabulate ks h))
  = filter (fun n => test (h n)) ks.
Proof.
  induction ks as [|k ks IH]; simpl; [reflexivity|].
  destruct (test (h k)); simpl; now rewrite IH.
Qed.

Section TopicSolver.

Context {F : Type} {AF : Arith F}.

Variable graph : dict (list string).
Variable tv : dict F.
Variable d tol : F.

Hypothesis graph_wf : wf_dict graph.
Hypothesis graph_closed : closed graph.

Let ks : list string := keys graph.
Let ks_NoDup : NoDup ks := keys_NoDup graph_wf.

Lemma dangling_mass_tabulate (r : string -> F) :
  dangling_mass (tabulate ks r) (out_degrees graph ks)
  = Ok (dangling_of graph r).
Proof.
  unfold dangling_mass, out_degrees, dangling_of.
  rewrite (keys_filter_tabulate ks (fun n => List.length (get_default n [] graph))
             (fun deg => Nat.eqb deg 0)).
  rewrite (mapM_ok _ r); [reflexivity|].
  intros n Hn. apply filter_In in Hn. unfold getitem.
  now rewrite get_tabulate.
Qed.

Lemma teleport_base_tabulate :
  teleport_base tv d ks = tabulate ks (fun p => fmul (fsub fone d) (teleport tv p)).
Proof.
  unfold teleport_base.
  apply (fold_set_fresh (fun p => fmul (fsub fone d) (teleport tv p)) ks []).
  exact ks_NoDup.
Qed.

Lemma rank_sum_tabulate (r : string -> F) (sources : list string) :
  (forall q, In q sources -> In q ks /\ 0 < out_degree graph q) ->
  rank_sum (tabulate ks r) (out_degrees graph ks) sources
  = Ok (fsum (map (fun q => fdivide (r q) (of_nat (out_degree graph q))) sources)).
Proof.
  intro Hsrc. unfold rank_sum, fsum. rewrite <- fold_left_add_map.
  refine (proj1 (foldM_ok _
            (fun acc q => fadd acc (fdivide (r q) (of_nat (out_degree graph q))))
            (fun _ => True) _ _ _ I)).
  intros q acc Hq _. split; [|exact I].
  destruct (Hsrc q Hq) as [Hk Hpos].
  unfold out_degrees, get_default. rewrite get_tabulate by assumption.
  fold (get_default q [] graph). fold (out_links graph q).
  fold (out_degree graph q).
  apply Nat.ltb_lt in Hpos. rewrite Hpos.
  unfold getitem. rewrite get_tabulate by assumption. simpl.
  apply Nat.ltb_lt in Hpos. now rewrite pdiv_int_pos.
Qed.

Lemma add_contributions_tabulate (r : string -> F) (dsum : F)
  (ps : list string) (f : string -> F) :
  NoDup ps -> incl ps ks ->
  add_contributions tv d (tabulate ks r) (out_degrees graph ks)
    (tabulate ks (in_links graph)) dsum ps (tabulate ks f)
  = Ok (tabulate ks (fun k =>
          if in_dec string_dec k ps
          then fadd (f k) (fmul d (fadd (link_sum graph r k)
                                        (fmul dsum (teleport tv k))))
          else f k)).
Proof.
  unfold add_contributions. revert f.
  induction ps as [|p ps IH]; intros f Hnd Hincl; cbn [foldM].
  - reflexivity.
  - assert (In p ks) as Hp by (apply Hincl; now left).
    unfold get_default at 1. rewrite get_tabulate by assumption.
    rewrite rank_sum_tabulate
      by (intros q Hq; eapply in_links_source; [exact ks_NoDup | eassumption]).
    fold (link_sum graph r p). cbn [bind].
    unfold getitem. rewrite get_tabulate by assumption. cbn [bind].
    rewrite set_tabulate by assumption.
    inversion Hnd as [|? ? Hnot Hnd']; subst.
    rewrite IH by (auto; intros x Hx; apply Hincl; now right).
    f_equal. apply tabulate_ext. intros k _.
    destruct (String.eqb k p) eqn:E.
    + apply String.eqb_eq in E. subst k.
      destruct (in_dec string_dec p ps) as [Hin|_]; [contradiction|].
      destruct (in_dec string_dec p (p :: ps)) as [_|Hout]; [reflexivity|].
      exfalso. apply Hout. now left.
    + assert (k <> p) as Hne by (intro; subst; rewrite String.eqb_refl in E; discriminate).
      destruct (in_dec string_dec k ps) as [Hin|Hout];
        destruct (in_dec string_dec k (p :: ps)) as [Hin'|Hout'];
        try reflexivity.
      * exfalso. apply Hout'. now right.
      * exfalso. destruct Hin' as [Heq|Hin']; [congruence | contradiction].
Qed.

(** One pass of [topic_pagerank] on a closed graph. *)
Lemma topic_iteration_tabulate (r : string -> F) :
  topic_iteration tv d graph ks (out_degrees graph ks) (tabulate ks r)
  = (graph,
     Ok (tabulate ks (topic_update tv d graph r),
         l1_distance ks (topic_update tv d graph r) r)).
Proof.
  unfold topic_iteration. rewrite dangling_mass_tabulate.
  rewrite build_incoming_links_closed by assumption. fold ks.
  rewrite teleport_base_tabulate.
  rewrite add_contributions_tabulate
    by (auto using incl_refl).
  cbn [bind].
  rewrite (tabulate_ext ks _ (topic_update tv d graph r)).
  - unfold ks. rewrite total_difference_tabulate by apply incl_refl.
    reflexivity.
  - intros k Hk. destruct (in_dec string_dec k ks); [reflexivity | contradiction].
Qed.

Lemma topic_loop_iter (remaining done : nat) (r : string -> F) :
  exists n,
    n <= remaining /\
    topic_loop tv d tol remaining done graph ks (out_degrees graph ks)
               (tabulate ks r)
    = (graph, Ok (tabulate ks (Nat.iter n (topic_update tv d graph) r), done + n)) /\
    ((forall k, k < remaining ->
        fltb (l1_distance ks (Nat.iter (S k) (topic_update tv d graph) r)
                          (Nat.iter k (topic_update tv d graph) r)) tol = false) ->
     n = remaining).
Proof.
  revert done r. induction remaining as [|remaining IH]; intros done r.
  - exists 0. simpl. rewrite Nat.add_0_r. repeat split; auto.
  - cbn [topic_loop]. rewrite topic_iteration_tabulate.
    destruct (fltb (l1_distance ks (topic_update tv d graph r) r) tol) eqn:E.
    + exists 1. simpl. rewrite Nat.add_1_r. repeat split; [lia|].
      intro H. specialize (H 0 (Nat.lt_0_succ _)). simpl in H. congruence.
    + destruct (IH (S done) (topic_update tv d graph r)) as [n [Hn [Hrun Hall]]].
      exists (S n). rewrite iter_succ_inner. repeat split; [lia| |].
      * rewrite Hrun. do 3 f_equal. lia.
      * intro H. f_equal. apply Hall. intros k Hk.
        specialize (H (S k) (proj1 (Nat.succ_lt_mono _ _) Hk)).
        now rewrite <- !iter_succ_inner.
Qed.

End TopicSolver.

(** ** Whole runs on a closed graph *)

Section Runs.

Context {F : Type} {AF : Arith F}.

Variable graph : dict (list string).
Variable tv : dict F.
Variable d tol : F.

Hypothesis graph_wf : wf_dict graph.
Hypothesis graph_closed : closed graph.

Let ks : list string := keys graph.

Lemma page_rank_run_iter (max_iterations : nat) :
  exists n,
    n <= max_iterations /\
    page_rank_run graph d tol max_iterations
    = Ok (tabulate ks (Nat.iter n (classic_update d graph) (uniform_rank graph)), n) /\
    ((forall k, k < max_iterations ->
        fltb (l1_distance ks
                (Nat.iter (S k) (classic_update d graph) (uniform_rank graph))
                (Nat.iter k (classic_update d graph) (uniform_rank graph)))
             tol = false) ->
     n = max_iterations).
Proof.
  unfold page_rank_run. rewrite initial_ranks_ok. cbn [bind].
  apply (page_rank_loop_iter d tol graph_wf graph_closed max_iterations 0).
Qed.

Lemma normalize_tabulate (nodes : list string) (r : string -> F) :
  positive_nonzero (F := F) ->
  normalize (tabulate nodes r) = Ok (tabulate nodes (normalized nodes r)).
Proof.
  intro Hlaw. unfold normalize, normalized.
  rewrite values_tabulate, keys_tabulate.
  destruct (fltb fzero (fsum (map r nodes))) eqn:E.
  - apply mapM_ok. intros n Hn. unfold getitem.
    rewrite get_tabulate by assumption. cbn [bind]. unfold pdiv.
    now rewrite (Hlaw _ E).
  - reflexivity.
Qed.

Lemma topic_pagerank_run_iter (pages : dict (dict string)) (max_iter : nat) :
  positive_nonzero (F := F) ->
  exists n,
    n <= max_iter /\
    topic_pagerank_run tv d tol graph pages max_iter
    = (graph,
       Ok (tabulate ks
             (normalized ks (Nat.iter n (topic_update tv d graph) (uniform_rank graph))),
           n)) /\
    ((forall k, k < max_iter ->
        fltb (l1_distance ks
                (Nat.iter (S k) (topic_update tv d graph) (uniform_rank graph))
                (Nat.iter k (topic_update tv d graph) (uniform_rank graph)))
             tol = false) ->
     n = max_iter).
Proof.
  intro Hlaw. unfold topic_pagerank_run.
  rewrite (mapM_ok _ (fun n => (n, uniform_rank graph n))).
  - fold (tabulate (keys graph) (uniform_rank graph)).
    destruct (topic_loop_iter tv d tol graph_wf graph_closed max_iter 0
                (uniform_rank graph)) as [n [Hn [Hrun Hall]]].
    exists n. unfold ks. rewrite Hrun.
    rewrite normalize_tabulate by assumption. cbn [bind]. auto.
  - intros n Hn. unfold keys. rewrite length_map.
    rewrite pdiv_int_pos; [reflexivity|].
    unfold keys in Hn. apply in_map_iff in Hn. destruct Hn as [x [_ Hx]].
    eapply in_length_pos; eassumption.
Qed.

End Runs.

Lemma Qc_positive_nonzero : positive_nonzero (AF := Arith_Qc).
Proof.
  intros s Hs. simpl in *.
  destruct (s ?= 0)%Qc eqn:E; try reflexivity.
  apply Qceq_alt in E. subst s. discriminate Hs.
Qed.

(** * The claims *)

(** ** C1: the recurrence of one pass *)

(** C1.  On a graph whose keys are distinct and whose link targets are all
    keys, one pass of the loop of [topic_pagerank], started from any rank
    vector over the nodes, cannot raise, leaves the graph as it is and
    stores for every node [p]
    [(1 - damping) * teleport(p)
       + damping * (sum over the links q -> p of rank(q) / outDegree(q)
                    + danglingMass * teleport(p))],
    where [danglingMass] is the sum of the ranks of the nodes of out-degree
    0: the dangling mass is weighted by the teleportation vector itself.
    The damping factor is arbitrary. *)
Theorem topic_iteration_recurrence {F : Type} {AF : Arith F}
  (graph : dict (list string)) (tv : dict F) (d : F) (ranks : dict F) :
  wf_dict graph -> closed graph -> keys ranks = keys graph ->
  exists new_ranks diff,
    topic_iteration tv d graph (keys graph) (out_degrees graph (keys graph)) ranks
    = (graph, Ok (new_ranks, diff)) /\
    keys new_ranks = keys graph /\
    forall p, In p (keys graph) ->
      get p new_ranks
      = Some (fadd (fmul (fsub fone d) (teleport tv p))
                (fmul d
                   (fadd (link_sum graph (rank_of ranks) p)
                      (fmul (dangling_of graph (rank_of ranks)) (teleport tv p))))).
Proof.
  intros Hwf Hcl Hkeys.
  assert (ranks = tabulate (keys graph) (rank_of ranks)) as Hr.
  { rewrite <- Hkeys. apply tabulate_keys. rewrite Hkeys. now apply keys_NoDup. }
  set (r := rank_of ranks) in *. clearbody r. subst ranks.
  rewrite topic_iteration_tabulate by assumption.
  eexists. eexists. split; [reflexivity|]. split; [apply keys_tabulate|].
  intros p Hp. now rewrite get_tabulate.
Qed.

Lemma topic_iteration_recurrence_witness :
  wf_dict example_graph /\ closed example_graph /\
  keys example_teleport = keys example_graph /\
  exists new_ranks diff,
    topic_iteration (AF := Arith_Qc) example_teleport (q 85 100) example_graph
      (keys example_graph) (out_degrees example_graph (keys example_graph))
      example_teleport
    = (example_graph, Ok (new_ranks, diff)) /\
    keys new_ranks = keys example_graph /\
    forall p, In p (keys example_graph) ->
      get p new_ranks
      = Some (fadd (fmul (fsub fone (q 85 100)) (teleport example_teleport p))
                (fmul (q 85 100)
                   (fadd (link_sum example_graph (rank_of example_teleport) p)
                      (fmul (dangling_of example_graph (rank_of example_teleport))
                            (teleport example_teleport p))))).
Proof.
  split; [reflexivity|]. split; [reflexivity|]. split; [reflexivity|].
  apply (@topic_iteration_recurrence Qc Arith_Qc example_graph
           example_teleport (q 85 100) example_teleport); reflexivity.
Defined.

(** ** C6: the empty graph *)

Lemma page_rank_loop_empty {F : Type} {AF : Arith F} (d tol : F)
  (remaining done : nat) :
  exists n, page_rank_loop [] d tol remaining done [] = Ok ([], n).
Proof.
  revert done. induction remaining as [|remaining IH]; intro done; simpl.
  - now exists done.
  - destruct (fltb (fsum []) tol); [now exists (S done) | apply IH].
Qed.

Lemma topic_loop_empty {F : Type} {AF : Arith F} (tv : dict F) (d tol : F)
  (remaining done : nat) :
  exists n,
    topic_loop tv d tol remaining done [] [] (out_degrees [] []) []
    = ([], Ok ([], n)).
Proof.
  revert done. induction remaining as [|remaining IH]; intro done; simpl.
  - now exists done.
  - destruct (fltb (fsum []) tol); [now exists (S done) | apply IH].
Qed.

Lemma page_rank_empty {F : Type} {AF : Arith F} (d tol : F) (max_iter : nat) :
  page_rank [] d tol max_iter = Ok [].
Proof.
  unfold page_rank, page_rank_run. simpl.
  destruct (page_rank_loop_empty d tol max_iter 0) as [n ->]. reflexivity.
Qed.

Lemma topic_pagerank_empty {F : Type} {AF : Arith F} (tv : dict F) (d tol : F)
  (pages : dict (dict string)) (max_iter : nat) :
  topic_pagerank tv d tol [] pages max_iter = ([], Ok []).
Proof.
  unfold topic_pagerank, topic_pagerank_run. simpl.
  destruct (topic_loop_empty tv d tol max_iter 0) as [n E].
  simpl in E. rewrite E. unfold normalize. simpl.
  destruct (fltb fzero (fsum [])); reflexivity.
Qed.

(** C6, as the code has it.  Neither program defines or raises an
    [EmptyGraphError]: on the empty graph [page_rank] and [topic_pagerank]
    return the empty mapping, and on an empty set of pages
    [build_topic_vector] returns the empty vector, for all other
    arguments.  No division is ever evaluated, because each one sits
    inside a loop over the (empty) set of nodes. *)
Theorem empty_graph_returns_empty {F : Type} {AF : Arith F}
  (lower : string -> string) (tv : dict F) (d tol : F)
  (pages : dict (dict string)) (keywords : list string) (max_iter : nat) :
  page_rank [] d tol max_iter = Ok [] /\
  topic_pagerank tv d tol [] pages max_iter = ([], Ok []) /\
  build_topic_vector lower [] keywords = Ok [].
Proof.
  repeat split.
  - apply page_rank_empty.
  - apply topic_pagerank_empty.
  - unfold build_topic_vector. simpl. destruct (feqb fzero fzero); reflexivity.
Qed.

(** The empty graph is not an error: none of the three calls raises. *)
Lemma empty_graph_no_exception :
  ~ (exists e, page_rank (AF := Arith_Qc) [] (q 85 100) (q 1 1000000) 100 = Raise e) /\
  ~ (exists e, snd (topic_pagerank (AF := Arith_Qc) [] (q 85 100) (q 1 1000000)
                      [] [] 100) = Raise e) /\
  ~ (exists e, build_topic_vector (AF := Arith_Qc) lower_ascii [] ["pagerank"]
               = Raise e).
Proof.
  repeat split; intros [e H]; vm_compute in H; discriminate H.
Qed.

(** ** C4: what a call does to the caller's graph *)

Lemma extends_refl (g : dict (list string)) : extends g g.
Proof. exists []. simpl. now rewrite app_nil_r. Qed.

Lemma extends_trans (g1 g2 g3 : dict (list string)) :
  extends g1 g2 -> extends g2 g3 -> extends g1 g3.
Proof.
  intros [a ->] [b ->]. exists (a ++ b).
  now rewrite tabulate_app, app_assoc.
Qed.

Lemma record_link_extends (src dst : string) (g inc : dict (list string)) :
  extends g (fst (record_link src (g, inc) dst)).
Proof.
  unfold record_link. destruct (get dst inc); simpl; [apply extends_refl|].
  unfold setdefault. destruct (contains_key dst g) eqn:E; [apply extends_refl|].
  exists [dst]. apply set_absent. intro Hin.
  apply contains_key_in in Hin. congruence.
Qed.

Lemma record_links_extends (src : string) (outs : list string)
  (st : dict (list string) * dict (list string)) :
  extends (fst st) (fst (record_links src outs st)).
Proof.
  unfold record_links. revert st.
  induction outs as [|dst outs IH]; intro st; simpl; [apply extends_refl|].
  eapply extends_trans; [|apply IH]. destruct st as [g inc].
  apply record_link_extends.
Qed.

Lemma scan_items_extends (used : nat) (its : list (string * list string))
  (g inc : dict (list string)) :
  extends g (fst (scan_items used its g inc)).
Proof.
  revert g inc. induction its as [|[src outs] its IH]; intros g inc;
    cbn [scan_items]; destruct (Nat.eqb (List.length g) used);
    try apply extends_refl.
  pose proof (record_links_extends src outs (g, inc)) as H.
  destruct (record_links src outs (g, inc)) as [g' inc']. simpl in H.
  eapply extends_trans; [exact H | apply IH].
Qed.

Lemma build_incoming_links_extends (graph : dict (list string)) :
  extends graph (fst (build_incoming_links graph)).
Proof.
  unfold build_incoming_links.
  pose proof (scan_items_extends (List.length graph) graph graph
                (tabulate (keys graph) (fun _ => []))) as H.
  destruct (scan_items _ _ _ _) as [g' [inc|e]]; exact H.
Qed.

Section GraphFrame.

Context {F : Type} {AF : Arith F}.

Variable tv : dict F.
Variable d tol : F.

Lemma topic_iteration_extends (graph : dict (list string)) (nodes : list string)
  (out_degree : dict nat) (ranks : dict F) :
  extends graph (fst (topic_iteration tv d graph nodes out_degree ranks)).
Proof.
  unfold topic_iteration.
  destruct (dangling_mass ranks out_degree); [|apply extends_refl].
  pose proof (build_incoming_links_extends graph) as H.
  destruct (build_incoming_links graph) as [g' [[inc ns]|e]]; exact H.
Qed.

Lemma topic_loop_extends (remaining done : nat) (graph : dict (list string))
  (nodes : list string) (out_degree : dict nat) (ranks : dict F) :
  extends graph
    (fst (topic_loop tv d tol remaining done graph nodes out_degree ranks)).
Proof.
  revert done graph ranks.
  induction remaining as [|remaining IH]; intros done graph ranks;
    cbn [topic_loop]; [apply extends_refl|].
  pose proof (topic_iteration_extends graph nodes out_degree ranks) as H.
  destruct (topic_iteration tv d graph nodes out_degree ranks)
    as [g' [[new_ranks diff]|e]]; simpl in H; [|exact H].
  destruct (fltb diff tol); [exact H|].
  eapply extends_trans; [exact H | apply IH].
Qed.

Lemma topic_pagerank_extends (graph : dict (list string))
  (pages : dict (dict string)) (max_iter : nat) :
  extends graph (fst (topic_pagerank tv d tol graph pages max_iter)).
Proof.
  unfold topic_pagerank, topic_pagerank_run.
  destruct (mapM _ (keys graph)) as [ranks|e]; [|apply extends_refl].
  pose proof (topic_loop_extends max_iter 0 graph (keys graph)
                (out_degrees graph (keys graph)) ranks) as H.
  destruct (topic_loop _ _ _ _ _ _ _ _ _) as [g' [[ranks' n]|e]]; exact H.
Qed.

Lemma topic_initial_ranks (graph : dict (list string)) :
  mapM (fun n => r <- pdiv_int (F := F) fone (List.length (keys graph)) ;; Ok (n, r))
       (keys graph)
  = Ok (tabulate (keys graph) (uniform_rank graph)).
Proof.
  apply mapM_ok. intros n Hn. unfold keys. rewrite length_map.
  rewrite pdiv_int_pos; [reflexivity|].
  unfold keys in Hn. apply in_map_iff in Hn. destruct Hn as [x [_ Hx]].
  eapply in_length_pos; eassumption.
Qed.

End GraphFrame.

(** C4, as the code has it.  A call of [topic_pagerank] never removes a
    key and never changes an existing outbound list: the graph it leaves is
    the graph it was given, followed by keys it added with empty outbound
    lists.  When the keys are distinct and every link target is a key, it
    adds nothing: the graph is the same before and after the call, and the
    same holds for [build_incoming_links]. *)
Theorem closed_graph_unchanged {F : Type} {AF : Arith F}
  (graph : dict (list string)) (tv : dict F) (d tol : F)
  (pages : dict (dict string)) (max_iter : nat) :
  extends graph (fst (topic_pagerank tv d tol graph pages max_iter)) /\
  (wf_dict graph -> closed graph ->
   fst (build_incoming_links graph) = graph /\
   fst (topic_pagerank tv d tol graph pages max_iter) = graph).
Proof.
  split; [apply topic_pagerank_extends|].
  intros Hwf Hcl. split.
  - now rewrite build_incoming_links_closed.
  - unfold topic_pagerank, topic_pagerank_run. rewrite topic_initial_ranks.
    destruct (topic_loop_iter tv d tol Hwf Hcl max_iter 0 (uniform_rank graph))
      as [n [_ [Hrun _]]].
    rewrite Hrun. reflexivity.
Qed.

Lemma closed_graph_unchanged_witness :
  wf_dict example_graph /\ closed example_graph /\
  fst (build_incoming_links example_graph) = example_graph /\
  fst (topic_pagerank example_teleport (q 85 100) (q 1 1000000)
         example_graph [] 100) = example_graph.
Proof.
  split; [reflexivity|]. split; [reflexivity|].
  apply (proj2 (@closed_graph_unchanged Qc Arith_Qc example_graph
                  example_teleport (q 85 100) (q 1 1000000) [] 100));
    reflexivity.
Defined.

(** The call [topic_pagerank({'A': ['B']}, ...)] leaves the caller's graph
    with a second key. *)
Lemma open_graph_mutated :
  fst (topic_pagerank [("A", q 1 1)] (q 85 100) (q 1 1000000) open_graph [] 100)
  <> open_graph.
Proof. intro H. vm_compute in H. discriminate H. Qed.

(** ** Graphs with a link target that is not a key *)

Lemma forallb_first_false {A : Type} (p : A -> bool) (l : list A) :
  forallb p l = false ->
  exists pre x post, l = pre ++ x :: post /\ forallb p pre = true /\ p x = false.
Proof.
  induction l as [|a l IH]; simpl; [discriminate|].
  destruct (p a) eqn:E; simpl; intro H.
  - destruct (IH H) as [pre [x [post [-> [Hpre Hx]]]]].
    exists (a :: pre), x, post. simpl. now rewrite E, Hpre.
  - now exists [], a, l.
Qed.

Lemma first_open_item (graph : dict (list string)) :
  closedb graph = false ->
  exists before page pre t post after,
    graph = before ++ (page, pre ++ t :: post) :: after /\
    (forall item t', In item before -> In t' (snd item) -> In t' (keys graph)) /\
    (forall t', In t' pre -> In t' (keys graph)) /\
    ~ In t (keys graph).
Proof.
  unfold closedb. intro H.
  destruct (forallb_first_false _ _ H) as [before [[page links] [after [Hg [Hb Hitem]]]]].
  simpl in Hitem.
  destruct (forallb_first_false _ _ Hitem) as [pre [t [post [-> [Hpre Ht]]]]].
  exists before, page, pre, t, post, after. split; [exact Hg|]. repeat split.
  - intros item t' Hin Ht'. rewrite forallb_forall in Hb.
    specialize (Hb item Hin). rewrite forallb_forall in Hb.
    apply contains_key_in. now apply Hb.
  - intros t' Ht'. rewrite forallb_forall in Hpre.
    apply contains_key_in. now apply Hpre.
  - intro Hin. apply contains_key_in in Hin. congruence.
Qed.

Lemma foldM_app {A S : Type} (body : A -> S -> result S) (xs ys : list A) (acc : S) :
  foldM body (xs ++ ys) acc = (acc' <- foldM body xs acc ;; foldM body ys acc').
Proof.
  revert acc. induction xs as [|x xs IH]; intro acc; simpl; [reflexivity|].
  destruct (body x acc); simpl; [apply IH | reflexivity].
Qed.

Lemma extends_length (g g' : dict (list string)) :
  extends g g' -> List.length g <= List.length g'.
Proof. intros [added ->]. rewrite length_app. lia. Qed.

Section OpenGraph.

Context {F : Type} {AF : Arith F}.

Variable graph : dict (list string).
Variable d tol : F.

Hypothesis graph_wf : wf_dict graph.
Hypothesis graph_open : closedb graph = false.

Let ks : list string := keys graph.
Let ks_NoDup : NoDup ks := keys_NoDup graph_wf.

(** Step 2 of [page_rank] stops with [KeyError] at the first link whose
    target is not a key. *)
Lemma page_rank_iteration_open (r : string -> F) :
  exists t,
    ~ In t (keys graph) /\
    (exists page links, In (page, links) graph /\ In t links) /\
    page_rank_iteration graph d (tabulate ks r) = Raise (KeyError t).
Proof.
  destruct (first_open_item graph graph_open)
    as [before [page [pre [t [post [after [Hg [Hb [Hpre Ht]]]]]]]]].
  assert (In (page, pre ++ t :: post) graph) as Hitem
    by (rewrite Hg; apply in_or_app; right; now left).
  exists t. split; [exact Ht|]. split.
  { exists page, (pre ++ t :: post). split; [exact Hitem|].
    apply in_or_app. right. now left. }
  unfold page_rank_iteration. rewrite base_ranks_ok by exact ks_NoDup.
  cbn [bind]. fold ks.
  assert (foldM (distribute graph d (tabulate ks r)) graph
                (tabulate ks (fun _ => fdivide (fsub fone d) (of_nat (List.length graph))))
          = Raise (KeyError t)) as Hfold.
  { rewrite Hg at 2. rewrite foldM_app.
    rewrite distribute_all; try assumption.
    - cbn [bind foldM]. unfold distribute at 1, getitem.
      rewrite get_tabulate by (eapply item_key; exact Hitem).
      destruct (pre ++ t :: post) as [|l links] eqn:El.
      + destruct pre; discriminate El.
      + cbn [bind]. rewrite pdiv_int_pos by (simpl; lia). cbn [bind].
        rewrite <- El. unfold ks. rewrite add_to_missing; auto.
    - intros x Hx. rewrite Hg. apply in_or_app. now left. }
  now rewrite Hfold.
Qed.

Lemma page_rank_open (more : nat) :
  exists t,
    ~ In t (keys graph) /\
    (exists page links, In (page, links) graph /\ In t links) /\
    page_rank graph d tol (S more) = Raise (KeyError t).
Proof.
  destruct (page_rank_iteration_open (uniform_rank graph)) as [t [Ht [Hlink Hrun]]].
  exists t. split; [exact Ht|]. split; [exact Hlink|].
  unfold page_rank, page_rank_run. rewrite initial_ranks_ok.
  cbn [bind page_rank_loop]. fold ks. now rewrite Hrun.
Qed.

Lemma scan_items_prefix (before rest : list (string * list string))
  (f : string -> list string) :
  (forall item t, In item before -> In t (snd item) -> In t ks) ->
  exists f',
    scan_items (List.length graph) (before ++ rest) graph (tabulate ks f)
    = scan_items (List.length graph) rest graph (tabulate ks f').
Proof.
  revert f. induction before as [|[src outs] before IH]; intros f Hb.
  - now exists f.
  - cbn [app scan_items]. rewrite Nat.eqb_refl.
    rewrite (record_links_known ks_NoDup)
      by (intros t Ht; apply (Hb (src, outs)); [now left | assumption]).
    apply IH. intros item t Hin. apply Hb. now right.
Qed.

Lemma record_links_open (src : string) (pre post : list string) (t : string)
  (f : string -> list string) :
  (forall t', In t' pre -> In t' ks) -> ~ In t ks ->
  extends graph (fst (record_links src (pre ++ t :: post) (graph, tabulate ks f))) /\
  List.length graph
  < List.length (fst (record_links src (pre ++ t :: post) (graph, tabulate ks f))).
Proof.
  intros Hpre Ht. split; [apply (record_links_extends src _ (graph, tabulate ks f))|].
  unfold record_links. rewrite fold_left_app.
  fold (record_links src pre (graph, tabulate ks f)).
  rewrite (record_links_known ks_NoDup) by assumption.
  cbn [fold_left]. unfold record_link at 2.
  rewrite get_none by (now rewrite keys_tabulate).
  unfold setdefault.
  destruct (contains_key t graph) eqn:E;
    [apply contains_key_in in E; contradiction|].
  rewrite set_absent by assumption.
  match goal with
  | |- _ < List.length (fst (fold_left _ post ?st)) =>
      pose proof (extends_length (record_links_extends src post st)) as Hlen
  end.
  cbn [fst] in Hlen. rewrite length_app in Hlen. cbn [List.length] in Hlen.
  unfold record_links in Hlen. lia.
Qed.

(** [build_incoming_links] adds the missing target to the graph, and the
    next advance of the iteration over [graph.items()] raises. *)
Lemma build_incoming_links_open :
  exists graph',
    build_incoming_links graph = (graph', Raise size_changed) /\
    extends graph graph' /\ List.length graph < List.length graph'.
Proof.
  destruct (first_open_item graph graph_open)
    as [before [page [pre [t [post [after [Hg [Hb [Hpre Ht]]]]]]]]].
  unfold build_incoming_links. fold ks.
  destruct (scan_items_prefix before ((page, pre ++ t :: post) :: after)
              (fun _ => []) Hb) as [f' Hscan].
  rewrite <- Hg in Hscan. rewrite Hscan.
  cbn [scan_items]. rewrite Nat.eqb_refl.
  destruct (@record_links_open page pre post t f' Hpre Ht) as [Hext Hlen].
  destruct (record_links page (pre ++ t :: post) (graph, tabulate ks f'))
    as [graph' incoming'].
  cbn [fst] in Hext, Hlen. exists graph'.
  assert (Nat.eqb (List.length graph') (List.length graph) = false) as Hneq
    by (apply Nat.eqb_neq; lia).
  split; [|split; assumption].
  destruct after as [|[s o] after]; cbn [scan_items]; now rewrite Hneq.
Qed.

Lemma topic_pagerank_open (tv : dict F) (pages : dict (dict string)) (more : nat) :
  exists graph',
    topic_pagerank tv d tol graph pages (S more) = (graph', Raise size_changed) /\
    extends graph graph' /\ List.length graph < List.length graph'.
Proof.
  destruct build_incoming_links_open as [graph' [Hbil [Hext Hlen]]].
  exists graph'. split; [|split; assumption].
  unfold topic_pagerank, topic_pagerank_run. rewrite topic_initial_ranks.
  cbn [topic_loop]. unfold topic_iteration.
  rewrite dangling_mass_tabulate, Hbil. reflexivity.
Qed.

End OpenGraph.

(** ** C5: a link to a page that is not a key *)

(** C5, what the code does instead.  Let the keys of the graph be distinct
    and let some outbound list contain a target that is not a key.  With
    at least one pass,
    - [page_rank] raises [KeyError] for such a target [t];
    - [topic_pagerank] adds keys to the caller's graph (inside
      [build_incoming_links]) and then raises [RuntimeError], the dict
      having grown while it was iterated.
    Neither returns a rank mapping, so the undeclared target is never
    ranked. *)
Theorem undeclared_target_raises {F : Type} {AF : Arith F}
  (graph : dict (list string)) (tv : dict F) (d tol : F)
  (pages : dict (dict string)) (more : nat) :
  wf_dict graph -> ~ closed graph ->
  (exists t,
      ~ In t (keys graph) /\
      (exists page links, In (page, links) graph /\ In t links) /\
      page_rank graph d tol (S more) = Raise (KeyError t)) /\
  (exists graph',
      topic_pagerank tv d tol graph pages (S more) = (graph', Raise size_changed) /\
      extends graph graph' /\
      List.length graph < List.length graph').
Proof.
  intros Hwf Hopen.
  assert (closedb graph = false) as Hb
    by (unfold closed in Hopen; destruct (closedb graph); congruence).
  split.
  - now apply page_rank_open.
  - now apply topic_pagerank_open.
Qed.

Lemma undeclared_target_raises_witness :
  wf_dict open_graph /\ ~ closed open_graph /\
  (exists t,
      ~ In t (keys open_graph) /\
      (exists page links, In (page, links) open_graph /\ In t links) /\
      page_rank open_graph (q 85 100) (q 1 1000000) 100 = Raise (KeyError t)) /\
  (exists graph',
      topic_pagerank [("A", q 1 1)] (q 85 100) (q 1 1000000) open_graph [] 100
      = (graph', Raise size_changed) /\
      extends open_graph graph' /\
      List.length open_graph < List.length graph').
Proof.
  split; [reflexivity|]. split; [discriminate|].
  apply (@undeclared_target_raises Qc Arith_Qc open_graph [("A", q 1 1)]
           (q 85 100) (q 1 1000000) [] 99 eq_refl).
  discriminate.
Defined.

(** The same at the input [{'A': ['B']}], in any arithmetic: the missing
    key is [B], and the graph is left as [{'A': ['B'], 'B': []}]. *)
Example open_graph_raises {F : Type} {AF : Arith F} (tv : dict F) (d tol : F)
  (pages : dict (dict string)) (more : nat) :
  page_rank open_graph d tol (S more) = Raise (KeyError "B") /\
  topic_pagerank tv d tol open_graph pages (S more)
  = ([("A", ["B"]); ("B", [])], Raise size_changed).
Proof. split; reflexivity. Qed.

(** ** C8: termination within the iteration budget *)

(** C8.  On a graph with distinct keys whose link targets are all keys,
    for every damping factor, tolerance, teleportation vector and budget,
    both solvers return normally after some number [n] of passes with
    [n <= max_iterations]; what they return is the rank vector of pass [n]
    ([topic_pagerank] after its final division).  When the L1 distance of
    no pass is below the tolerance, [n] is [max_iterations]: the loop stops
    at the budget and the last vector computed is returned, without any
    exception. *)
Theorem solvers_stop_within_budget {F : Type} {AF : Arith F}
  (graph : dict (list string)) (tv : dict F) (d tol : F)
  (pages : dict (dict string)) (max_iterations : nat) :
  wf_dict graph -> closed graph -> positive_nonzero (F := F) ->
  (exists n,
      n <= max_iterations /\
      page_rank_run graph d tol max_iterations
      = Ok (tabulate (keys graph)
              (Nat.iter n (classic_update d graph) (uniform_rank graph)), n) /\
      ((forall k, k < max_iterations ->
          fltb (l1_distance (keys graph)
                  (Nat.iter (S k) (classic_update d graph) (uniform_rank graph))
                  (Nat.iter k (classic_update d graph) (uniform_rank graph)))
               tol = false) ->
       n = max_iterations)) /\
  (exists n,
      n <= max_iterations /\
      topic_pagerank_run tv d tol graph pages max_iterations
      = (graph,
         Ok (tabulate (keys graph)
               (normalized (keys graph)
                  (Nat.iter n (topic_update tv d graph) (uniform_rank graph))),
             n)) /\
      ((forall k, k < max_iterations ->
          fltb (l1_distance (keys graph)
                  (Nat.iter (S k) (topic_update tv d graph) (uniform_rank graph))
                  (Nat.iter k (topic_update tv d graph) (uniform_rank graph)))
               tol = false) ->
       n = max_iterations)).
Proof.
  intros Hwf Hcl Hlaw. split.
  - now apply page_rank_run_iter.
  - now apply topic_pagerank_run_iter.
Qed.

Lemma solvers_stop_within_budget_witness :
  wf_dict sink_graph /\ closed sink_graph /\ positive_nonzero (F := Qc) /\
  (exists n,
      n <= 2 /\
      page_rank_run sink_graph (q 85 100) 0%Qc 2
      = Ok (tabulate (keys sink_graph)
              (Nat.iter n (classic_update (q 85 100) sink_graph)
                        (uniform_rank sink_graph)), n)).
Proof.
  split; [reflexivity|]. split; [reflexivity|]. split; [exact Qc_positive_nonzero|].
  destruct (@solvers_stop_within_budget Qc Arith_Qc sink_graph
              [("A", q 1 2); ("B", q 1 2)] (q 85 100) 0%Qc [] 2
              eq_refl eq_refl Qc_positive_nonzero)
    as [[n [Hn [Hrun _]]] _].
  exists n. split; assumption.
Defined.

(** ** C10: repeated links *)

Lemma count_occ_in_links (graph : dict (list string)) (p q : string)
  (outs : list string) :
  NoDup (keys graph) -> In (q, outs) graph ->
  count_occ string_dec (in_links graph p) q = count_occ string_dec outs p.
Proof.
  unfold in_links.
  induction graph as [|[a o] graph IH]; simpl; [contradiction|].
  intros Hnd Hitem. inversion Hnd as [|? ? Ha Hnd']; subst.
  rewrite count_occ_app. destruct Hitem as [Heq|Hitem].
  - injection Heq as -> ->. rewrite count_occ_repeat_eq by reflexivity.
    rewrite (proj1 (count_occ_not_In string_dec _ q)); [lia|].
    intro Hin. apply Ha. apply in_flat_map in Hin.
    destruct Hin as [[src o] [Hitem Hq]]. simpl in Hq.
    apply repeat_spec in Hq. subst. change src with (fst (src, o)).
    now apply in_map.
  - rewrite count_occ_repeat_neq.
    + now apply IH.
    + intro Heq. apply Ha. subst. exact (in_map fst _ _ Hitem).
Qed.

(** C10.  Let [q] have the non-empty outbound list [outs] in a graph with
    distinct keys whose link targets are all keys, and let [ranks] hold a
    rank for every key.  In every arithmetic:
    - the out-degree of [q], and the one [topic_pagerank] stores for it,
      is the length of [outs], repetitions included;
    - the index returned by [build_incoming_links] lists [q] among the
      sources of [p] as many times as [p] occurs in [outs]; the inner loop
      of [topic_pagerank] ([rank_sum]) run on the entry of [p] returns the
      sum with one summand [rank(s) / outDegree(s)] per element of the
      entry, so [q] is added once per occurrence of [p] in [outs]; and the
      pass of [topic_pagerank] gives [p] the teleportation part plus
      [damping] times that sum and the dangling part;
    - the body of step 2 of [page_rank] for [q] adds
      [damping * (rank(q) / len(outs))] to the rank of [p] once per
      occurrence of [p] in [outs], and the pass of [page_rank] gives [p]
      the base rank plus the additions of all pages, those of [q] among
      them. *)
Theorem repeated_links_count_separately {F : Type} {AF : Arith F}
  (graph : dict (list string)) (tv : dict F) (d : F) (ranks new_ranks : dict F)
  (q : string) (outs : list string) :
  wf_dict graph -> closed graph ->
  keys ranks = keys graph -> keys new_ranks = keys graph ->
  In (q, outs) graph -> outs <> [] ->
  out_degree graph q = List.length outs /\
  get q (out_degrees graph (keys graph)) = Some (List.length outs) /\
  (exists incoming,
      build_incoming_links graph = (graph, Ok (incoming, keys graph)) /\
      (forall p, In p (keys graph) ->
         count_occ string_dec (get_default p [] incoming) q
         = count_occ string_dec outs p /\
         rank_sum ranks (out_degrees graph (keys graph))
                  (get_default p [] incoming)
         = Ok (fsum (map (fun s => fdivide (rank_of ranks s)
                                           (of_nat (out_degree graph s)))
                         (get_default p [] incoming)))) /\
      exists new diff,
        topic_iteration tv d graph (keys graph)
                        (out_degrees graph (keys graph)) ranks
        = (graph, Ok (new, diff)) /\
        forall p, In p (keys graph) ->
          get p new
          = Some (fadd (fmul (fsub fone d) (teleport tv p))
                       (fmul d
                          (fadd (fsum (map (fun s =>
                                              fdivide (rank_of ranks s)
                                                      (of_nat (out_degree graph s)))
                                           (get_default p [] incoming)))
                                (fmul (dangling_of graph (rank_of ranks))
                                      (teleport tv p)))))) /\
  (exists updated,
      distribute graph d ranks (q, outs) new_ranks = Ok updated /\
      forall p, In p (keys graph) ->
        get p updated
        = Some (fold_left fadd
                  (repeat (fmul d (fdivide (rank_of ranks q)
                                           (of_nat (List.length outs))))
                          (count_occ string_dec outs p))
                  (rank_of new_ranks p))) /\
  (exists new diff,
      page_rank_iteration graph d ranks = Ok (new, diff) /\
      forall p, In p (keys graph) ->
        get p new
        = Some (fold_left fadd
                  (flat_map (fun item => shares d graph (rank_of ranks) item p)
                            graph)
                  (fdivide (fsub fone d) (of_nat (List.length graph)))) /\
        shares d graph (rank_of ranks) (q, outs) p
        = repeat (fmul d (fdivide (rank_of ranks q)
                                  (of_nat (List.length outs))))
                 (count_occ string_dec outs p)).
Proof.
  intros Hwf Hcl Hkr Hkn Hitem Hne.
  pose proof (keys_NoDup Hwf) as Hnd.
  assert (In q (keys graph)) as Hq
    by (change q with (fst (q, outs)); now apply in_map).
  assert (ranks = tabulate (keys graph) (rank_of ranks)) as Hr.
  { rewrite <- Hkr. apply tabulate_keys. now rewrite Hkr. }
  assert (new_ranks = tabulate (keys graph) (rank_of new_ranks)) as Hn.
  { rewrite <- Hkn. apply tabulate_keys. now rewrite Hkn. }
  set (r := rank_of ranks) in *. set (f := rank_of new_ranks) in *.
  clearbody r f. subst ranks new_ranks.
  split; [|split; [|split; [|split]]].
  - unfold out_degree. now rewrite (out_links_item graph q outs).
  - unfold out_degrees. rewrite get_tabulate by assumption.
    fold (out_links graph q). now rewrite (out_links_item graph q outs).
  - exists (tabulate (keys graph) (in_links graph)).
    split; [now apply build_incoming_links_closed|]. split.
    + intros p Hp. unfold get_default. rewrite get_tabulate by assumption.
      split; [now apply count_occ_in_links|].
      apply rank_sum_tabulate. intros s Hs. now apply (in_links_source graph p).
    + rewrite topic_iteration_tabulate by assumption.
      eexists. eexists. split; [reflexivity|].
      intros p Hp. rewrite get_tabulate by assumption.
      unfold get_default. rewrite get_tabulate by assumption. reflexivity.
  - rewrite (distribute_tabulate d Hwf r f (q, outs) Hitem)
      by (intros t Ht; eapply closed_targets; eassumption).
    eexists. split; [reflexivity|].
    intros p Hp. rewrite get_tabulate by assumption.
    unfold shares. simpl. destruct outs; [congruence | reflexivity].
  - rewrite page_rank_iteration_tabulate by assumption.
    eexists. eexists. split; [reflexivity|].
    intros p Hp. rewrite get_tabulate by assumption.
    split; [reflexivity|].
    unfold shares. simpl. destruct outs; [congruence | reflexivity].
Qed.

Lemma repeated_links_count_separately_witness :
  wf_dict double_graph /\ closed double_graph /\
  In ("A", ["B"; "B"]) double_graph /\
  get "A" (out_degrees double_graph (keys double_graph)) = Some 2 /\
  (exists incoming,
      build_incoming_links double_graph
      = (double_graph, Ok (incoming, keys double_graph)) /\
      count_occ string_dec (get_default "B" [] incoming) "A"
      = count_occ string_dec ["B"; "B"] "B" /\
      rank_sum [("A", q 1 2); ("B", q 1 2)]
               (out_degrees double_graph (keys double_graph))
               (get_default "B" [] incoming)
      = Ok (fsum (map (fun s => fdivide (rank_of [("A", q 1 2); ("B", q 1 2)] s)
                                        (of_nat (out_degree double_graph s)))
                      (get_default "B" [] incoming)))) /\
  (exists updated,
      distribute double_graph (q 85 100) [("A", q 1 2); ("B", q 1 2)]
                 ("A", ["B"; "B"]) [("A", q 3 40); ("B", q 3 40)]
      = Ok updated /\
      forall p, In p (keys double_graph) ->
        get p updated
        = Some (fold_left fadd
                  (repeat (fmul (q 85 100)
                             (fdivide (rank_of [("A", q 1 2); ("B", q 1 2)] "A")
                                      (of_nat 2)))
                          (count_occ string_dec ["B"; "B"] p))
                  (rank_of [("A", q 3 40); ("B", q 3 40)] p))).
Proof.
  split; [reflexivity|]. split; [reflexivity|]. split; [now left|].
  destruct (@repeated_links_count_separately Qc Arith_Qc double_graph
              [("A", q 1 2); ("B", q 1 2)] (q 85 100)
              [("A", q 1 2); ("B", q 1 2)] [("A", q 3 40); ("B", q 3 40)]
              "A" ["B"; "B"] eq_refl eq_refl eq_refl eq_refl
              (or_introl eq_refl) ltac:(discriminate))
    as [_ [Hdeg [[incoming [Hbil [Hidx _]]] [Hupd _]]]].
  split; [exact Hdeg|]. split; [|exact Hupd].
  exists incoming. split; [exact Hbil|].
  exact (Hidx "B" (or_intror (or_introl eq_refl))).
Defined.

(** One pass of [topic_pagerank] over [{'A': ['B', 'B'], 'B': ['A']}]
    from the ranks 1/2, 1/2 with damping 1/2 and the uniform vector: [B]
    gets [1/4 + 1/2 * (1/4 + 1/4)], the share of [A] twice. *)
Example repeated_link_added_twice :
  exists new diff,
    snd (topic_iteration [("A", q 1 2); ("B", q 1 2)] (q 1 2) double_graph
           (keys double_graph) (out_degrees double_graph (keys double_graph))
           [("A", q 1 2); ("B", q 1 2)])
    = Ok (new, diff) /\
    fractions new = [("A", 1 # 2); ("B", 1 # 2)]%Q.
Proof. eexists. eexists. split; [vm_compute; reflexivity | reflexivity]. Qed.

(** * Exact arithmetic *)

Ltac qc_ops :=
  cbn [fzero fone fadd fsub fmul fdivide fabs fltb feqb Arith_Qc] in *.

Section ExactArithmetic.

Local Open Scope Qc_scope.

Lemma fold_left_Qcplus (l : list Qc) (a : Qc) :
  fold_left Qcplus l a = a + fold_left Qcplus l 0.
Proof.
  revert a. induction l as [|x l IH]; intro a; simpl.
  - ring.
  - rewrite IH, (IH (0 + x)). ring.
Qed.

Lemma fsum_nil : fsum (F := Qc) [] = 0.
Proof. reflexivity. Qed.

Lemma fsum_cons (x : Qc) (l : list Qc) : fsum (x :: l) = x + fsum l.
Proof. unfold fsum. qc_ops. simpl. rewrite fold_left_Qcplus. ring. Qed.

Lemma fsum_app (l1 l2 : list Qc) : fsum (l1 ++ l2) = fsum l1 + fsum l2.
Proof.
  induction l1 as [|x l1 IH]; simpl.
  - rewrite fsum_nil. ring.
  - rewrite !fsum_cons, IH. ring.
Qed.

Lemma fsum_pointwise {A : Type} (a b : A -> Qc) (l : list A) :
  fsum (map (fun x => a x + b x) l) = fsum (map a l) + fsum (map b l).
Proof.
  induction l as [|x l IH]; simpl.
  - rewrite fsum_nil. ring.
  - rewrite !fsum_cons, IH. ring.
Qed.

Lemma fsum_scale {A : Type} (c : Qc) (a : A -> Qc) (l : list A) :
  fsum (map (fun x => c * a x) l) = c * fsum (map a l).
Proof.
  induction l as [|x l IH]; simpl.
  - rewrite fsum_nil. ring.
  - rewrite !fsum_cons, IH. ring.
Qed.

Lemma fsum_zero {A : Type} (a : A -> Qc) (l : list A) :
  (forall x, In x l -> a x = 0) -> fsum (map a l) = 0.
Proof.
  induction l as [|x l IH]; simpl; intro H; [reflexivity|].
  rewrite fsum_cons, IH, H by auto. ring.
Qed.

Lemma fsum_ext {A : Type} (a b : A -> Qc) (l : list A) :
  (forall x, In x l -> a x = b x) -> fsum (map a l) = fsum (map b l).
Proof. intro H. f_equal. now apply map_ext_in. Qed.

Lemma fsum_repeat_succ (y : Qc) (n : nat) :
  fsum (repeat y (S n)) = y + fsum (repeat y n).
Proof. simpl. apply fsum_cons. Qed.

Lemma fsum_filter {A : Type} (test : A -> bool) (a : A -> Qc) (l : list A) :
  fsum (map a (filter test l)) = fsum (map (fun x => if test x then a x else 0) l).
Proof.
  induction l as [|x l IH]; simpl; [reflexivity|].
  destruct (test x); simpl; rewrite !fsum_cons, IH; ring.
Qed.

Lemma of_nat_succ (n : nat) : of_nat (F := Qc) (S n) = of_nat n + 1.
Proof.
  cbn [of_nat Arith_Qc]. apply Qc_is_canon. unfold Qcplus, Q2Qc. cbn [this].
  rewrite !Qred_correct. rewrite Nat2Z.inj_succ. unfold Z.succ.
  rewrite inject_Z_plus. reflexivity.
Qed.

Lemma of_nat_zero : of_nat (F := Qc) 0 = 0.
Proof. apply Qc_is_canon. reflexivity. Qed.

Lemma Qcplus_nonneg (x y : Qc) : 0 <= x -> 0 <= y -> 0 <= x + y.
Proof.
  intros Hx Hy. replace 0 with (0 + 0) by ring. now apply Qcplus_le_compat.
Qed.

Lemma Qcmult_nonneg (x y : Qc) : 0 <= x -> 0 <= y -> 0 <= x * y.
Proof.
  intros Hx Hy. replace 0 with (0 * y) by ring. now apply Qcmult_le_compat_r.
Qed.

Lemma Qcinv_nonneg (x : Qc) : 0 <= x -> 0 <= / x.
Proof.
  intro H. unfold Qcle in *.
  change (this (/ x)) with (Qred (/ this x)). rewrite Qred_correct.
  apply Qinv_le_0_compat. exact H.
Qed.

Lemma Qcdiv_nonneg (x y : Qc) : 0 <= x -> 0 <= y -> 0 <= x / y.
Proof.
  intros Hx Hy. unfold Qcdiv. apply Qcmult_nonneg; [assumption|].
  now apply Qcinv_nonneg.
Qed.

Lemma of_nat_nonneg (n : nat) : 0 <= of_nat (F := Qc) n.
Proof.
  induction n as [|n IH]; [apply Qcle_refl|].
  rewrite of_nat_succ. apply Qcplus_nonneg; [assumption | discriminate].
Qed.

Lemma of_nat_pos (n : nat) : (0 < n)%nat -> 0 < of_nat (F := Qc) n.
Proof.
  destruct n; [lia|]. intros _. rewrite of_nat_succ.
  apply Qclt_le_trans with (0 + 1); [reflexivity|].
  apply Qcplus_le_compat; [apply of_nat_nonneg | apply Qcle_refl].
Qed.

Lemma of_nat_nonzero (n : nat) : (0 < n)%nat -> of_nat (F := Qc) n <> 0.
Proof.
  intros Hn E. pose proof (of_nat_pos Hn) as H. rewrite E in H.
  now apply Qclt_not_eq in H.
Qed.

Lemma fsum_nonneg {A : Type} (a : A -> Qc) (l : list A) :
  (forall x, In x l -> 0 <= a x) -> 0 <= fsum (map a l).
Proof.
  induction l as [|x l IH]; simpl; intro H; [apply Qcle_refl|].
  rewrite fsum_cons. apply Qcplus_nonneg; auto.
Qed.

(** *** Counting the occurrences of links over the nodes *)

Lemma fsum_indicator (ks : list string) (t : string) (y : Qc) :
  NoDup ks -> In t ks ->
  fsum (map (fun p => if string_dec t p then y else 0) ks) = y.
Proof.
  induction ks as [|k ks IH]; simpl; [contradiction|].
  intros Hnd Hin. inversion Hnd as [|? ? Hk Hnd']; subst.
  rewrite fsum_cons. destruct (string_dec t k) as [->|Hne].
  - rewrite fsum_zero; [ring|].
    intros x Hx. destruct (string_dec k x); [subst; contradiction | reflexivity].
  - destruct Hin as [->|Hin]; [congruence|]. rewrite IH by assumption. ring.
Qed.

Lemma fsum_repeat_count (ks outs : list string) (y : Qc) :
  NoDup ks -> (forall t, In t outs -> In t ks) ->
  fsum (map (fun p => fsum (repeat y (count_occ string_dec outs p))) ks)
  = of_nat (List.length outs) * y.
Proof.
  intros Hnd. induction outs as [|t outs IH]; intro Hin.
  - rewrite fsum_zero by reflexivity. cbn [List.length].
    rewrite of_nat_zero. ring.
  - rewrite (fsum_ext _
               (fun p => (if string_dec t p then y else 0)
                         + fsum (repeat y (count_occ string_dec outs p)))).
    + rewrite fsum_pointwise, fsum_indicator, IH; auto using in_eq, in_cons.
      cbn [List.length]. rewrite of_nat_succ. ring.
    + intros p _. simpl count_occ. destruct (string_dec t p).
      * apply fsum_repeat_succ.
      * ring.
Qed.

End ExactArithmetic.

(** ** The two recurrences in exact arithmetic *)

Section ExactUpdates.

Local Open Scope Qc_scope.

Variable graph : dict (list string).
Variable d : Qc.

Hypothesis graph_wf : wf_dict graph.
Hypothesis graph_closed : closed graph.

Let ks : list string := keys graph.
Let ks_NoDup : NoDup ks := keys_NoDup graph_wf.

Lemma fsum_repeat_scale (c y : Qc) (n : nat) :
  fsum (repeat (c * y) n) = c * fsum (repeat y n).
Proof.
  induction n as [|n IH]; simpl.
  - rewrite fsum_nil. ring.
  - rewrite !fsum_cons, IH. ring.
Qed.

Lemma fsum_update_form {A : Type} (c1 c2 c3 : Qc) (a b : A -> Qc) (l : list A) :
  fsum (map (fun p => c1 * a p + c2 * (b p + c3 * a p)) l)
  = c1 * fsum (map a l) + c2 * (fsum (map b l) + c3 * fsum (map a l)).
Proof.
  induction l as [|x l IH]; simpl.
  - rewrite !fsum_nil. ring.
  - rewrite !fsum_cons, IH. ring.
Qed.

Lemma in_links_cons (src : string) (outs : list string)
  (its : dict (list string)) (p : string) :
  in_links ((src, outs) :: its) p
  = repeat src (count_occ string_dec outs p) ++ in_links its p.
Proof. reflexivity. Qed.

(** The rank that leaves the pages of [its] along links, plus the rank of
    the dangling pages of [its], is the rank of the pages of [its]. *)
Lemma link_mass (r : string -> Qc) (its : dict (list string)) :
  incl its graph ->
  fsum (map (fun p =>
               fsum (map (fun s => r s / of_nat (out_degree graph s))
                         (in_links its p))) ks)
  + fsum (map r (filter (fun n => Nat.eqb (out_degree graph n) 0) (keys its)))
  = fsum (map r (keys its)).
Proof.
  induction its as [|[src outs] its IH]; intro Hincl.
  - simpl. rewrite fsum_zero by reflexivity. rewrite fsum_nil. ring.
  - assert (In (src, outs) graph) as Hitem by (apply Hincl; now left).
    assert (out_degree graph src = List.length outs) as Hdeg
      by (unfold out_degree; now rewrite (out_links_item graph src outs)).
    specialize (IH (fun x Hx => Hincl x (or_intror Hx))).
    rewrite (fsum_ext _
               (fun p => fsum (repeat (r src / of_nat (List.length outs))
                                      (count_occ string_dec outs p))
                         + fsum (map (fun s => r s / of_nat (out_degree graph s))
                                     (in_links its p)))).
    + rewrite fsum_pointwise, fsum_repeat_count; auto.
      2:{ intros t Ht. eapply closed_targets; eassumption. }
      cbn [keys map fst filter]. fold (keys its). rewrite Hdeg.
      destruct outs as [|o outs]; cbn [List.length Nat.eqb map].
      * rewrite !fsum_cons, <- IH, of_nat_zero. ring.
      * rewrite fsum_cons, <- IH.
        pose proof (@of_nat_nonzero (S (List.length outs)) (Nat.lt_0_succ _)).
        field. assumption.
    + intros p _. rewrite in_links_cons, map_app, fsum_app, map_repeat.
      now rewrite Hdeg.
Qed.

(** One pass of the topic-specific solver keeps the total rank at 1. *)
Lemma topic_update_mass (tv : dict Qc) (r : string -> Qc) :
  fsum (map (teleport tv) ks) = 1 ->
  fsum (map r ks) = 1 ->
  fsum (map (topic_update tv d graph r) ks) = 1.
Proof.
  intros Htv Hr. unfold topic_update. qc_ops.
  rewrite (fsum_update_form (1 - d) d (dangling_of graph r) (teleport tv)
             (link_sum graph r) ks).
  rewrite Htv.
  pose proof (link_mass r (incl_refl graph)) as H. fold ks in H.
  unfold link_sum at 1. unfold dangling_of. qc_ops.
  fold ks. rewrite !Qcmult_1_r, H, Hr. ring.
Qed.

Lemma shares_sum (r : string -> Qc) (p : string) (its : dict (list string)) :
  incl its graph ->
  fsum (flat_map (fun item => shares d graph r item p) its)
  = d * (fsum (map (fun s => r s / of_nat (out_degree graph s)) (in_links its p))
         + fsum (map r (filter (fun n => Nat.eqb (out_degree graph n) 0) (keys its)))
           * (1 / of_nat (List.length graph))).
Proof.
  induction its as [|[src outs] its IH]; intro Hincl.
  - simpl. rewrite !fsum_nil. ring.
  - assert (In (src, outs) graph) as Hitem by (apply Hincl; now left).
    assert (out_degree graph src = List.length outs) as Hdeg
      by (unfold out_degree; now rewrite (out_links_item graph src outs)).
    specialize (IH (fun x Hx => Hincl x (or_intror Hx))).
    cbn [flat_map]. rewrite fsum_app, IH.
    rewrite in_links_cons, map_app, fsum_app, map_repeat.
    cbn [keys map fst filter]. fold (keys its). rewrite Hdeg.
    unfold shares. cbn [fst snd]. qc_ops.
    destruct outs as [|o outs]; cbn [List.length Nat.eqb map count_occ repeat].
    + rewrite !fsum_cons, !fsum_nil. unfold Qcdiv. ring.
    + change (S (List.length outs)) with (List.length (o :: outs)).
      rewrite fsum_repeat_scale. ring.
Qed.

(** With every node weighted 1/N, the topic-specific recurrence is the
    classic one. *)
Lemma classic_is_uniform_topic (tv : dict Qc) (r : string -> Qc) (p : string) :
  teleport tv p = 1 / of_nat (List.length graph) ->
  classic_update d graph r p = topic_update tv d graph r p.
Proof.
  intro Hp. unfold classic_update, topic_update. qc_ops.
  rewrite fold_left_Qcplus.
  match goal with
  | |- context [fold_left Qcplus ?l 0] =>
      change (fold_left Qcplus l 0) with (fsum l)
  end.
  rewrite (shares_sum r p (incl_refl graph)), Hp.
  unfold link_sum, dangling_of. qc_ops. unfold Qcdiv. ring.
Qed.

Lemma topic_update_nonneg (tv : dict Qc) (r : string -> Qc) :
  0 <= d -> d <= 1 ->
  (forall p, In p ks -> 0 <= teleport tv p) ->
  (forall p, In p ks -> 0 <= r p) ->
  forall p, In p ks -> 0 <= topic_update tv d graph r p.
Proof.
  intros Hd0 Hd1 Htv Hr p Hp. unfold topic_update. qc_ops.
  apply Qcplus_nonneg.
  - apply Qcmult_nonneg; [|now apply Htv].
    unfold Qcminus. now apply Qcle_minus_iff in Hd1.
  - apply Qcmult_nonneg; [assumption|]. apply Qcplus_nonneg.
    + unfold link_sum. apply fsum_nonneg. intros s Hs.
      apply in_links_source in Hs; [|exact ks_NoDup]. qc_ops.
      apply Qcdiv_nonneg; [apply Hr; tauto | apply of_nat_nonneg].
    + apply Qcmult_nonneg; [|now apply Htv].
      unfold dangling_of. apply fsum_nonneg. intros n Hn.
      apply filter_In in Hn. apply Hr. tauto.
Qed.

End ExactUpdates.

(** ** Whole runs in exact arithmetic *)

Section ExactRuns.

Local Open Scope Qc_scope.

Variable graph : dict (list string).
Variable d tol : Qc.

Hypothesis graph_wf : wf_dict graph.
Hypothesis graph_closed : closed graph.

Let ks : list string := keys graph.
Let ks_NoDup : NoDup ks := keys_NoDup graph_wf.

(** The teleportation vector [{n: 1/N}]. *)
Let uniform : dict Qc := tabulate ks (uniform_rank graph).

Lemma teleport_uniform (p : string) :
  In p ks -> teleport uniform p = 1 / of_nat (List.length graph).
Proof.
  intro Hp. unfold teleport, uniform, get_default.
  now rewrite get_tabulate.
Qed.

Lemma fsum_const {A : Type} (c : Qc) (l : list A) :
  fsum (map (fun _ => c) l) = of_nat (List.length l) * c.
Proof.
  induction l as [|x l IH]; cbn [map List.length].
  - rewrite fsum_nil, of_nat_zero. ring.
  - rewrite fsum_cons, IH, of_nat_succ. ring.
Qed.

Lemma uniform_mass : graph <> [] -> fsum (map (uniform_rank graph) ks) = 1.
Proof.
  intro Hne. unfold uniform_rank. rewrite fsum_const.
  unfold ks, keys. rewrite length_map. qc_ops.
  assert (of_nat (List.length graph) <> 0) as H.
  { apply of_nat_nonzero. destruct graph; [congruence | simpl; lia]. }
  field. exact H.
Qed.

Lemma classic_update_uniform (r : string -> Qc) (p : string) :
  In p ks -> classic_update d graph r p = topic_update uniform d graph r p.
Proof.
  intro Hp. apply classic_is_uniform_topic; [assumption|].
  now apply teleport_uniform.
Qed.

Lemma classic_update_mass (r : string -> Qc) :
  graph <> [] -> fsum (map r ks) = 1 ->
  fsum (map (classic_update d graph r) ks) = 1.
Proof.
  intros Hne Hr.
  rewrite (fsum_ext _ (topic_update uniform d graph r))
    by (intros p Hp; now apply classic_update_uniform).
  apply topic_update_mass; try assumption.
  rewrite (fsum_ext _ (uniform_rank graph)).
  - now apply uniform_mass.
  - intros p Hp. now apply teleport_uniform.
Qed.

Lemma normalize_unit_mass (r : string -> Qc) :
  fsum (map r ks) = 1 -> normalize (tabulate ks r) = Ok (tabulate ks r).
Proof.
  intro Hr. rewrite normalize_tabulate by exact Qc_positive_nonzero.
  f_equal. apply tabulate_ext. intros p _. unfold normalized.
  rewrite Hr. qc_ops. cbn. field. discriminate.
Qed.

(** With the uniform vector the two loops take the same branches and
    compute the same dictionaries. *)
Lemma loops_agree (remaining done : nat) (r : string -> Qc) :
  topic_loop uniform d tol remaining done graph ks (out_degrees graph ks)
             (tabulate ks r)
  = (graph, page_rank_loop graph d tol remaining done (tabulate ks r)).
Proof.
  revert done r. induction remaining as [|remaining IH]; intros done r.
  - reflexivity.
  - cbn [topic_loop page_rank_loop]. unfold ks.
    rewrite topic_iteration_tabulate, page_rank_iteration_tabulate
      by assumption.
    cbn [bind]. fold ks.
    rewrite <- (tabulate_ext ks (classic_update d graph r)
                  (topic_update uniform d graph r))
      by (intros p Hp; now apply classic_update_uniform).
    replace (l1_distance ks (topic_update uniform d graph r) r)
      with (l1_distance ks (classic_update d graph r) r).
    + destruct (fltb (l1_distance ks (classic_update d graph r) r) tol);
        [reflexivity | apply IH].
    + unfold l1_distance. apply fsum_ext. intros p Hp.
      now rewrite classic_update_uniform.
Qed.

Lemma nonneg_tabulate (nodes : list string) (f : string -> Qc) :
  nonneg (tabulate nodes f) <-> forall p, In p nodes -> 0 <= f p.
Proof.
  unfold nonneg. rewrite values_tabulate, Forall_map. apply Forall_forall.
Qed.

End ExactRuns.

(** ** C2: the uniform vector gives classic PageRank *)

(** C2, in exact arithmetic.  On every graph with distinct keys whose link
    targets are all keys, [topic_pagerank] called with the teleportation
    vector [{n: 1/N}] and [page_rank] called with the same damping factor,
    tolerance and iteration budget end the same way: the same rank mapping,
    key for key and in the same order, and the graph is left as it was.
    (The empty graph is included: both return the empty mapping.)  With
    rounding this fails, and not only in the last bit: the two functions
    order their additions differently, so when the change of a pass is
    within rounding of the tolerance they can stop after different numbers
    of passes; a run in binary64 is given at the end. *)
Theorem uniform_topic_is_classic (graph : dict (list string)) (d tol : Qc)
  (pages : dict (dict string)) (max_iter : nat) :
  wf_dict graph -> closed graph ->
  topic_pagerank (tabulate (keys graph) (uniform_rank graph)) d tol graph
                 pages max_iter
  = (graph, page_rank graph d tol max_iter).
Proof.
  intros Hwf Hcl.
  assert (graph = [] \/ graph <> []) as [->|Hne]
    by (destruct graph; [now left | right; discriminate]).
  - now rewrite topic_pagerank_empty, page_rank_empty.
  - unfold topic_pagerank, topic_pagerank_run, page_rank, page_rank_run.
    rewrite topic_initial_ranks, initial_ranks_ok. cbn [bind].
    rewrite loops_agree by assumption.
    destruct (page_rank_loop_iter d tol Hwf Hcl max_iter 0 (uniform_rank graph))
      as [n [_ [Hrun _]]].
    rewrite Hrun. cbn [bind fst].
    rewrite normalize_unit_mass; [reflexivity|].
    apply (iter_invariant (fun r => fsum (map r (keys graph)) = 1%Qc)).
    + intros r Hr. now apply classic_update_mass.
    + now apply uniform_mass.
Qed.

Lemma uniform_topic_is_classic_witness :
  wf_dict example_graph /\ closed example_graph /\
  topic_pagerank (tabulate (keys example_graph) (uniform_rank example_graph))
                 (q 85 100) (q 1 1000000) example_graph [] 100
  = (example_graph, page_rank example_graph (q 85 100) (q 1 1000000) 100).
Proof.
  split; [reflexivity|]. split; [reflexivity|].
  apply (@uniform_topic_is_classic example_graph (q 85 100) (q 1 1000000) [] 100);
    reflexivity.
Defined.

(** ** C3: the returned ranks sum to 1 *)

(** C3, as the code has it.  On a non-empty graph with distinct keys
    whose link targets are all keys, with a teleportation vector that is
    non-negative and sums to 1 over the nodes, and for every damping
    factor, tolerance and budget:
    - [topic_pagerank] returns [normalize] of the vector its loop ends
      with, and in exact arithmetic the ranks it returns sum to exactly 1;
    - [page_rank] has no final normalization: it returns the vector its
      loop ends with as it is.  In exact arithmetic these ranks sum to
      exactly 1 all the same, because every pass keeps the total at 1. *)
Theorem returned_ranks_sum_to_one (graph : dict (list string)) (tv : dict Qc)
  (d tol : Qc) (pages : dict (dict string)) (max_iter : nat) :
  wf_dict graph -> closed graph -> graph <> [] ->
  valid_teleport tv (keys graph) ->
  (exists last ranks n,
      topic_loop tv d tol max_iter 0 graph (keys graph)
                 (out_degrees graph (keys graph))
                 (tabulate (keys graph) (uniform_rank graph))
      = (graph, Ok (last, n)) /\
      normalize last = Ok ranks /\
      topic_pagerank tv d tol graph pages max_iter = (graph, Ok ranks) /\
      fsum (values ranks) = 1%Qc) /\
  (exists last n,
      page_rank_loop graph d tol max_iter 0
                     (tabulate (keys graph) (uniform_rank graph))
      = Ok (last, n) /\
      page_rank graph d tol max_iter = Ok last /\
      fsum (values last) = 1%Qc).
Proof.
  intros Hwf Hcl Hne [Htv _]. split.
  - destruct (topic_loop_iter tv d tol Hwf Hcl max_iter 0 (uniform_rank graph))
      as [n [_ [Hrun _]]].
    set (last := Nat.iter n (topic_update tv d graph) (uniform_rank graph)) in *.
    assert (fsum (map last (keys graph)) = 1%Qc) as Hmass.
    { apply (iter_invariant (fun r => fsum (map r (keys graph)) = 1%Qc)).
      - intros r Hr. now apply topic_update_mass.
      - now apply uniform_mass. }
    exists (tabulate (keys graph) last), (tabulate (keys graph) last), (0 + n)%nat.
    split; [exact Hrun|].
    split; [now apply normalize_unit_mass|].
    split.
    + unfold topic_pagerank, topic_pagerank_run.
      rewrite topic_initial_ranks, Hrun.
      rewrite normalize_unit_mass by assumption. reflexivity.
    + now rewrite values_tabulate.
  - destruct (page_rank_loop_iter d tol Hwf Hcl max_iter 0 (uniform_rank graph))
      as [n [_ [Hrun _]]].
    set (last := Nat.iter n (classic_update d graph) (uniform_rank graph)) in *.
    assert (fsum (map last (keys graph)) = 1%Qc) as Hmass.
    { apply (iter_invariant (fun r => fsum (map r (keys graph)) = 1%Qc)).
      - intros r Hr. now apply classic_update_mass.
      - now apply uniform_mass. }
    exists (tabulate (keys graph) last), (0 + n)%nat.
    split; [exact Hrun|].
    split.
    + unfold page_rank, page_rank_run. rewrite initial_ranks_ok. cbn [bind].
      now rewrite Hrun.
    + now rewrite values_tabulate.
Qed.

Lemma example_teleport_valid : valid_teleport example_teleport (keys example_graph).
Proof.
  split.
  - apply Qc_is_canon. reflexivity.
  - intros p Hp. simpl in Hp.
    repeat (destruct Hp as [<-|Hp]; [vm_compute; discriminate|]).
    contradiction.
Defined.

Lemma returned_ranks_sum_to_one_witness :
  wf_dict example_graph /\ closed example_graph /\ example_graph <> [] /\
  valid_teleport example_teleport (keys example_graph) /\
  (exists last n,
      page_rank_loop example_graph (q 85 100) (q 1 1000000) 100 0
                     (tabulate (keys example_graph) (uniform_rank example_graph))
      = Ok (last, n) /\
      page_rank example_graph (q 85 100) (q 1 1000000) 100 = Ok last /\
      fsum (values last) = 1%Qc).
Proof.
  split; [reflexivity|]. split; [reflexivity|]. split; [discriminate|].
  split; [exact example_teleport_valid|].
  apply (@returned_ranks_sum_to_one example_graph example_teleport
           (q 85 100) (q 1 1000000) [] 100 eq_refl eq_refl
           ltac:(discriminate) example_teleport_valid).
Defined.

(** ** C9: ranks are never negative *)

Lemma nonneg_rank_of (ranks : dict Qc) (nodes : list string) :
  keys ranks = nodes -> NoDup nodes -> nonneg ranks ->
  forall p, In p nodes -> (0 <= rank_of ranks p)%Qc.
Proof.
  intros Hkeys Hnd Hnn. subst nodes.
  rewrite (tabulate_keys ranks fzero Hnd) in Hnn.
  exact (proj1 (nonneg_tabulate _ _) Hnn).
Qed.

Lemma uniform_teleport_nonneg (graph : dict (list string)) (p : string) :
  In p (keys graph) ->
  (0 <= teleport (tabulate (keys graph) (uniform_rank (F := Qc) graph)) p)%Qc.
Proof.
  intro Hp. rewrite teleport_uniform by assumption.
  apply Qcdiv_nonneg; [discriminate | apply of_nat_nonneg].
Qed.

Lemma classic_update_nonneg (graph : dict (list string)) (d : Qc)
  (r : string -> Qc) :
  wf_dict graph -> closed graph -> (0 <= d)%Qc -> (d <= 1)%Qc ->
  (forall p, In p (keys graph) -> (0 <= r p)%Qc) ->
  forall p, In p (keys graph) -> (0 <= classic_update d graph r p)%Qc.
Proof.
  intros Hwf Hcl Hd0 Hd1 Hr p Hp.
  rewrite classic_update_uniform by assumption.
  apply topic_update_nonneg; auto using uniform_teleport_nonneg.
Qed.

Lemma normalized_nonneg (nodes : list string) (r : string -> Qc) :
  (forall p, In p nodes -> (0 <= r p)%Qc) ->
  forall p, In p nodes -> (0 <= normalized nodes r p)%Qc.
Proof.
  intros Hr p Hp. unfold normalized. qc_ops.
  destruct (0 ?= fsum (map r nodes))%Qc eqn:E; auto.
  apply Qcdiv_nonneg; [auto|].
  apply Qclt_le_weak. now apply Qclt_alt.
Qed.

(** C9, in exact arithmetic.  On a graph with distinct keys whose link
    targets are all keys, with a damping factor [0 <= d <= 1] and a
    teleportation vector without negative weights:
    - the ranks both solvers start from are non-negative;
    - one pass of either loop turns non-negative ranks into non-negative
      ranks, so the ranks are non-negative at every iteration;
    - the mapping each solver returns is non-negative.
    With rounding this can fail: the code bounds no weight, and weights
    large enough for a sum to overflow end in ranks that are not numbers;
    a run in binary64 is given at the end. *)
Theorem ranks_never_negative (graph : dict (list string)) (tv : dict Qc)
  (d tol : Qc) (pages : dict (dict string)) (max_iter : nat) :
  wf_dict graph -> closed graph ->
  (0 <= d)%Qc -> (d <= 1)%Qc ->
  (forall p, In p (keys graph) -> (0 <= teleport tv p)%Qc) ->
  (exists ranks, initial_ranks graph = Ok ranks /\ nonneg ranks) /\
  (forall ranks, keys ranks = keys graph -> nonneg ranks ->
     (exists new_ranks diff,
         page_rank_iteration graph d ranks = Ok (new_ranks, diff) /\
         keys new_ranks = keys graph /\ nonneg new_ranks) /\
     (exists new_ranks diff,
         topic_iteration tv d graph (keys graph)
                         (out_degrees graph (keys graph)) ranks
         = (graph, Ok (new_ranks, diff)) /\
         keys new_ranks = keys graph /\ nonneg new_ranks)) /\
  (exists ranks, page_rank graph d tol max_iter = Ok ranks /\ nonneg ranks) /\
  (exists ranks,
      topic_pagerank tv d tol graph pages max_iter = (graph, Ok ranks) /\
      nonneg ranks).
Proof.
  intros Hwf Hcl Hd0 Hd1 Htv.
  pose proof (keys_NoDup Hwf) as Hnd.
  assert (forall p, In p (keys graph) -> (0 <= uniform_rank graph p)%Qc) as Hu.
  { intros p _. unfold uniform_rank.
    apply Qcdiv_nonneg; [discriminate | apply of_nat_nonneg]. }
  repeat split.
  - rewrite initial_ranks_ok. eexists. split; [reflexivity|].
    now apply nonneg_tabulate.
  - pose proof (nonneg_rank_of H Hnd H0) as Hr.
    rewrite (tabulate_keys ranks fzero) by (now rewrite H).
    rewrite H. fold (rank_of ranks).
    rewrite page_rank_iteration_tabulate by assumption.
    eexists. eexists. split; [reflexivity|]. split; [apply keys_tabulate|].
    apply nonneg_tabulate. now apply classic_update_nonneg.
  - pose proof (nonneg_rank_of H Hnd H0) as Hr.
    rewrite (tabulate_keys ranks fzero) by (now rewrite H).
    rewrite H. fold (rank_of ranks).
    rewrite topic_iteration_tabulate by assumption.
    eexists. eexists. split; [reflexivity|]. split; [apply keys_tabulate|].
    apply nonneg_tabulate. now apply topic_update_nonneg.
  - destruct (page_rank_run_iter d tol Hwf Hcl max_iter) as [n [_ [Hrun _]]].
    unfold page_rank. rewrite Hrun. eexists. split; [reflexivity|].
    apply nonneg_tabulate.
    apply (iter_invariant (fun r => forall p, In p (keys graph) -> (0 <= r p)%Qc));
      [|assumption].
    intros r Hr. now apply classic_update_nonneg.
  - destruct (topic_pagerank_run_iter tv d tol Hwf Hcl pages max_iter
                Qc_positive_nonzero) as [n [_ [Hrun _]]].
    unfold topic_pagerank. rewrite Hrun. eexists. split; [reflexivity|].
    apply nonneg_tabulate. apply normalized_nonneg.
    apply (iter_invariant (fun r => forall p, In p (keys graph) -> (0 <= r p)%Qc));
      [|assumption].
    intros r Hr. now apply topic_update_nonneg.
Qed.

Lemma ranks_never_negative_witness :
  wf_dict example_graph /\ closed example_graph /\
  (0 <= q 85 100)%Qc /\ (q 85 100 <= 1)%Qc /\
  (exists ranks,
      topic_pagerank example_teleport (q 85 100) (q 1 1000000)
                     example_graph [] 100
      = (example_graph, Ok ranks) /\
      nonneg ranks).
Proof.
  split; [reflexivity|]. split; [reflexivity|].
  split; [discriminate|]. split; [discriminate|].
  apply (@ranks_never_negative example_graph example_teleport
           (q 85 100) (q 1 1000000) [] 100 eq_refl eq_refl
           ltac:(discriminate) ltac:(discriminate)
           (proj2 example_teleport_valid)).
Defined.

(** ** C7: the teleportation vector of [build_topic_vector] *)

Section TopicWeights.

Context {F : Type} {AF : Arith F}.

Variable lower : string -> string.
Variable kws : list string.

Lemma topic_weights_fold (its : dict (dict string)) (v : dict F) (total : F) :
  NoDup (keys v ++ keys its) ->
  fold_left (fun (acc : dict F * F) (item : string * dict string) =>
               let (v, total) := acc in
               let (pid, meta) := item in
               let w := raw_weight lower kws meta in
               (set pid w v, fadd total w))
            its (v, total)
  = (v ++ map (fun item => (fst item, raw_weight lower kws (snd item))) its,
     fold_left fadd (map (fun item => raw_weight lower kws (snd item)) its) total).
Proof.
  revert v total. induction its as [|[pid meta] its IH]; intros v total Hnd.
  - simpl. now rewrite app_nil_r.
  - cbn [fold_left map fst snd].
    assert (~ In pid (keys v)) as Hpid.
    { intro Hin. simpl in Hnd. apply NoDup_remove_2 in Hnd. apply Hnd.
      apply in_or_app. now left. }
    rewrite set_absent by assumption. rewrite IH.
    + now rewrite <- app_assoc.
    + unfold keys in *. rewrite map_app. simpl in *. now rewrite <- app_assoc.
Qed.

Lemma topic_weights_closed_form (pages : dict (dict string)) :
  wf_dict pages ->
  topic_weights lower kws pages
  = (tabulate (keys pages)
       (fun pid => raw_weight lower kws (get_default pid [] pages)),
     fsum (map (fun pid => raw_weight lower kws (get_default pid [] pages))
               (keys pages))).
Proof.
  intro Hwf. apply distinctb_NoDup in Hwf. unfold topic_weights.
  rewrite topic_weights_fold by exact Hwf. cbn [app]. unfold fsum, tabulate, keys.
  rewrite !map_map.
  assert (forall item, In item pages ->
            raw_weight lower kws (snd item)
            = raw_weight lower kws (get_default (fst item) [] pages)) as Hext.
  { intros [pid meta] Hin. cbn [fst snd]. unfold get_default.
    erewrite get_in; [reflexivity | exact Hwf | exact Hin]. }
  apply pair_equal_spec. split.
  - apply map_ext_in. intros item Hin. now rewrite <- Hext.
  - apply (f_equal (fun l => fold_left fadd l fzero)).
    apply map_ext_in. intros item Hin. now rewrite <- Hext.
Qed.

End TopicWeights.

Lemma fsum_member_le {A : Type} (a : A -> Qc) (l : list A) (x : A) :
  (forall y, In y l -> (0 <= a y)%Qc) -> In x l -> (a x <= fsum (map a l))%Qc.
Proof.
  induction l as [|y l IH]; simpl; intros Hnn Hin; [contradiction|].
  rewrite fsum_cons. destruct Hin as [->|Hin].
  - replace (a x) with (a x + 0)%Qc at 1 by ring.
    apply Qcplus_le_compat; [apply Qcle_refl | apply fsum_nonneg; auto].
  - replace (a x) with (0 + a x)%Qc by ring.
    apply Qcplus_le_compat; [auto | apply IH; auto].
Qed.

(** C7.  In exact arithmetic, for every set of pages with distinct ids,
    every keyword list and every lower-casing function, write [weight pid]
    for the raw weight of a page (1 if a keyword occurs in its lower-cased
    title and content, else 0) and [total] for the sum of the raw weights.
    [build_topic_vector] never raises, and
    - if [total] is positive it returns [weight pid / total] for every page;
    - if [total] is 0 it returns [1/N] for every page;
    - [total] is 0 exactly when no page matches a keyword, and is never
      negative, so one of the two cases applies. *)
Theorem topic_vector_weights_or_uniform (lower : string -> string)
  (pages : dict (dict string)) (topic_keywords : list string) :
  wf_dict pages ->
  let kws := map lower topic_keywords in
  let weight := fun pid => raw_weight (F := Qc) lower kws (get_default pid [] pages) in
  let total := fsum (map weight (keys pages)) in
  ((0 < total)%Qc ->
   build_topic_vector lower pages topic_keywords
   = Ok (tabulate (keys pages) (fun pid => (weight pid / total)%Qc))) /\
  (total = 0%Qc ->
   build_topic_vector lower pages topic_keywords
   = Ok (tabulate (keys pages)
           (fun _ => (1 / of_nat (List.length pages))%Qc))) /\
  (total = 0%Qc <->
   forall pid, In pid (keys pages) ->
     matches lower kws (get_default pid [] pages) = false) /\
  (0 <= total)%Qc.
Proof.
  intros Hwf kws weight total.
  assert (forall pid, (0 <= weight pid)%Qc) as Hnn.
  { intro pid. unfold weight, raw_weight.
    destruct (matches lower kws _); discriminate. }
  assert (build_topic_vector lower pages topic_keywords
          = if feqb total fzero
            then Ok (tabulate (keys pages)
                       (fun _ => (1 / of_nat (List.length pages))%Qc))
            else Ok (tabulate (keys pages) (fun pid => (weight pid / total)%Qc)))
    as Hrun.
  { unfold build_topic_vector. fold kws.
    rewrite topic_weights_closed_form by assumption.
    fold weight. fold total. destruct (feqb total fzero) eqn:E.
    - apply mapM_ok. intros pid Hpid.
      rewrite pdiv_int_pos; [reflexivity|].
      unfold keys in Hpid. apply in_map_iff in Hpid.
      destruct Hpid as [x [_ Hx]]. eapply in_length_pos; eassumption.
    - apply mapM_ok. intros pid Hpid. unfold getitem.
      rewrite get_tabulate by assumption. cbn [bind]. unfold pdiv.
      now rewrite E. }
  repeat split.
  - intro Hpos. rewrite Hrun. qc_ops.
    destruct (total ?= 0)%Qc eqn:E; try reflexivity.
    apply Qceq_alt in E. rewrite E in Hpos. now apply Qclt_not_eq in Hpos.
  - intro Hzero. rewrite Hrun, Hzero. reflexivity.
  - intros Hzero pid Hpid.
    pose proof (fsum_member_le weight (keys pages) pid (fun y _ => Hnn y) Hpid) as Hle.
    fold total in Hle. rewrite Hzero in Hle. unfold weight, raw_weight in Hle.
    destruct (matches lower kws (get_default pid [] pages)); [|reflexivity].
    exfalso. revert Hle. apply Qclt_not_le. reflexivity.
  - intro Hnone. apply fsum_zero. intros pid Hpid.
    unfold weight, raw_weight. now rewrite (Hnone pid Hpid).
  - apply fsum_nonneg. auto.
Qed.

Lemma topic_vector_weights_or_uniform_witness :
  wf_dict example_pages /\
  build_topic_vector (F := Qc) lower_ascii example_pages ["Cricket"]
  = Ok (tabulate (keys example_pages)
          (fun _ => (1 / of_nat (List.length example_pages))%Qc)).
Proof.
  split; [reflexivity|].
  apply (proj1 (proj2 (@topic_vector_weights_or_uniform lower_ascii example_pages
                         ["Cricket"] eq_refl))).
  apply Qc_is_canon. reflexivity.
Defined.

(** ** C2, C3 and C9 in binary64 *)

Lemma float_neq (x y : float) :
  PrimFloat.eqb x y = false -> PrimFloat.eqb y y = true -> x <> y.
Proof. intros Hxy Hyy E. rewrite E in Hxy. congruence. Qed.

(** [{'A': ['B'], 'B': []}] with the uniform vector [{A: 0.5, B: 0.5}],
    the default damping 0.85, the tolerance 0.425 and the budget 100, in
    binary64.  In exact arithmetic the first pass changes the ranks by
    exactly 0.425, which is not below the tolerance.  With rounding,
    [page_rank] finds the change [0.42500000000000004], goes on, and stops
    after the second pass; [topic_pagerank] finds [0.42499999999999993]
    and stops after the first.  The ranks returned for [A] are [0.3778125]
    and [0.28750000000000003]: they differ by more than 0.09. *)
Lemma uniform_topic_stops_earlier_in_binary64 :
  sink_graph <> [] /\ closed sink_graph /\
  tabulate (keys sink_graph) (uniform_rank sink_graph)
  = [("A", 0.5%float); ("B", 0.5%float)] /\
  page_rank_run sink_graph default_damping tolerance_0425 100
  = Ok ([("A", 0x1.82e147ae147aep-2%float); ("B", 0x1.3e8f5c28f5c28p-1%float)], 2) /\
  topic_pagerank_run (tabulate (keys sink_graph) (uniform_rank sink_graph))
                     default_damping tolerance_0425 sink_graph [] 100
  = (sink_graph,
     Ok ([("A", 0x1.2666666666667p-2%float); ("B", 0x1.6cccccccccccdp-1%float)], 1)) /\
  page_rank sink_graph default_damping tolerance_0425 100
  = Ok [("A", 0x1.82e147ae147aep-2%float); ("B", 0x1.3e8f5c28f5c28p-1%float)] /\
  topic_pagerank (tabulate (keys sink_graph) (uniform_rank sink_graph))
                 default_damping tolerance_0425 sink_graph [] 100
  = (sink_graph,
     Ok [("A", 0x1.2666666666667p-2%float); ("B", 0x1.6cccccccccccdp-1%float)]) /\
  PrimFloat.ltb 0x1.70a3d70a3d70ap-4%float
    (PrimFloat.abs (PrimFloat.sub 0x1.82e147ae147aep-2%float
                                  0x1.2666666666667p-2%float)) = true /\
  snd (topic_pagerank (tabulate (keys sink_graph) (uniform_rank sink_graph))
                      default_damping tolerance_0425 sink_graph [] 100)
  <> page_rank sink_graph default_damping tolerance_0425 100.
Proof.
  split; [discriminate|]. split; [reflexivity|].
  split; [vm_compute; reflexivity|]. split; [vm_compute; reflexivity|].
  split; [vm_compute; reflexivity|]. split; [vm_compute; reflexivity|].
  split; [vm_compute; reflexivity|]. split; [vm_compute; reflexivity|].
  intro H.
  apply (f_equal (fun r : result (dict float) =>
                    match r with
                    | Ok ((_, v) :: _) => PrimFloat.eqb v 0x1.2666666666667p-2%float
                    | _ => false
                    end)) in H.
  vm_compute in H. discriminate H.
Qed.

(** The change of the first pass as each function computes it. *)
Example first_pass_changes_in_binary64 :
  (exists new, page_rank_iteration sink_graph default_damping
                 [("A", 0.5%float); ("B", 0.5%float)]
               = Ok (new, 0x1.b333333333334p-2%float)) /\
  (exists new, snd (topic_iteration [("A", 0.5%float); ("B", 0.5%float)]
                      default_damping sink_graph (keys sink_graph)
                      (out_degrees sink_graph (keys sink_graph))
                      [("A", 0.5%float); ("B", 0.5%float)])
               = Ok (new, 0x1.b333333333332p-2%float)) /\
  PrimFloat.ltb 0x1.b333333333334p-2%float tolerance_0425 = false /\
  PrimFloat.ltb 0x1.b333333333332p-2%float tolerance_0425 = true.
Proof.
  split; [eexists; vm_compute; reflexivity|].
  split; [eexists; vm_compute; reflexivity|].
  split; vm_compute; reflexivity.
Qed.

(** [{'A': [], 'B': []}] with the weight [1e308] for both pages, the
    default damping and tolerance and a budget of 2, in binary64.  The
    graph is not empty, no weight is negative and [0 <= damping < 1].  The
    first pass gives both pages the rank [1e308]; in the second their sum
    overflows and both ranks become infinite; the final division of an
    infinite rank by the infinite sum is not a number, and a rank that is
    not a number is not [>= 0]. *)
Lemma huge_weights_give_nan_ranks :
  linkless_graph <> [] /\
  PrimFloat.leb 0%float weight_1e308 = true /\
  PrimFloat.leb 0%float default_damping = true /\
  PrimFloat.ltb default_damping 1%float = true /\
  topic_loop [("A", weight_1e308); ("B", weight_1e308)] default_damping
             default_tolerance 1 0 linkless_graph (keys linkless_graph)
             (out_degrees linkless_graph (keys linkless_graph))
             (tabulate (keys linkless_graph) (uniform_rank linkless_graph))
  = (linkless_graph, Ok ([("A", weight_1e308); ("B", weight_1e308)], 1)) /\
  topic_loop [("A", weight_1e308); ("B", weight_1e308)] default_damping
             default_tolerance 2 0 linkless_graph (keys linkless_graph)
             (out_degrees linkless_graph (keys linkless_graph))
             (tabulate (keys linkless_graph) (uniform_rank linkless_graph))
  = (linkless_graph, Ok ([("A", infinity); ("B", infinity)], 2)) /\
  exists ranks r,
    topic_pagerank [("A", weight_1e308); ("B", weight_1e308)] default_damping
                   default_tolerance linkless_graph [] 2
    = (linkless_graph, Ok ranks) /\
    get "A" ranks = Some r /\
    PrimFloat.leb 0%float r = false /\
    PrimFloat.eqb r r = false.
Proof.
  split; [discriminate|]. split; [vm_compute; reflexivity|].
  split; [vm_compute; reflexivity|]. split; [vm_compute; reflexivity|].
  split; [vm_compute; reflexivity|]. split; [vm_compute; reflexivity|].
  eexists. eexists. split; [vm_compute; reflexivity|].
  split; [reflexivity|]. split; vm_compute; reflexivity.
Qed.

(** In binary64 the ranks returned need not sum to 1.
    - One pass of [page_rank] over [{'A': ['A', 'B'], 'B': ['A']}] with
      the default damping: the ranks returned are those of the pass, they
      sum to [0x1.fffffffffffffp-1 < 1], and dividing them by that sum, as
      [topic_pagerank] does before it returns, gives other values.
    - Three passes of [topic_pagerank] over [{'A': ['B'], 'B': []}] with
      the vector [{A: 0.5, B: 0.5}]: the ranks returned, although divided
      by their sum, add up to [0x1.fffffffffffffp-1] again. *)
Lemma page_rank_returns_unnormalized :
  (exists ranks,
      page_rank loop_graph default_damping default_tolerance 1 = Ok ranks /\
      ranks = [("A", 0x1.6ccccccccccccp-1%float); ("B", 0x1.2666666666666p-2%float)] /\
      fsum (values ranks) = 0x1.fffffffffffffp-1%float /\
      fsum (values ranks) <> fone /\
      normalize ranks
      = Ok [("A", 0x1.6cccccccccccdp-1%float); ("B", 0x1.2666666666667p-2%float)] /\
      normalize ranks <> Ok ranks) /\
  (exists ranks,
      topic_pagerank (tabulate (keys sink_graph) (uniform_rank sink_graph))
                     default_damping default_tolerance sink_graph [] 3
      = (sink_graph, Ok ranks) /\
      ranks = [("A", 0x1.5b9374bc6a7fp-2%float); ("B", 0x1.523645a1cac07p-1%float)] /\
      fsum (values ranks) = 0x1.fffffffffffffp-1%float /\
      fsum (values ranks) <> fone).
Proof.
  split.
  - eexists. split; [vm_compute; reflexivity|].
    split; [reflexivity|]. split; [vm_compute; reflexivity|].
    split; [apply float_neq; vm_compute; reflexivity|].
    split; [vm_compute; reflexivity|].
    intro H.
    apply (f_equal (fun r : result (dict float) =>
                      match r with
                      | Ok ((_, v) :: _) => PrimFloat.eqb v 0x1.6ccccccccccccp-1%float
                      | _ => true
                      end)) in H.
    vm_compute in H. discriminate H.
  - eexists. split; [vm_compute; reflexivity|].
    split; [reflexivity|]. split; [vm_compute; reflexivity|].
    apply float_neq; vm_compute; reflexivity.
Qed.

(** * Further properties of the two programs *)

(** ** The reverse index of [build_incoming_links] *)

(** X1.  On a graph with distinct keys whose link targets are all keys,
    [build_incoming_links] returns an index with the keys of the graph, in
    their order, together with the list of these keys; and [q] is listed
    among the sources of [p] exactly when the outbound list of [q]
    contains [p]. *)
Theorem incoming_links_membership (graph : dict (list string)) :
  wf_dict graph -> closed graph ->
  exists incoming,
    build_incoming_links graph = (graph, Ok (incoming, keys graph)) /\
    keys incoming = keys graph /\
    forall p q, In p (keys graph) ->
      (In q (get_default p [] incoming)
       <-> exists outs, get q graph = Some outs /\ In p outs).
Proof.
  intros Hwf Hcl. pose proof (keys_NoDup Hwf) as Hnd.
  exists (tabulate (keys graph) (in_links graph)).
  split; [now apply build_incoming_links_closed|].
  split; [apply keys_tabulate|].
  intros p q Hp. unfold get_default. rewrite get_tabulate by assumption.
  rewrite in_links_spec. split; intros [outs [H1 H2]]; exists outs; split; auto.
  - now apply get_in.
  - now apply get_some_in.
Qed.

Lemma incoming_links_membership_witness :
  wf_dict example_graph /\ closed example_graph /\
  exists incoming,
    build_incoming_links example_graph
    = (example_graph, Ok (incoming, keys example_graph)) /\
    keys incoming = keys example_graph /\
    forall p q, In p (keys example_graph) ->
      (In q (get_default p [] incoming)
       <-> exists outs, get q example_graph = Some outs /\ In p outs).
Proof.
  split; [reflexivity|]. split; [reflexivity|].
  apply (@incoming_links_membership example_graph); reflexivity.
Defined.

Lemma list_sum_map_add {A : Type} (a b : A -> nat) (l : list A) :
  list_sum (map (fun x => a x + b x) l) = list_sum (map a l) + list_sum (map b l).
Proof. induction l as [|x l IH]; simpl; [reflexivity | rewrite IH; lia]. Qed.

Lemma list_sum_map_zero {A : Type} (a : A -> nat) (l : list A) :
  (forall x, In x l -> a x = 0) -> list_sum (map a l) = 0.
Proof.
  induction l as [|x l IH]; simpl; intro H; [reflexivity|].
  rewrite H, IH; auto.
Qed.

Lemma list_sum_indicator (ks : list string) (t : string) :
  NoDup ks -> In t ks ->
  list_sum (map (fun p => if string_dec t p then 1 else 0) ks) = 1.
Proof.
  induction ks as [|k ks IH]; simpl; [contradiction|].
  intros Hnd Hin. inversion Hnd as [|? ? Hk Hnd']; subst.
  destruct (string_dec t k) as [->|Hne].
  - rewrite list_sum_map_zero; [reflexivity|].
    intros x Hx. destruct (string_dec k x); [subst; contradiction | reflexivity].
  - destruct Hin as [->|Hin]; [congruence|]. now rewrite IH.
Qed.

Lemma list_sum_count_occ (ks outs : list string) :
  NoDup ks -> (forall t, In t outs -> In t ks) ->
  list_sum (map (fun p => count_occ string_dec outs p) ks) = List.length outs.
Proof.
  intros Hnd. induction outs as [|t outs IH]; intro Hin.
  - simpl. now apply list_sum_map_zero.
  - rewrite (map_ext _ (fun p => (if string_dec t p then 1 else 0)
                                 + count_occ string_dec outs p)).
    + rewrite list_sum_map_add, list_sum_indicator by auto using in_eq.
      cbn [List.length Nat.add]. f_equal. apply IH. auto using in_cons.
    + intro p. simpl. now destruct (string_dec t p).
Qed.

Lemma in_links_total (ks : list string) (its : dict (list string)) :
  NoDup ks ->
  (forall item t, In item its -> In t (snd item) -> In t ks) ->
  list_sum (map (fun p => List.length (in_links its p)) ks)
  = list_sum (map (fun item => List.length (snd item)) its).
Proof.
  intros Hnd. induction its as [|[src outs] its IH]; intro Hin.
  - simpl. now apply list_sum_map_zero.
  - rewrite (map_ext _ (fun p => count_occ string_dec outs p
                                 + List.length (in_links its p))).
    + rewrite list_sum_map_add. cbn [map snd].
      change (list_sum (List.length outs
                        :: map (fun item : string * list string =>
                                  List.length (snd item)) its))
        with (List.length outs
              + list_sum (map (fun item : string * list string =>
                                 List.length (snd item)) its)).
      f_equal.
      * apply list_sum_count_occ; [assumption|].
        intros t Ht. apply (Hin (src, outs)); [now left | assumption].
      * apply IH. intros item t Hitem. apply Hin. now right.
    + intro p. rewrite in_links_cons, length_app, repeat_length. reflexivity.
Qed.

(** X2.  On a graph with distinct keys whose link targets are all keys,
    the index returned by [build_incoming_links] holds as many entries as
    the graph has links: no link is lost and none is added, repeated links
    included. *)
Theorem incoming_links_count (graph : dict (list string)) :
  wf_dict graph -> closed graph ->
  exists incoming nodes,
    build_incoming_links graph = (graph, Ok (incoming, nodes)) /\
    list_sum (map (fun entry => List.length (snd entry)) incoming)
    = total_links graph.
Proof.
  intros Hwf Hcl. pose proof (keys_NoDup Hwf) as Hnd.
  exists (tabulate (keys graph) (in_links graph)), (keys graph).
  split; [now apply build_incoming_links_closed|].
  unfold tabulate, total_links, values. rewrite !map_map. cbn [snd].
  apply in_links_total; [assumption|].
  intros [page links] t. now apply closed_targets.
Qed.

Lemma incoming_links_count_witness :
  wf_dict double_graph /\ closed double_graph /\
  exists incoming nodes,
    build_incoming_links double_graph = (double_graph, Ok (incoming, nodes)) /\
    list_sum (map (fun entry => List.length (snd entry)) incoming)
    = total_links double_graph.
Proof.
  split; [reflexivity|]. split; [reflexivity|].
  apply (@incoming_links_count double_graph); reflexivity.
Defined.

(** ** When the loops stop *)

Section LoopExit.

Context {F : Type} {AF : Arith F}.

Variable graph : dict (list string).
Variable tv : dict F.
Variable d tol : F.

Hypothesis graph_wf : wf_dict graph.
Hypothesis graph_closed : closed graph.

Let ks : list string := keys graph.

Lemma page_rank_loop_exit (remaining done : nat) (r : string -> F) :
  exists n,
    page_rank_loop graph d tol remaining done (tabulate ks r)
    = Ok (tabulate ks (Nat.iter n (classic_update d graph) r), done + n) /\
    n <= remaining /\
    (forall k, S k < n ->
       fltb (l1_distance ks (Nat.iter (S k) (classic_update d graph) r)
                         (Nat.iter k (classic_update d graph) r)) tol = false) /\
    (n < remaining ->
     exists k, n = S k /\
       fltb (l1_distance ks (Nat.iter (S k) (classic_update d graph) r)
                         (Nat.iter k (classic_update d graph) r)) tol = true).
Proof.
  revert done r. induction remaining as [|remaining IH]; intros done r.
  - exists 0. simpl. rewrite Nat.add_0_r.
    split; [reflexivity|]. split; [lia|]. split; intros; lia.
  - cbn [page_rank_loop]. unfold ks.
    rewrite page_rank_iteration_tabulate by assumption. cbn [bind]. fold ks.
    destruct (fltb (l1_distance ks (classic_update d graph r) r) tol) eqn:E.
    + exists 1. rewrite Nat.add_1_r.
      split; [reflexivity|]. split; [lia|]. split.
      * intros k Hk. lia.
      * intros _. exists 0. split; [reflexivity | exact E].
    + destruct (IH (S done) (classic_update d graph r))
        as [n [Hrun [Hn [Hbefore Hexit]]]].
      exists (S n). rewrite iter_succ_inner.
      split; [rewrite Hrun; do 2 f_equal; lia|]. split; [lia|]. split.
      * intros k Hk. destruct k as [|k]; [exact E|].
        rewrite (iter_succ_inner (classic_update d graph) (S k) r),
                (iter_succ_inner (classic_update d graph) k r).
        apply Hbefore. lia.
      * intro Hlt. destruct Hexit as [k [-> Hk]]; [lia|].
        exists (S k). split; [reflexivity|].
        now rewrite (iter_succ_inner (classic_update d graph) (S k) r),
                    (iter_succ_inner (classic_update d graph) k r).
Qed.

Lemma topic_loop_exit (remaining done : nat) (r : string -> F) :
  exists n,
    topic_loop tv d tol remaining done graph ks (out_degrees graph ks)
               (tabulate ks r)
    = (graph, Ok (tabulate ks (Nat.iter n (topic_update tv d graph) r), done + n)) /\
    n <= remaining /\
    (0 < remaining -> 0 < n) /\
    (forall k, S k < n ->
       fltb (l1_distance ks (Nat.iter (S k) (topic_update tv d graph) r)
                         (Nat.iter k (topic_update tv d graph) r)) tol = false) /\
    (n < remaining ->
     exists k, n = S k /\
       fltb (l1_distance ks (Nat.iter (S k) (topic_update tv d graph) r)
                         (Nat.iter k (topic_update tv d graph) r)) tol = true).
Proof.
  revert done r. induction remaining as [|remaining IH]; intros done r.
  - exists 0. simpl. rewrite Nat.add_0_r.
    split; [reflexivity|]. split; [lia|]. split; [lia|]. split; intros; lia.
  - cbn [topic_loop]. unfold ks.
    rewrite topic_iteration_tabulate by assumption. fold ks.
    destruct (fltb (l1_distance ks (topic_update tv d graph r) r) tol) eqn:E.
    + exists 1. rewrite Nat.add_1_r.
      split; [reflexivity|]. split; [lia|]. split; [lia|]. split.
      * intros k Hk. lia.
      * intros _. exists 0. split; [reflexivity | exact E].
    + destruct (IH (S done) (topic_update tv d graph r))
        as [n [Hrun [Hn [_ [Hbefore Hexit]]]]].
      exists (S n). rewrite iter_succ_inner.
      split; [rewrite Hrun; do 3 f_equal; lia|].
      split; [lia|]. split; [lia|]. split.
      * intros k Hk. destruct k as [|k]; [exact E|].
        rewrite (iter_succ_inner (topic_update tv d graph) (S k) r),
                (iter_succ_inner (topic_update tv d graph) k r).
        apply Hbefore. lia.
      * intro Hlt. destruct Hexit as [k [-> Hk]]; [lia|].
        exists (S k). split; [reflexivity|].
        now rewrite (iter_succ_inner (topic_update tv d graph) (S k) r),
                    (iter_succ_inner (topic_update tv d graph) k r).
Qed.

End LoopExit.

(** X3.  On a graph with distinct keys whose link targets are all keys,
    each solver makes its passes until the first one whose L1 distance to
    the previous ranks is below the tolerance, and no further: every
    earlier pass had a distance that is not below the tolerance, and when
    the solver stops before its budget the last pass made has a distance
    below it.  ([page_rank_run] and [topic_pagerank_run] are the two
    solvers together with the number of passes made.) *)
Theorem loops_stop_at_first_small_step {F : Type} {AF : Arith F}
  (graph : dict (list string)) (tv : dict F) (d tol : F)
  (pages : dict (dict string)) (max_iterations : nat) :
  wf_dict graph -> closed graph -> positive_nonzero (F := F) ->
  (exists n,
      page_rank_run graph d tol max_iterations
      = Ok (tabulate (keys graph)
              (Nat.iter n (classic_update d graph) (uniform_rank graph)), n) /\
      (forall k, S k < n ->
         fltb (l1_distance (keys graph)
                 (Nat.iter (S k) (classic_update d graph) (uniform_rank graph))
                 (Nat.iter k (classic_update d graph) (uniform_rank graph)))
              tol = false) /\
      (n < max_iterations ->
       exists k, n = S k /\
         fltb (l1_distance (keys graph)
                 (Nat.iter (S k) (classic_update d graph) (uniform_rank graph))
                 (Nat.iter k (classic_update d graph) (uniform_rank graph)))
              tol = true)) /\
  (exists n,
      topic_pagerank_run tv d tol graph pages max_iterations
      = (graph,
         Ok (tabulate (keys graph)
               (normalized (keys graph)
                  (Nat.iter n (topic_update tv d graph) (uniform_rank graph))),
             n)) /\
      (forall k, S k < n ->
         fltb (l1_distance (keys graph)
                 (Nat.iter (S k) (topic_update tv d graph) (uniform_rank graph))
                 (Nat.iter k (topic_update tv d graph) (uniform_rank graph)))
              tol = false) /\
      (n < max_iterations ->
       exists k, n = S k /\
         fltb (l1_distance (keys graph)
                 (Nat.iter (S k) (topic_update tv d graph) (uniform_rank graph))
                 (Nat.iter k (topic_update tv d graph) (uniform_rank graph)))
              tol = true)).
Proof.
  intros Hwf Hcl Hlaw. split.
  - destruct (page_rank_loop_exit d tol Hwf Hcl max_iterations 0 (uniform_rank graph))
      as [n [Hrun [_ [Hbefore Hexit]]]].
    exists n. split; [|split; assumption].
    unfold page_rank_run. rewrite initial_ranks_ok. cbn [bind]. exact Hrun.
  - destruct (topic_loop_exit tv d tol Hwf Hcl max_iterations 0 (uniform_rank graph))
      as [n [Hrun [_ [_ [Hbefore Hexit]]]]].
    exists n. split; [|split; assumption].
    unfold topic_pagerank_run. rewrite topic_initial_ranks, Hrun.
    rewrite normalize_tabulate by assumption. reflexivity.
Qed.

Lemma loops_stop_at_first_small_step_witness :
  wf_dict sink_graph /\ closed sink_graph /\ positive_nonzero (F := Qc) /\
  exists n,
    page_rank_run sink_graph (q 85 100) (q 1 10) 100
    = Ok (tabulate (keys sink_graph)
            (Nat.iter n (classic_update (q 85 100) sink_graph)
                      (uniform_rank sink_graph)), n) /\
    (n < 100 ->
     exists k, n = S k /\
       fltb (l1_distance (keys sink_graph)
               (Nat.iter (S k) (classic_update (q 85 100) sink_graph)
                         (uniform_rank sink_graph))
               (Nat.iter k (classic_update (q 85 100) sink_graph)
                         (uniform_rank sink_graph)))
            (q 1 10) = true).
Proof.
  split; [reflexivity|]. split; [reflexivity|]. split; [exact Qc_positive_nonzero|].
  destruct (@loops_stop_at_first_small_step Qc Arith_Qc sink_graph
              [("A", q 1 2); ("B", q 1 2)] (q 85 100) (q 1 10) [] 100
              eq_refl eq_refl Qc_positive_nonzero)
    as [[n [Hrun [_ Hexit]]] _].
  exists n. split; assumption.
Defined.

(** ** Which weights of the teleportation vector matter *)

Section SameWeights.

Context {F : Type} {AF : Arith F}.

Variable graph : dict (list string).
Variable tv tv' : dict F.
Variable d tol : F.

Hypothesis graph_wf : wf_dict graph.
Hypothesis graph_closed : closed graph.
Hypothesis same_on_nodes :
  forall p, In p (keys graph) -> teleport tv p = teleport tv' p.

Let ks : list string := keys graph.

Lemma topic_update_same (r : string -> F) (p : string) :
  In p ks -> topic_update tv d graph r p = topic_update tv' d graph r p.
Proof. intro Hp. unfold topic_update. now rewrite same_on_nodes. Qed.

Lemma topic_loop_same (remaining done : nat) (r : string -> F) :
  topic_loop tv d tol remaining done graph ks (out_degrees graph ks) (tabulate ks r)
  = topic_loop tv' d tol remaining done graph ks (out_degrees graph ks)
               (tabulate ks r).
Proof.
  revert done r. induction remaining as [|remaining IH]; intros done r;
    [reflexivity|].
  cbn [topic_loop]. unfold ks.
  rewrite !topic_iteration_tabulate by assumption. fold ks.
  rewrite (tabulate_ext ks (topic_update tv d graph r) (topic_update tv' d graph r))
    by (intros p Hp; now apply topic_update_same).
  replace (l1_distance ks (topic_update tv d graph r) r)
    with (l1_distance ks (topic_update tv' d graph r) r).
  - destruct (fltb (l1_distance ks (topic_update tv' d graph r) r) tol);
      [reflexivity | apply IH].
  - unfold l1_distance. f_equal. apply map_ext_in. intros p Hp.
    now rewrite topic_update_same.
Qed.

End SameWeights.

(** X4.  On a graph with distinct keys whose link targets are all keys,
    [topic_pagerank] reads the teleportation vector only at the nodes:
    two vectors that give every node the same weight (a missing node
    counting as 0) lead to the same result, whatever other keys they hold.
    The [pages] argument is not read at all. *)
Theorem topic_pagerank_reads_node_weights {F : Type} {AF : Arith F}
  (graph : dict (list string)) (tv tv' : dict F) (d tol : F)
  (pages pages' : dict (dict string)) (max_iter : nat) :
  wf_dict graph -> closed graph ->
  (forall p, In p (keys graph) -> teleport tv p = teleport tv' p) ->
  topic_pagerank tv d tol graph pages max_iter
  = topic_pagerank tv' d tol graph pages' max_iter.
Proof.
  intros Hwf Hcl Hsame. unfold topic_pagerank, topic_pagerank_run.
  rewrite topic_initial_ranks.
  now rewrite (topic_loop_same tv tv' d tol Hwf Hcl Hsame).
Qed.

Lemma topic_pagerank_reads_node_weights_witness :
  wf_dict sink_graph /\ closed sink_graph /\
  topic_pagerank [("A", q 1 1)] (q 85 100) (q 1 1000) sink_graph [] 10
  = topic_pagerank [("Z", q 5 1); ("A", q 1 1); ("B", 0%Qc)] (q 85 100) (q 1 1000)
                   sink_graph example_pages 10.
Proof.
  split; [reflexivity|]. split; [reflexivity|].
  apply (@topic_pagerank_reads_node_weights Qc Arith_Qc sink_graph); try reflexivity.
  intros p Hp. simpl in Hp.
  destruct Hp as [<-|[<-|[]]]; reflexivity.
Defined.

(** ** The vector of [build_topic_vector], in exact arithmetic *)

Section TopicVectorFacts.

Local Open Scope Qc_scope.

Variable lower : string -> string.
Variable pages : dict (dict string).
Variable topic_keywords : list string.

Hypothesis pages_wf : wf_dict pages.

Let kws : list string := map lower topic_keywords.

(** Whether the page [pid] mentions a keyword. *)
Let hit (pid : string) : bool := matches lower kws (get_default pid [] pages).
Let weight (pid : string) : Qc := raw_weight lower kws (get_default pid [] pages).
Let total : Qc := fsum (map weight (keys pages)).

Lemma build_topic_vector_run :
  build_topic_vector lower pages topic_keywords
  = if feqb total fzero
    then Ok (tabulate (keys pages) (fun _ => 1 / of_nat (List.length pages)))
    else Ok (tabulate (keys pages) (fun pid => weight pid / total)).
Proof.
  unfold build_topic_vector. fold kws.
  rewrite topic_weights_closed_form by assumption.
  fold weight. fold total. destruct (feqb total fzero) eqn:E.
  - apply mapM_ok. intros pid Hpid.
    rewrite pdiv_int_pos; [reflexivity|].
    unfold keys in Hpid. apply in_map_iff in Hpid.
    destruct Hpid as [x [_ Hx]]. eapply in_length_pos; eassumption.
  - apply mapM_ok. intros pid Hpid. unfold getitem.
    rewrite get_tabulate by assumption. cbn [bind]. unfold pdiv.
    now rewrite E.
Qed.

Lemma weight_hit (pid : string) : weight pid = if hit pid then 1 else 0.
Proof. reflexivity. Qed.

Lemma weight_nonneg (pid : string) : 0 <= weight pid.
Proof. rewrite weight_hit. destruct (hit pid); discriminate. Qed.

Lemma fsum_hits (l : list string) :
  fsum (map weight l) = of_nat (List.length (filter hit l)).
Proof.
  induction l as [|p l IH]; cbn [map filter].
  - rewrite fsum_nil. symmetry. apply of_nat_zero.
  - rewrite fsum_cons, IH, weight_hit. destruct (hit p).
    + cbn [List.length]. rewrite of_nat_succ. ring.
    + ring.
Qed.

Lemma total_hits : total = of_nat (List.length (filter hit (keys pages))).
Proof. apply fsum_hits. Qed.

Lemma feqb_zero (x : Qc) : feqb x fzero = true <-> x = 0.
Proof.
  qc_ops. split.
  - destruct (x ?= 0) eqn:E; try discriminate. intros _. now apply Qceq_alt.
  - intros ->. reflexivity.
Qed.

Lemma teleport_tabulate (ks : list string) (f : string -> Qc) (p : string) :
  In p ks -> teleport (tabulate ks f) p = f p.
Proof. intro Hp. unfold teleport, get_default. now rewrite get_tabulate. Qed.

Lemma build_topic_vector_distribution :
  pages <> [] ->
  exists v,
    build_topic_vector lower pages topic_keywords = Ok v /\
    keys v = keys pages /\
    valid_teleport v (keys pages).
Proof.
  intro Hne. rewrite build_topic_vector_run.
  assert (of_nat (F := Qc) (List.length pages) <> 0) as HN
    by (apply of_nat_nonzero; destruct pages; [congruence | simpl; lia]).
  destruct (feqb total fzero) eqn:E.
  - eexists. split; [reflexivity|]. split; [apply keys_tabulate|]. split.
    + rewrite (fsum_ext _ (fun _ => 1 / of_nat (List.length pages)))
        by (intros p Hp; now apply teleport_tabulate).
      rewrite fsum_const. unfold keys. rewrite length_map. now field.
    + intros p Hp. rewrite teleport_tabulate by assumption.
      apply Qcdiv_nonneg; [discriminate | apply of_nat_nonneg].
  - assert (total <> 0) as Ht
      by (intro H; apply feqb_zero in H; congruence).
    eexists. split; [reflexivity|]. split; [apply keys_tabulate|]. split.
    + rewrite (fsum_ext _ (fun pid => / total * weight pid)).
      * rewrite fsum_scale. fold total. now field.
      * intros p Hp. rewrite teleport_tabulate by assumption.
        unfold Qcdiv. ring.
    + intros p Hp. rewrite teleport_tabulate by assumption.
      apply Qcdiv_nonneg; [apply weight_nonneg|].
      unfold total. apply fsum_nonneg. intros x _. apply weight_nonneg.
Qed.

Lemma build_topic_vector_shares :
  (0 < List.length (filter hit (keys pages)))%nat ->
  build_topic_vector lower pages topic_keywords
  = Ok (tabulate (keys pages)
          (fun pid =>
             if hit pid
             then 1 / of_nat (List.length (filter hit (keys pages)))
             else 0)).
Proof.
  intro Hk. rewrite build_topic_vector_run.
  pose proof (of_nat_nonzero Hk) as Hnz. rewrite <- total_hits in Hnz.
  destruct (feqb total fzero) eqn:E; [apply feqb_zero in E; congruence|].
  f_equal. apply tabulate_ext. intros pid _.
  rewrite weight_hit, <- total_hits. destruct (hit pid); [reflexivity|].
  unfold Qcdiv. ring.
Qed.

Lemma build_topic_vector_no_hit :
  filter hit (keys pages) = [] ->
  build_topic_vector lower pages topic_keywords
  = Ok (tabulate (keys pages) (fun _ => 1 / of_nat (List.length pages))).
Proof.
  intro Hk. rewrite build_topic_vector_run.
  assert (total = 0) as Ht by (rewrite total_hits, Hk; apply of_nat_zero).
  apply feqb_zero in Ht. now rewrite Ht.
Qed.

Lemma build_topic_vector_all_hit :
  (forall pid, hit pid = true) ->
  build_topic_vector lower pages topic_keywords
  = Ok (tabulate (keys pages) (fun _ => 1 / of_nat (List.length pages))).
Proof.
  intro Hall.
  assert (filter hit (keys pages) = keys pages) as Hf.
  { apply forallb_filter_id. apply forallb_forall. intros x _. apply Hall. }
  destruct (Nat.eq_dec (List.length (keys pages)) 0) as [Hz|Hnz].
  - apply build_topic_vector_no_hit. rewrite Hf.
    now apply length_zero_iff_nil.
  - rewrite build_topic_vector_shares by (rewrite Hf; lia).
    f_equal. apply tabulate_ext. intros pid _. rewrite Hall, Hf.
    unfold keys. now rewrite length_map.
Qed.

End TopicVectorFacts.

(** X5.  In exact arithmetic, for every non-empty set of pages with
    distinct ids, every keyword list and every lower-casing function,
    [build_topic_vector] returns a probability distribution over the
    pages: one weight per page, in the order of the pages, no weight
    negative, and the weights sum to 1. *)
Theorem topic_vector_is_distribution (lower : string -> string)
  (pages : dict (dict string)) (topic_keywords : list string) :
  wf_dict pages -> pages <> [] ->
  exists v,
    build_topic_vector (F := Qc) lower pages topic_keywords = Ok v /\
    keys v = keys pages /\
    valid_teleport v (keys pages).
Proof. intros Hwf Hne. now apply build_topic_vector_distribution. Qed.

Lemma topic_vector_is_distribution_witness :
  wf_dict example_pages /\ example_pages <> [] /\
  exists v,
    build_topic_vector (F := Qc) lower_ascii example_pages ["pagerank"] = Ok v /\
    keys v = keys example_pages /\
    valid_teleport v (keys example_pages).
Proof.
  split; [reflexivity|]. split; [discriminate|].
  apply (@topic_vector_is_distribution lower_ascii example_pages ["pagerank"]);
    [reflexivity | discriminate].
Defined.

(** X6.  In exact arithmetic, when [k >= 1] pages mention a keyword (in
    their lower-cased title and content), [build_topic_vector] gives each
    of these pages the weight [1/k] and every other page the weight 0. *)
Theorem matching_pages_share_equally (lower : string -> string)
  (pages : dict (dict string)) (topic_keywords : list string) :
  wf_dict pages ->
  let hit := fun pid =>
    matches lower (map lower topic_keywords) (get_default pid [] pages) in
  let k := List.length (filter hit (keys pages)) in
  0 < k ->
  build_topic_vector (F := Qc) lower pages topic_keywords
  = Ok (tabulate (keys pages)
          (fun pid => if hit pid then (1 / of_nat k)%Qc else 0%Qc)).
Proof. intros Hwf hit k Hk. now apply build_topic_vector_shares. Qed.

Lemma matching_pages_share_equally_witness :
  wf_dict example_pages /\
  0 < List.length
        (filter (fun pid => matches lower_ascii (map lower_ascii ["Rank"; "recipe"])
                                    (get_default pid [] example_pages))
                (keys example_pages)) /\
  build_topic_vector (F := Qc) lower_ascii example_pages ["Rank"; "recipe"]
  = Ok (tabulate (keys example_pages)
          (fun pid =>
             if matches lower_ascii (map lower_ascii ["Rank"; "recipe"])
                        (get_default pid [] example_pages)
             then (1 / of_nat
                         (List.length
                            (filter (fun pid => matches lower_ascii
                                                  (map lower_ascii ["Rank"; "recipe"])
                                                  (get_default pid [] example_pages))
                                    (keys example_pages))))%Qc
             else 0%Qc)).
Proof.
  split; [reflexivity|]. split; [vm_compute; lia|].
  apply (@matching_pages_share_equally lower_ascii example_pages ["Rank"; "recipe"]).
  - reflexivity.
  - vm_compute. lia.
Defined.

Lemma filter_none {A : Type} (f : A -> bool) (l : list A) :
  (forall x, In x l -> f x = false) -> filter f l = [].
Proof.
  induction l as [|x l IH]; simpl; intro H; [reflexivity|].
  rewrite H by now left. apply IH. intros y Hy. apply H. now right.
Qed.

Lemma substringb_empty (text : string) : substringb "" text = true.
Proof. destruct text; reflexivity. Qed.

(** X7.  In exact arithmetic, [build_topic_vector] returns the uniform
    vector [{pid: 1/N}] when no keyword is given, and also when one of the
    lower-cased keywords is the empty string: the empty string occurs in
    every text, so every page matches. *)
Theorem blank_keywords_give_uniform_vector (lower : string -> string)
  (pages : dict (dict string)) (topic_keywords : list string) :
  wf_dict pages ->
  topic_keywords = [] \/ In "" (map lower topic_keywords) ->
  build_topic_vector (F := Qc) lower pages topic_keywords
  = Ok (tabulate (keys pages) (fun _ => (1 / of_nat (List.length pages))%Qc)).
Proof.
  intros Hwf [->|Hblank].
  - apply build_topic_vector_no_hit; [assumption|].
    apply filter_none. reflexivity.
  - apply build_topic_vector_all_hit; [assumption|].
    intro pid. unfold matches. apply existsb_exists.
    exists "". split; [assumption | apply substringb_empty].
Qed.

Lemma blank_keywords_give_uniform_vector_witness :
  wf_dict example_pages /\
  (["x"; ""] = [] \/ In "" (map lower_ascii ["x"; ""])) /\
  build_topic_vector (F := Qc) lower_ascii example_pages ["x"; ""]
  = Ok (tabulate (keys example_pages)
          (fun _ => (1 / of_nat (List.length example_pages))%Qc)).
Proof.
  split; [reflexivity|]. split; [right; right; now left|].
  apply (@blank_keywords_give_uniform_vector lower_ascii example_pages ["x"; ""]).
  - reflexivity.
  - right. right. now left.
Defined.

(** ** Total rank and the damping factor, in exact arithmetic *)

Section TotalRank.

Local Open Scope Qc_scope.

Variable graph : dict (list string).
Variable tv : dict Qc.
Variable d : Qc.

Hypothesis graph_wf : wf_dict graph.
Hypothesis graph_closed : closed graph.
Hypothesis tv_total : fsum (map (teleport tv) (keys graph)) = 1.

Let ks : list string := keys graph.

Lemma topic_update_total (r : string -> Qc) :
  fsum (map (topic_update tv d graph r) ks) = (1 - d) + d * fsum (map r ks).
Proof.
  unfold topic_update. qc_ops.
  rewrite (fsum_update_form (1 - d) d (dangling_of graph r) (teleport tv)
             (link_sum graph r) ks).
  unfold ks. rewrite tv_total.
  pose proof (link_mass graph_wf graph_closed r (incl_refl graph)) as H.
  unfold link_sum at 1. unfold dangling_of. qc_ops.
  rewrite !Qcmult_1_r, H. reflexivity.
Qed.

Lemma graph_nonempty : graph <> [].
Proof.
  intro E. rewrite E in tv_total. simpl in tv_total. discriminate tv_total.
Qed.

Lemma classic_update_total (r : string -> Qc) :
  fsum (map (classic_update d graph r) ks) = (1 - d) + d * fsum (map r ks).
Proof.
  rewrite (fsum_ext _ (topic_update (tabulate ks (uniform_rank graph)) d graph r))
    by (intros p Hp; now apply classic_update_uniform).
  unfold topic_update. qc_ops.
  rewrite (fsum_update_form (1 - d) d (dangling_of graph r)
             (teleport (tabulate ks (uniform_rank graph))) (link_sum graph r) ks).
  rewrite (fsum_ext (teleport (tabulate ks (uniform_rank graph))) (uniform_rank graph))
    by (intros p Hp; now apply teleport_tabulate).
  unfold ks. rewrite (uniform_mass graph_wf graph_closed graph_nonempty).
  pose proof (link_mass graph_wf graph_closed r (incl_refl graph)) as H.
  unfold link_sum at 1. unfold dangling_of. qc_ops.
  rewrite !Qcmult_1_r, H. reflexivity.
Qed.

End TotalRank.

(** X8.  In exact arithmetic, on a graph with distinct keys whose link
    targets are all keys and with a teleportation vector whose weights sum
    to 1 over the nodes, one pass of either loop started from any rank
    vector of total [m] produces a rank vector of total [1 - d + d * m]:
    dangling pages and links lose no rank, and an error in the total shrinks
    by the factor [d] with every pass. *)
Theorem pass_total_rank (graph : dict (list string)) (tv : dict Qc) (d : Qc)
  (ranks : dict Qc) :
  wf_dict graph -> closed graph ->
  fsum (map (teleport tv) (keys graph)) = 1%Qc ->
  keys ranks = keys graph ->
  (exists new_ranks diff,
      page_rank_iteration graph d ranks = Ok (new_ranks, diff) /\
      fsum (values new_ranks) = (1 - d + d * fsum (values ranks))%Qc) /\
  (exists new_ranks diff,
      topic_iteration tv d graph (keys graph) (out_degrees graph (keys graph)) ranks
      = (graph, Ok (new_ranks, diff)) /\
      fsum (values new_ranks) = (1 - d + d * fsum (values ranks))%Qc).
Proof.
  intros Hwf Hcl Htv Hkeys.
  assert (ranks = tabulate (keys graph) (rank_of ranks)) as Hr.
  { rewrite <- Hkeys. apply tabulate_keys. rewrite Hkeys. now apply keys_NoDup. }
  set (r := rank_of ranks) in *. clearbody r. subst ranks. split.
  - rewrite page_rank_iteration_tabulate by assumption.
    eexists. eexists. split; [reflexivity|].
    rewrite !values_tabulate. now apply classic_update_total with (tv := tv).
  - rewrite topic_iteration_tabulate by assumption.
    eexists. eexists. split; [reflexivity|].
    rewrite !values_tabulate. now apply topic_update_total.
Qed.

Lemma pass_total_rank_witness :
  wf_dict sink_graph /\ closed sink_graph /\
  fsum (map (teleport [("A", q 1 4); ("B", q 3 4)]) (keys sink_graph)) = 1%Qc /\
  exists new_ranks diff,
    topic_iteration [("A", q 1 4); ("B", q 3 4)] (q 85 100) sink_graph
      (keys sink_graph) (out_degrees sink_graph (keys sink_graph))
      [("A", q 2 1); ("B", q 1 1)]
    = (sink_graph, Ok (new_ranks, diff)) /\
    fsum (values new_ranks)
    = (1 - q 85 100 + q 85 100 * fsum (values [("A", q 2 1); ("B", q 1 1)]))%Qc.
Proof.
  split; [reflexivity|]. split; [reflexivity|].
  split; [apply Qc_is_canon; reflexivity|].
  apply (@pass_total_rank sink_graph [("A", q 1 4); ("B", q 3 4)] (q 85 100)
           [("A", q 2 1); ("B", q 1 1)]);
    try reflexivity.
  apply Qc_is_canon. reflexivity.
Defined.

(** X9.  In exact arithmetic, with damping factor 0 the links play no
    part.  On a graph with distinct keys whose link targets are all keys,
    [page_rank] returns the uniform ranks [1/N] for every budget, and
    [topic_pagerank], given a teleportation vector that sums to 1 over the
    nodes and a budget of at least one pass, returns the weight of each
    node as its rank. *)
Theorem zero_damping_returns_teleport (graph : dict (list string))
  (tv : dict Qc) (tol : Qc) (pages : dict (dict string)) (max_iter : nat) :
  wf_dict graph -> closed graph ->
  fsum (map (teleport tv) (keys graph)) = 1%Qc ->
  0 < max_iter ->
  page_rank graph 0%Qc tol max_iter
  = Ok (tabulate (keys graph) (uniform_rank graph)) /\
  topic_pagerank tv 0%Qc tol graph pages max_iter
  = (graph, Ok (tabulate (keys graph) (teleport tv))).
Proof.
  intros Hwf Hcl Htv Hpos.
  assert (forall tv' r p, topic_update tv' 0%Qc graph r p = teleport tv' p) as Hzero
    by (intros tv' r p; unfold topic_update; qc_ops; ring).
  split.
  - destruct (page_rank_run_iter 0%Qc tol Hwf Hcl max_iter) as [n [_ [Hrun _]]].
    unfold page_rank. rewrite Hrun. cbn [bind fst]. f_equal.
    apply tabulate_ext.
    apply (iter_invariant
             (fun r => forall p, In p (keys graph) -> r p = uniform_rank graph p));
      [|reflexivity].
    intros r _ p Hp. rewrite classic_update_uniform by assumption.
    rewrite Hzero. now apply teleport_tabulate.
  - destruct (topic_loop_exit tv 0%Qc tol Hwf Hcl max_iter 0 (uniform_rank graph))
      as [n [Hrun [_ [Hn _]]]].
    specialize (Hn Hpos). destruct n as [|n]; [lia|].
    unfold topic_pagerank, topic_pagerank_run.
    rewrite topic_initial_ranks, Hrun.
    rewrite (tabulate_ext (keys graph) _ (teleport tv))
      by (intros p _; cbn [Nat.iter]; apply Hzero).
    rewrite normalize_unit_mass by assumption. reflexivity.
Qed.

Lemma zero_damping_returns_teleport_witness :
  wf_dict sink_graph /\ closed sink_graph /\
  fsum (map (teleport [("A", q 1 4); ("B", q 3 4)]) (keys sink_graph)) = 1%Qc /\
  0 < 5 /\
  topic_pagerank [("A", q 1 4); ("B", q 3 4)] 0%Qc (q 1 1000) sink_graph [] 5
  = (sink_graph, Ok (tabulate (keys sink_graph) (teleport [("A", q 1 4); ("B", q 3 4)]))).
Proof.
  split; [reflexivity|]. split; [reflexivity|].
  split; [apply Qc_is_canon; reflexivity|]. split; [lia|].
  apply (@zero_damping_returns_teleport sink_graph [("A", q 1 4); ("B", q 3 4)]
           (q 1 1000) [] 5); try reflexivity; try lia.
  apply Qc_is_canon. reflexivity.
Defined.

(** ** What [page_rank] prints *)

Section PageRankOutput.

Context {F : Type} {AF : Arith F}.

Variable graph : dict (list string).
Variable d tol : F.
Variable max_iterations : nat.

(** The loop with its output returns what the loop without returns, and
    prints one line when it returns: the budget when the budget is used
    up, else the number of passes and a difference below the tolerance. *)
Lemma page_rank_loop_printing_spec (remaining done : nat) (ranks : dict F) :
  match page_rank_loop graph d tol remaining done ranks with
  | Raise e =>
      page_rank_loop_printing graph d tol max_iterations remaining done ranks
      = ([], Raise e)
  | Ok (last, n) =>
      (page_rank_loop_printing graph d tol max_iterations remaining done ranks
       = ([MaximumReached max_iterations], Ok last) /\
       n = done + remaining) \/
      (exists diff,
          page_rank_loop_printing graph d tol max_iterations remaining done ranks
          = ([Converged n diff], Ok last) /\
          done < n <= done + remaining /\
          fltb diff tol = true)
  end.
Proof.
  revert done ranks. induction remaining as [|remaining IH]; intros done ranks.
  - cbn [page_rank_loop page_rank_loop_printing]. left. split; [reflexivity | lia].
  - cbn [page_rank_loop page_rank_loop_printing].
    destruct (page_rank_iteration graph d ranks) as [[new_ranks diff]|e];
      cbn [bind]; [|reflexivity].
    destruct (fltb diff tol) eqn:E.
    + right. exists diff. split; [reflexivity|]. split; [lia | exact E].
    + specialize (IH (S done) new_ranks).
      destruct (page_rank_loop graph d tol remaining (S done) new_ranks)
        as [[last n]|e]; [|exact IH].
      destruct IH as [[Hrun Hn]|[diff' [Hrun [Hn Hdiff]]]].
      * left. split; [exact Hrun | lia].
      * right. exists diff'. split; [exact Hrun|]. split; [lia | exact Hdiff].
Qed.

Lemma page_rank_printing_spec :
  match page_rank_run graph d tol max_iterations with
  | Raise e => page_rank_printing graph d tol max_iterations = ([], Raise e)
  | Ok (last, n) =>
      (page_rank_printing graph d tol max_iterations
       = ([MaximumReached max_iterations], Ok last) /\
       n = max_iterations) \/
      (exists diff,
          page_rank_printing graph d tol max_iterations
          = ([Converged n diff], Ok last) /\
          0 < n <= max_iterations /\
          fltb diff tol = true)
  end.
Proof.
  unfold page_rank_run, page_rank_printing.
  destruct (initial_ranks graph) as [ranks|e]; cbn [bind]; [|reflexivity].
  exact (page_rank_loop_printing_spec max_iterations 0 ranks).
Qed.

Lemma page_rank_printing_raises (e : exn) :
  page_rank graph d tol max_iterations = Raise e ->
  page_rank_printing graph d tol max_iterations = ([], Raise e).
Proof.
  intro H. pose proof page_rank_printing_spec as Hspec.
  unfold page_rank in H.
  destruct (page_rank_run graph d tol max_iterations) as [[last n]|e'];
    cbn [bind] in H; [discriminate H|].
  now injection H as <-.
Qed.

Lemma page_rank_printing_returns (ranks : dict F) :
  page_rank graph d tol max_iterations = Ok ranks ->
  exists first,
    page_rank_printing graph d tol max_iterations = ([first], Ok ranks) /\
    (first = MaximumReached max_iterations \/
     exists n diff,
       first = Converged n diff /\ 0 < n <= max_iterations /\
       fltb diff tol = true).
Proof.
  intro H. pose proof page_rank_printing_spec as Hspec.
  unfold page_rank in H.
  destruct (page_rank_run graph d tol max_iterations) as [[last n]|e'];
    cbn [bind fst] in H; [|discriminate H].
  injection H as <-.
  destruct Hspec as [[Hrun _]|[diff [Hrun [Hn Hdiff]]]].
  - exists (MaximumReached max_iterations). split; [exact Hrun | now left].
  - exists (Converged n diff). split; [exact Hrun|]. right.
    exists n, diff. split; [reflexivity|]. split; assumption.
Qed.

End PageRankOutput.

Lemma page_rank_loop_printing_empty {F : Type} {AF : Arith F} (d tol : F)
  (max_iterations remaining done : nat) :
  page_rank_loop_printing [] d tol max_iterations remaining done []
  = ([if (Nat.ltb 0 remaining && fltb fzero tol)%bool
      then Converged (S done) fzero
      else MaximumReached max_iterations],
     Ok []).
Proof.
  revert done. induction remaining as [|remaining IH]; intro done.
  - reflexivity.
  - cbn [page_rank_loop_printing].
    change (page_rank_iteration [] d []) with (Ok (@nil (string * F), fzero)).
    cbn [Nat.ltb Nat.leb andb]. destruct (fltb fzero tol) eqn:E; [reflexivity|].
    rewrite IH, andb_false_r. reflexivity.
Qed.

Lemma page_rank_printing_empty {F : Type} {AF : Arith F} (d tol : F)
  (max_iterations : nat) :
  page_rank_printing [] d tol max_iterations
  = ([if (Nat.ltb 0 max_iterations && fltb fzero tol)%bool
      then Converged 1 fzero
      else MaximumReached max_iterations],
     Ok []).
Proof. exact (page_rank_loop_printing_empty d tol max_iterations max_iterations 0). Qed.

(** ** The report of [print_rankings] *)

Section ReportRows.

Context {F : Type} {AF : Arith F}.

Variable graph : dict (list string).

Lemma print_rows_ok (rows : list (string * F)) (out : list (line F)) :
  (forall item, In item rows -> contains_key (fst item) graph = true) ->
  print_rows graph rows out = (out ++ map (rank_line graph) rows, Ok tt).
Proof.
  revert out. induction rows as [|[page score] rows IH]; intros out H.
  - simpl. now rewrite app_nil_r.
  - cbn [print_rows]. pose proof (H (page, score) (in_eq _ _)) as Hp.
    unfold contains_key in Hp. cbn [fst] in Hp. unfold getitem.
    destruct (get page graph) as [links|] eqn:E; [|discriminate].
    rewrite IH by (intros item Hitem; apply H; now right).
    rewrite <- app_assoc. cbn [app map]. unfold rank_line at 2.
    cbn [fst snd]. unfold out_degree, out_links, get_default. now rewrite E.
Qed.

Lemma print_rows_raise (pre rest : list (string * F)) (page : string)
  (score : F) (out : list (line F)) :
  (forall item, In item pre -> contains_key (fst item) graph = true) ->
  contains_key page graph = false ->
  print_rows graph (pre ++ (page, score) :: rest) out
  = (out ++ map (rank_line graph) pre, Raise (KeyError page)).
Proof.
  revert out. induction pre as [|[p s] pre IH]; intros out H Hpage.
  - cbn [app print_rows map]. unfold contains_key in Hpage. unfold getitem.
    destruct (get page graph); [discriminate|]. now rewrite app_nil_r.
  - cbn [app print_rows]. pose proof (H (p, s) (in_eq _ _)) as Hp.
    unfold contains_key in Hp. cbn [fst] in Hp. unfold getitem.
    destruct (get p graph) as [links|] eqn:E; [|discriminate].
    rewrite IH by (try assumption; intros item Hitem; apply H; now right).
    rewrite <- app_assoc. cbn [app map]. unfold rank_line at 2.
    cbn [fst snd]. unfold out_degree, out_links, get_default. now rewrite E.
Qed.

Lemma insert_desc_perm (x : string * F) (l : list (string * F)) :
  Permutation (insert_desc x l) (x :: l).
Proof.
  induction l as [|y l IH]; simpl; [apply Permutation_refl|].
  destruct (fltb (snd x) (snd y)); [|apply Permutation_refl].
  eapply perm_trans; [apply perm_skip, IH | apply perm_swap].
Qed.

Lemma sorted_desc_perm (items : list (string * F)) :
  Permutation (sorted_desc items) items.
Proof.
  induction items as [|x items IH]; simpl; [constructor|].
  eapply perm_trans; [apply insert_desc_perm | now apply perm_skip].
Qed.

Lemma list_sum_perm (l l' : list nat) :
  Permutation l l' -> list_sum l = list_sum l'.
Proof. induction 1; simpl; lia. Qed.

Lemma inbound_column_app (a b : list (line F)) :
  inbound_column (a ++ b) = inbound_column a + inbound_column b.
Proof. unfold inbound_column. now rewrite map_app, list_sum_app. Qed.

Lemma outbound_column_app (a b : list (line F)) :
  outbound_column (a ++ b) = outbound_column a + outbound_column b.
Proof. unfold outbound_column. now rewrite map_app, list_sum_app. Qed.

Lemma inbound_column_rows (rows : list (string * F)) :
  inbound_column (map (rank_line graph) rows)
  = list_sum (map (inbound_count graph) (map fst rows)).
Proof. unfold inbound_column. now rewrite !map_map. Qed.

Lemma outbound_column_rows (rows : list (string * F)) :
  outbound_column (map (rank_line graph) rows)
  = list_sum (map (out_degree graph) (map fst rows)).
Proof. unfold outbound_column. now rewrite !map_map. Qed.

(** The sort of the library returns a rearrangement of its input. *)
Variable sorted_by_score : list (string * F) -> list (string * F).

Hypothesis sorted_permutation :
  forall items, Permutation (sorted_by_score items) items.

(** A successful report, line by line. *)
Lemma print_rankings_ok (ranks : dict F) :
  (forall p, In p (keys ranks) -> contains_key p graph = true) ->
  ranks <> [] ->
  print_rankings sorted_by_score ranks graph
  = (report_header ++ map (rank_line graph) (sorted_by_score ranks)
       ++ statistics_header
       ++ statistics graph
            (fdivide (fsum (values ranks)) (of_nat (List.length ranks))),
     Ok tt).
Proof.
  intros Hkeys Hne. unfold print_rankings.
  rewrite print_rows_ok.
  - destruct ranks as [|item rest]; [congruence|].
    cbn [List.length pdiv_int]. unfold statistics.
    rewrite <- !app_assoc. reflexivity.
  - intros item Hitem. apply Hkeys. unfold keys. apply in_map.
    eapply Permutation_in; [apply sorted_permutation | exact Hitem].
Qed.

Lemma print_rankings_empty :
  print_rankings sorted_by_score [] graph
  = (report_header ++ statistics_header
       ++ [TotalPages (List.length graph); TotalLinks (total_links graph)],
     Raise ZeroDivisionError).
Proof.
  unfold print_rankings.
  rewrite (Permutation_nil (Permutation_sym (sorted_permutation []))).
  reflexivity.
Qed.

End ReportRows.

(** The sum of the [Out] figures over the keys is the number of links; the
    sum of the [In] figures is at most that, and equal to it when no page
    repeats a link and every target is a key. *)
Lemma outbound_total (graph : dict (list string)) :
  wf_dict graph ->
  list_sum (map (out_degree graph) (keys graph)) = total_links graph.
Proof.
  intro Hwf. pose proof (keys_NoDup Hwf) as Hnd.
  unfold total_links, values, keys. rewrite !map_map.
  f_equal. apply map_ext_in. intros [page links] Hin. cbn [fst snd].
  unfold out_degree, out_links, get_default.
  now rewrite (get_in graph page links Hnd Hin).
Qed.

Lemma member_count (ks links : list string) :
  NoDup ks ->
  list_sum (map (fun p => if existsb (String.eqb p) links then 1 else 0) ks)
  <= List.length links.
Proof.
  revert links. induction ks as [|k ks IH]; intros links Hnd; simpl; [lia|].
  inversion Hnd as [|? ? Hk Hnd']; subst.
  destruct (existsb (String.eqb k) links) eqn:E.
  - apply existsb_exists in E. destruct E as [x [Hx Hkx]].
    apply String.eqb_eq in Hkx. subst x.
    destruct (in_split _ _ Hx) as [l1 [l2 ->]].
    specialize (IH (l1 ++ l2) Hnd').
    rewrite length_app in *. cbn [List.length].
    assert (map (fun p => if existsb (String.eqb p) (l1 ++ k :: l2) then 1 else 0) ks
            = map (fun p => if existsb (String.eqb p) (l1 ++ l2) then 1 else 0) ks)
      as ->; [|lia].
    apply map_ext_in. intros p Hp. rewrite !existsb_app. cbn [existsb].
    assert (String.eqb p k = false) as ->
      by (apply String.eqb_neq; intro; subst; contradiction).
    reflexivity.
  - specialize (IH links Hnd'). lia.
Qed.

Lemma member_count_exact (ks links : list string) :
  NoDup ks -> NoDup links -> (forall t, In t links -> In t ks) ->
  list_sum (map (fun p => if existsb (String.eqb p) links then 1 else 0) ks)
  = List.length links.
Proof.
  intros Hks Hlinks Hin.
  rewrite <- (@list_sum_count_occ ks links Hks Hin) at 1.
  f_equal. apply map_ext. intro p.
  destruct (existsb (String.eqb p) links) eqn:E.
  - apply existsb_exists in E. destruct E as [x [Hx Hpx]].
    apply String.eqb_eq in Hpx. subst x.
    symmetry. apply NoDup_count_occ'; assumption.
  - symmetry. apply count_occ_not_In. intro Hp.
    assert (existsb (String.eqb p) links = true) as E'
      by (apply existsb_exists; exists p; split; [assumption | apply String.eqb_refl]).
    congruence.
Qed.

Lemma inbound_total_le (ks : list string) (its : dict (list string)) :
  NoDup ks ->
  list_sum (map (inbound_count its) ks) <= total_links its.
Proof.
  intro Hnd. induction its as [|[src links] its IH].
  - rewrite list_sum_map_zero; [apply Nat.le_0_l | reflexivity].
  - rewrite (map_ext _ (fun p => (if existsb (String.eqb p) links then 1 else 0)
                                 + inbound_count its p))
      by (intro p; unfold inbound_count; simpl;
          destruct (existsb (String.eqb p) links); reflexivity).
    rewrite list_sum_map_add. unfold total_links in *. simpl.
    pose proof (member_count links Hnd). lia.
Qed.

Lemma inbound_total (ks : list string) (its : dict (list string)) :
  NoDup ks ->
  (forall item, In item its -> NoDup (snd item)) ->
  (forall item t, In item its -> In t (snd item) -> In t ks) ->
  list_sum (map (inbound_count its) ks) = total_links its.
Proof.
  intros Hnd. induction its as [|[src links] its IH]; intros Hlinks Hin.
  - rewrite list_sum_map_zero; reflexivity.
  - rewrite (map_ext _ (fun p => (if existsb (String.eqb p) links then 1 else 0)
                                 + inbound_count its p))
      by (intro p; unfold inbound_count; simpl;
          destruct (existsb (String.eqb p) links); reflexivity).
    rewrite list_sum_map_add. unfold total_links in *. simpl.
    rewrite member_count_exact, IH.
    + reflexivity.
    + intros item Hitem. apply Hlinks. now right.
    + intros item t Hitem. apply Hin. now right.
    + assumption.
    + apply (Hlinks (src, links)). now left.
    + intros t Ht. apply (Hin (src, links)); [now left | assumption].
Qed.

(** *** The order of the rows, in exact arithmetic *)

Lemma Qc_fltb_true (x y : Qc) : fltb x y = true -> (x < y)%Qc.
Proof.
  cbn. intro H. apply Qclt_alt. destruct (x ?= y)%Qc; congruence.
Qed.

Lemma Qc_fltb_false (x y : Qc) : fltb x y = false -> (y <= x)%Qc.
Proof.
  cbn. intro H. apply Qcge_alt. destruct (x ?= y)%Qc; congruence.
Qed.

Lemma Qc_feqb_true (x y : Qc) : feqb x y = true -> x = y.
Proof.
  cbn. intro H. apply Qceq_alt. destruct (x ?= y)%Qc; congruence.
Qed.

Lemma insert_desc_sorted (x : string * Qc) (l : list (string * Qc)) :
  StronglySorted (fun a b => (snd b <= snd a)%Qc) l ->
  StronglySorted (fun a b => (snd b <= snd a)%Qc) (insert_desc x l).
Proof.
  induction 1 as [|y l Hl IH Hy]; cbn [insert_desc].
  - constructor; constructor.
  - destruct (fltb (snd x) (snd y)) eqn:E.
    + constructor; [exact IH|].
      apply (Permutation_Forall (Permutation_sym (insert_desc_perm x l))).
      constructor; [|exact Hy].
      apply Qclt_le_weak. now apply Qc_fltb_true.
    + apply Qc_fltb_false in E.
      constructor; [now constructor|].
      constructor; [exact E|].
      eapply Forall_impl; [|exact Hy].
      intros z Hz. cbn beta in *. eapply Qcle_trans; eassumption.
Qed.

Lemma sorted_desc_sorted (items : list (string * Qc)) :
  StronglySorted (fun a b => (snd b <= snd a)%Qc) (sorted_desc items).
Proof.
  induction items as [|x items IH]; simpl; [constructor|].
  now apply insert_desc_sorted.
Qed.

Lemma insert_desc_stable (v : Qc) (x : string * Qc) (l : list (string * Qc)) :
  filter (fun item => feqb (snd item) v) (insert_desc x l)
  = filter (fun item => feqb (snd item) v) (x :: l).
Proof.
  induction l as [|y l IH]; cbn [insert_desc]; [reflexivity|].
  destruct (fltb (snd x) (snd y)) eqn:E; [|reflexivity].
  cbn [filter] in *. rewrite IH.
  destruct (feqb (snd x) v) eqn:Ex; [|reflexivity].
  destruct (feqb (snd y) v) eqn:Ey; [|reflexivity].
  apply Qc_feqb_true in Ex, Ey. apply Qc_fltb_true in E.
  apply Qclt_not_eq in E. congruence.
Qed.

Lemma sorted_desc_stable (v : Qc) (items : list (string * Qc)) :
  filter (fun item => feqb (snd item) v) (sorted_desc items)
  = filter (fun item => feqb (snd item) v) items.
Proof.
  induction items as [|x items IH]; [reflexivity|].
  cbn [sorted_desc fold_right]. fold (sorted_desc items).
  rewrite insert_desc_stable. cbn [filter]. now rewrite IH.
Qed.

(** X10.  In exact arithmetic, where the sort of the library is the
    stable sort by descending score: when every ranked page is a key of
    the graph and there is at least one, [print_rankings] completes, and
    between the headings and the statistics it prints one line for every
    entry of [ranks] and nothing else, the lines ordered by descending
    score, pages of equal score in the order they have in [ranks]; each
    line shows the page, its score, the number of pages that link to it
    and the number of its links. *)
Theorem report_rows_sorted (ranks : dict Qc) (graph : dict (list string)) :
  (forall p, In p (keys ranks) -> contains_key p graph = true) ->
  ranks <> [] ->
  exists rows,
    print_rankings sorted_desc ranks graph
    = (report_header ++ map (rank_line graph) rows ++ statistics_header
         ++ statistics graph (fsum (values ranks) / of_nat (List.length ranks))%Qc,
       Ok tt) /\
    Permutation rows ranks /\
    StronglySorted (fun a b => (snd b <= snd a)%Qc) rows /\
    forall v, filter (fun item => feqb (snd item) v) rows
              = filter (fun item => feqb (snd item) v) ranks.
Proof.
  intros Hkeys Hne. exists (sorted_desc ranks).
  split; [exact (print_rankings_ok graph sorted_desc (@sorted_desc_perm Qc Arith_Qc)
                   Hkeys Hne)|].
  split; [apply sorted_desc_perm|].
  split; [apply sorted_desc_sorted|].
  intro v. apply sorted_desc_stable.
Qed.

Lemma report_rows_sorted_witness :
  (forall p, In p (keys [("A", q 1 4); ("B", q 1 2); ("C", q 1 4)]) ->
             contains_key p example_graph = true) /\
  [("A", q 1 4); ("B", q 1 2); ("C", q 1 4)] <> [] /\
  exists rows,
    print_rankings sorted_desc [("A", q 1 4); ("B", q 1 2); ("C", q 1 4)]
                   example_graph
    = (report_header ++ map (rank_line example_graph) rows ++ statistics_header
         ++ statistics example_graph
              (fsum (values [("A", q 1 4); ("B", q 1 2); ("C", q 1 4)])
               / of_nat (List.length [("A", q 1 4); ("B", q 1 2); ("C", q 1 4)]))%Qc,
       Ok tt) /\
    Permutation rows [("A", q 1 4); ("B", q 1 2); ("C", q 1 4)] /\
    StronglySorted (fun a b => (snd b <= snd a)%Qc) rows /\
    forall v, filter (fun item => feqb (snd item) v) rows
              = filter (fun item => feqb (snd item) v)
                       [("A", q 1 4); ("B", q 1 2); ("C", q 1 4)].
Proof.
  assert (forall p, In p (keys [("A", q 1 4); ("B", q 1 2); ("C", q 1 4)]) ->
                    contains_key p example_graph = true) as Hkeys
    by (intros p [<-|[<-|[<-|[]]]]; reflexivity).
  split; [exact Hkeys|]. split; [discriminate|].
  apply (@report_rows_sorted [("A", q 1 4); ("B", q 1 2); ("C", q 1 4)]
           example_graph); [exact Hkeys | discriminate].
Defined.

(** An unsorted input, to see the order of the lines. *)
Example report_order :
  map fst (sorted_desc [("A", q 1 4); ("B", q 1 2); ("C", q 1 4)])
  = ["B"; "A"; "C"].
Proof. reflexivity. Qed.

(** X11.  In every arithmetic and whatever order the sort of the library
    puts the ranks in (all that is used of it is that it rearranges its
    input): when some ranked page is not a key of the graph,
    [print_rankings] raises [KeyError].  It prints the headings and the
    lines of the pages that the sorted list holds before the first page
    [q] missing from the graph, and stops at [graph[q]]; no statistics are
    printed. *)
Theorem unknown_page_stops_report {F : Type} {AF : Arith F}
  (sorted_by_score : list (string * F) -> list (string * F))
  (ranks : dict F) (graph : dict (list string)) (p : string) :
  (forall items, Permutation (sorted_by_score items) items) ->
  In p (keys ranks) -> contains_key p graph = false ->
  exists pre q s rest,
    sorted_by_score ranks = pre ++ (q, s) :: rest /\
    (forall item, In item pre -> contains_key (fst item) graph = true) /\
    contains_key q graph = false /\
    print_rankings sorted_by_score ranks graph
    = (report_header ++ map (rank_line graph) pre, Raise (KeyError q)).
Proof.
  intros Hsort Hp Hmissing.
  assert (forallb (fun item : string * F => contains_key (fst item) graph)
                  (sorted_by_score ranks) = false) as Hall.
  { destruct (forallb _ (sorted_by_score ranks)) eqn:E; [|reflexivity].
    rewrite forallb_forall in E. unfold keys in Hp. apply in_map_iff in Hp.
    destruct Hp as [item [<- Hitem]].
    rewrite E in Hmissing; [discriminate|].
    eapply Permutation_in; [apply Permutation_sym, Hsort | exact Hitem]. }
  destruct (forallb_first_false _ _ Hall) as [pre [[q0 s] [rest [Hsorted [Hpre Hq]]]]].
  cbn [fst] in Hq. rewrite forallb_forall in Hpre.
  exists pre, q0, s, rest. split; [exact Hsorted|]. split; [exact Hpre|].
  split; [exact Hq|].
  unfold print_rankings. rewrite Hsorted.
  now rewrite print_rows_raise by assumption.
Qed.

Lemma unknown_page_stops_report_witness :
  (forall items : list (string * Qc), Permutation (sorted_desc items) items) /\
  In "Z" (keys [("A", q 1 4); ("Z", q 1 2); ("B", q 1 4)]) /\
  contains_key "Z" sink_graph = false /\
  exists pre q0 s rest,
    sorted_desc [("A", q 1 4); ("Z", q 1 2); ("B", q 1 4)] = pre ++ (q0, s) :: rest /\
    (forall item, In item pre -> contains_key (fst item) sink_graph = true) /\
    contains_key q0 sink_graph = false /\
    print_rankings sorted_desc [("A", q 1 4); ("Z", q 1 2); ("B", q 1 4)] sink_graph
    = (report_header ++ map (rank_line sink_graph) pre, Raise (KeyError q0)).
Proof.
  split; [exact (@sorted_desc_perm Qc Arith_Qc)|].
  split; [simpl; tauto|]. split; [reflexivity|].
  apply (@unknown_page_stops_report Qc Arith_Qc sorted_desc
           [("A", q 1 4); ("Z", q 1 2); ("B", q 1 4)] sink_graph "Z");
    [exact (@sorted_desc_perm Qc Arith_Qc) | simpl; tauto | reflexivity].
Defined.

(** X12.  In every arithmetic and whatever order the sort of the library
    puts the ranks in: in a report on the pages of the graph (the keys of
    [ranks] are the keys of the graph, in any order, and there is at least
    one), the [Out] figures add up to the number printed as "Total Links".
    The [In] figures count every linking page once, however often it
    repeats the link, so they add up to at most that number, and to
    exactly that number when every link target is a key and no page
    repeats a link. *)
Theorem report_columns_add_up {F : Type} {AF : Arith F}
  (sorted_by_score : list (string * F) -> list (string * F))
  (ranks : dict F) (graph : dict (list string)) :
  (forall items, Permutation (sorted_by_score items) items) ->
  wf_dict graph -> Permutation (keys ranks) (keys graph) -> ranks <> [] ->
  exists out,
    print_rankings sorted_by_score ranks graph = (out, Ok tt) /\
    In (TotalLinks (total_links graph)) out /\
    outbound_column out = total_links graph /\
    inbound_column out <= total_links graph /\
    (closed graph -> (forall item, In item graph -> NoDup (snd item)) ->
     inbound_column out = total_links graph).
Proof.
  intros Hsort Hwf Hperm Hne. pose proof (keys_NoDup Hwf) as Hnd.
  assert (Permutation (map fst (sorted_by_score ranks)) (keys graph)) as Hrows.
  { eapply perm_trans; [|exact Hperm].
    unfold keys. apply Permutation_map, Hsort. }
  eexists. split.
  - apply print_rankings_ok; [exact Hsort | | exact Hne].
    intros p Hp. apply contains_key_in.
    eapply Permutation_in; [exact Hperm | exact Hp].
  - split.
    { rewrite !in_app_iff. right. right. right. simpl. tauto. }
    rewrite !outbound_column_app, !inbound_column_app.
    rewrite outbound_column_rows, inbound_column_rows.
    rewrite (list_sum_perm (Permutation_map (out_degree graph) Hrows)).
    rewrite (list_sum_perm (Permutation_map (inbound_count graph) Hrows)).
    rewrite outbound_total by assumption.
    change (outbound_column (report_header (F := F))) with 0.
    change (inbound_column (report_header (F := F))) with 0.
    change (outbound_column (statistics_header (F := F))) with 0.
    change (inbound_column (statistics_header (F := F))) with 0.
    cbn [statistics outbound_column inbound_column map list_sum fold_right].
    rewrite !Nat.add_0_l, !Nat.add_0_r.
    split; [reflexivity|]. split; [now apply inbound_total_le|].
    intros Hcl Hlinks. apply inbound_total; try assumption.
    intros [page links] t. now apply closed_targets.
Qed.

Lemma report_columns_add_up_witness :
  (forall items : list (string * Qc), Permutation (sorted_desc items) items) /\
  wf_dict example_graph /\
  Permutation (keys (tabulate ["B"; "A"; "C"; "D"; "E"] (fun _ => q 1 5)))
              (keys example_graph) /\
  tabulate ["B"; "A"; "C"; "D"; "E"] (fun _ => q 1 5) <> [] /\
  exists out,
    print_rankings sorted_desc
                   (tabulate ["B"; "A"; "C"; "D"; "E"] (fun _ => q 1 5))
                   example_graph = (out, Ok tt) /\
    In (TotalLinks (total_links example_graph)) out /\
    outbound_column out = total_links example_graph /\
    inbound_column out <= total_links example_graph /\
    (closed example_graph ->
     (forall item, In item example_graph -> NoDup (snd item)) ->
     inbound_column out = total_links example_graph).
Proof.
  split; [exact (@sorted_desc_perm Qc Arith_Qc)|].
  split; [reflexivity|]. split; [apply perm_swap|]. split; [discriminate|].
  apply (@report_columns_add_up Qc Arith_Qc sorted_desc
           (tabulate ["B"; "A"; "C"; "D"; "E"] (fun _ => q 1 5)) example_graph);
    [exact (@sorted_desc_perm Qc Arith_Qc) | reflexivity | apply perm_swap
     | discriminate].
Defined.

(** A page that repeats a link is counted once in the [In] figure of the
    target and twice in "Total Links". *)
Example repeated_link_counted_once :
  inbound_count double_graph "B" = 1 /\ total_links double_graph = 3 /\
  list_sum (map (inbound_count double_graph) (keys double_graph)) = 2.
Proof. repeat split. Qed.

(** X13.  [main] of [pr.py], in exact arithmetic: on a non-empty graph
    with distinct keys whose link targets are all keys, for every damping
    factor, tolerance and budget, [page_rank] returns a rank for each
    page after printing one line: the number of passes, between 1 and the
    budget, with a last change below the tolerance, or else the budget.
    [print_rankings] then completes: one line per page of the graph, by
    descending rank, and an average rank of exactly [1/N], the ranks
    summing to 1. *)
Theorem main_reports_every_page (graph : dict (list string)) (d tol : Qc)
  (max_iterations : nat) :
  wf_dict graph -> closed graph -> graph <> [] ->
  exists first ranks rows,
    page_rank graph d tol max_iterations = Ok ranks /\
    main_on sorted_desc graph d tol max_iterations
    = (first :: report_header ++ map (rank_line graph) rows ++ statistics_header
         ++ statistics graph (1 / of_nat (List.length graph))%Qc,
       Ok tt) /\
    (first = MaximumReached max_iterations \/
     exists n diff,
       first = Converged n diff /\ 0 < n <= max_iterations /\ (diff < tol)%Qc) /\
    Permutation rows ranks /\
    StronglySorted (fun a b => (snd b <= snd a)%Qc) rows /\
    Permutation (map fst rows) (keys graph).
Proof.
  intros Hwf Hcl Hne.
  destruct (page_rank_run_iter d tol Hwf Hcl max_iterations) as [n [_ [Hrun _]]].
  set (last := Nat.iter n (classic_update d graph) (uniform_rank graph)) in *.
  assert (fsum (map last (keys graph)) = 1%Qc) as Hmass.
  { apply (iter_invariant (fun r => fsum (map r (keys graph)) = 1%Qc)).
    - intros r Hr. now apply classic_update_mass.
    - now apply uniform_mass. }
  assert (page_rank graph d tol max_iterations = Ok (tabulate (keys graph) last))
    as Hranks by (unfold page_rank; now rewrite Hrun).
  destruct (page_rank_printing_returns _ _ _ _ Hranks) as [first [Hprint Hfirst]].
  exists first, (tabulate (keys graph) last),
         (sorted_desc (tabulate (keys graph) last)).
  split; [exact Hranks|].
  split.
  - unfold main_on. rewrite Hprint.
    rewrite (print_rankings_ok graph sorted_desc (@sorted_desc_perm Qc Arith_Qc)).
    + rewrite values_tabulate, Hmass, length_tabulate.
      unfold keys. now rewrite length_map.
    + intros p Hp. rewrite keys_tabulate in Hp. now apply contains_key_in.
    + destruct graph; [congruence | discriminate].
  - split.
    { destruct Hfirst as [Hmax|[k [diff [Hconv [Hk Hdiff]]]]]; [now left|].
      right. exists k, diff. split; [exact Hconv|]. split; [exact Hk|].
      now apply Qc_fltb_true. }
    split; [apply sorted_desc_perm|].
    split; [apply sorted_desc_sorted|].
    rewrite <- (keys_tabulate (keys graph) last) at 2.
    unfold keys at 2. apply Permutation_map, sorted_desc_perm.
Qed.

Lemma main_reports_every_page_witness :
  wf_dict example_graph /\ closed example_graph /\ example_graph <> [] /\
  exists first ranks rows,
    page_rank example_graph (q 85 100) (q 1 1000) 100 = Ok ranks /\
    main_on sorted_desc example_graph (q 85 100) (q 1 1000) 100
    = (first :: report_header ++ map (rank_line example_graph) rows
         ++ statistics_header
         ++ statistics example_graph (1 / of_nat (List.length example_graph))%Qc,
       Ok tt) /\
    (first = MaximumReached 100 \/
     exists n diff,
       first = Converged n diff /\ 0 < n <= 100 /\ (diff < q 1 1000)%Qc) /\
    Permutation rows ranks /\
    StronglySorted (fun a b => (snd b <= snd a)%Qc) rows /\
    Permutation (map fst rows) (keys example_graph).
Proof.
  split; [reflexivity|]. split; [reflexivity|]. split; [discriminate|].
  apply (@main_reports_every_page example_graph (q 85 100) (q 1 1000) 100);
    [reflexivity | reflexivity | discriminate].
Defined.

(** The first line of [main] on a small graph: the second pass changes
    the ranks by less than 1/5. *)
Example main_first_line :
  exists diff,
    hd_error (fst (main_on sorted_desc sink_graph (q 85 100) (q 1 5) 100))
    = Some (Converged 2 diff) /\
    diff = q 289 1600.
Proof.
  eexists. split; [vm_compute; reflexivity | apply Qc_is_canon; reflexivity].
Qed.

(** X14.  In every arithmetic and whatever order the sort of the library
    produces: with an empty [ranks], whatever the graph, [print_rankings]
    prints the headings, no page line, the number of pages and the number
    of links, and then raises [ZeroDivisionError] at the average
    [sum(ranks.values()) / len(ranks)].  This is how [main] of [pr.py]
    ends on the empty graph, for every damping factor, tolerance and
    budget: [page_rank] prints its line (a first pass with the change 0
    when the budget is at least 1 and 0 is below the tolerance, the budget
    otherwise) and returns the empty mapping, and the report stops at the
    average rank after printing both totals as 0. *)
Theorem empty_report_divides_by_zero {F : Type} {AF : Arith F}
  (sorted_by_score : list (string * F) -> list (string * F))
  (graph : dict (list string)) (d tol : F) (max_iterations : nat) :
  (forall items, Permutation (sorted_by_score items) items) ->
  print_rankings sorted_by_score [] graph
  = (report_header ++ statistics_header
       ++ [TotalPages (List.length graph); TotalLinks (total_links graph)],
     Raise ZeroDivisionError) /\
  main_on sorted_by_score [] d tol max_iterations
  = ((if (Nat.ltb 0 max_iterations && fltb fzero tol)%bool
      then Converged 1 fzero
      else MaximumReached max_iterations)
       :: report_header ++ statistics_header ++ [TotalPages 0; TotalLinks 0],
     Raise ZeroDivisionError).
Proof.
  intro Hsort. split; [now apply print_rankings_empty|].
  unfold main_on. rewrite page_rank_printing_empty.
  rewrite (print_rankings_empty [] sorted_by_score Hsort). reflexivity.
Qed.

Lemma empty_report_divides_by_zero_witness :
  (forall items : list (string * Qc), Permutation (sorted_desc items) items) /\
  print_rankings (F := Qc) sorted_desc [] example_graph
  = (report_header ++ statistics_header
       ++ [TotalPages (List.length example_graph);
           TotalLinks (total_links example_graph)],
     Raise ZeroDivisionError) /\
  main_on sorted_desc [] (q 85 100) (q 1 1000) 100
  = ((if (Nat.ltb 0 100 && fltb fzero (q 1 1000))%bool
      then Converged 1 fzero
      else MaximumReached 100)
       :: report_header ++ statistics_header ++ [TotalPages 0; TotalLinks 0],
     Raise ZeroDivisionError).
Proof.
  split; [exact (@sorted_desc_perm Qc Arith_Qc)|].
  apply (@empty_report_divides_by_zero Qc Arith_Qc sorted_desc example_graph
           (q 85 100) (q 1 1000) 100).
  exact (@sorted_desc_perm Qc Arith_Qc).
Defined.

(** ** Assignment to a key *)

Lemma keys_set {V : Type} (d : dict V) (k : string) (v : V) :
  keys (set k v d) = if contains_key k d then keys d else keys d ++ [k].
Proof.
  unfold contains_key. induction d as [|[a w] d IH]; simpl; [reflexivity|].
  destruct (String.eqb k a) eqn:E; [reflexivity|].
  simpl. rewrite IH. now destruct (get k d).
Qed.

Lemma set_NoDup {V : Type} (d : dict V) (k : string) (v : V) :
  NoDup (keys d) -> NoDup (keys (set k v d)).
Proof.
  intro Hnd. rewrite keys_set. destruct (contains_key k d) eqn:E; [assumption|].
  apply NoDup_app; [assumption | repeat constructor; intros [] |].
  intros x Hx [<-|[]]. apply contains_key_in in Hx. congruence.
Qed.

Lemma get_set_same {V : Type} (d : dict V) (k : string) (v : V) :
  get k (set k v d) = Some v.
Proof.
  induction d as [|[a w] d IH]; simpl.
  - now rewrite String.eqb_refl.
  - destruct (String.eqb k a) eqn:E; simpl; now rewrite E.
Qed.

Lemma get_set_other {V : Type} (d : dict V) (k k' : string) (v : V) :
  k' <> k -> get k' (set k v d) = get k' d.
Proof.
  intro Hne. apply String.eqb_neq in Hne.
  induction d as [|[a w] d IH]; simpl.
  - now rewrite Hne.
  - destruct (String.eqb k a) eqn:E; simpl.
    + apply String.eqb_eq in E. subst a. now rewrite Hne.
    + now rewrite IH.
Qed.

Lemma in_set {V : Type} (d : dict V) (k k' : string) (v v' : V) :
  In (k', v') (set k v d) -> (k' = k /\ v' = v) \/ In (k', v') d.
Proof.
  induction d as [|[a w] d IH]; simpl.
  - intros [H|[]]. injection H as <- <-. now left.
  - destruct (String.eqb k a) eqn:E; simpl.
    + apply String.eqb_eq in E. subst a. intros [H|H].
      * injection H as <- <-. now left.
      * right. now right.
    + intros [H|H]; [right; now left|].
      destruct (IH H) as [Hk|Hd]; [now left | right; now right].
Qed.

(** ** [parse_xml] *)

Section ParseXmlFacts.

Variable strip : string -> string.

(** What holds of the two dictionaries after every page. *)
Let parsed (pages : dict (dict string)) (graph : dict (list string)) : Prop :=
  keys pages = keys graph /\
  NoDup (keys graph) /\
  (forall pid meta, In (pid, meta) pages -> keys meta = ["title"; "content"]) /\
  (forall pid links t, In (pid, links) graph -> In t links -> t <> "").

Lemma truthy_nonempty (s : string) : truthy s = true -> s <> "".
Proof.
  unfold truthy. intros H E. subst s. discriminate H.
Qed.

Lemma link_texts_nonempty (page : element) (t : string) :
  In t (link_texts strip page) -> t <> "".
Proof.
  unfold link_texts. destruct (find_child "links" page) as [links_el|]; [|intros []].
  assert (forall ls acc,
            (forall x, In x acc -> x <> "") ->
            forall x,
              In x (fold_left
                      (fun outs l =>
                         match text_of l with
                         | Some t =>
                             if truthy t && truthy (strip t)
                             then outs ++ [strip t]
                             else outs
                         | None => outs
                         end) ls acc) -> x <> "") as Hfold.
  { induction ls as [|l ls IH]; intros acc Hacc x; cbn [fold_left]; [apply Hacc|].
    apply IH. destruct (text_of l) as [raw|]; [|exact Hacc].
    destruct (truthy raw && truthy (strip raw)) eqn:E; [|exact Hacc].
    apply andb_true_iff in E. destruct E as [_ E].
    intros y Hy. apply in_app_or in Hy. destruct Hy as [Hy|[<-|[]]].
    - now apply Hacc.
    - now apply truthy_nonempty. }
  apply Hfold. intros x [].
Qed.

Lemma parse_page_none (l : list element) :
  fold_left (parse_page strip) l None = None.
Proof. induction l as [|page l IH]; simpl; [reflexivity | exact IH]. Qed.

Lemma parse_fold_ids (l : list element)
  (acc res : dict (dict string) * dict (list string)) :
  fold_left (parse_page strip) l (Some acc) = Some res ->
  forall page, In page l -> get "id" (attrib_of page) <> None.
Proof.
  revert acc. induction l as [|p l IH]; intros [pages graph] H page; [intros []|].
  cbn [fold_left parse_page] in H.
  destruct (get "id" (attrib_of p)) as [pid|] eqn:E.
  - intros [<-|Hin]; [congruence|]. eapply IH; eassumption.
  - rewrite parse_page_none in H. discriminate H.
Qed.

Lemma parse_fold (l : list element) (pages : dict (dict string))
  (graph : dict (list string)) :
  (forall page, In page l -> get "id" (attrib_of page) <> None) ->
  parsed pages graph ->
  exists pages' graph',
    fold_left (parse_page strip) l (Some (pages, graph)) = Some (pages', graph') /\
    parsed pages' graph' /\
    (forall pid,
        In pid (keys graph') <->
        In pid (keys graph) \/
        exists page, In page l /\ get "id" (attrib_of page) = Some pid) /\
    (forall pid,
        (forall page, In page l -> get "id" (attrib_of page) <> Some pid) ->
        get pid pages' = get pid pages /\ get pid graph' = get pid graph).
Proof.
  revert pages graph. induction l as [|p l IH]; intros pages graph Hids Hinv.
  - exists pages, graph. split; [reflexivity|]. split; [exact Hinv|]. split.
    + intro pid. split; [now left | intros [H|[page [[] _]]]; exact H].
    + intros pid _. now split.
  - cbn [fold_left parse_page].
    destruct (get "id" (attrib_of p)) as [pid0|] eqn:E;
      [|exfalso; apply (Hids p); [now left | exact E]].
    destruct Hinv as [Hkeys [Hnd [Hmeta Hlinks]]].
    destruct (IH (set pid0 (page_meta strip p) pages)
                 (set pid0 (link_texts strip p) graph))
      as [pages' [graph' [Hrun [Hinv' [Hk' Hget']]]]].
    + intros page Hpage. apply Hids. now right.
    + split; [|split; [|split]].
      * rewrite !keys_set. unfold contains_key.
        assert (forall (V W : Type) (a : dict V) (b : dict W) k,
                  keys a = keys b -> contains_key k a = contains_key k b)
          as Hsame.
        { intros V W a b k Hab.
          destruct (contains_key k a) eqn:Ea; destruct (contains_key k b) eqn:Eb;
            try reflexivity; exfalso.
          - apply contains_key_in in Ea. rewrite Hab in Ea.
            apply contains_key_in in Ea. congruence.
          - apply contains_key_in in Eb. rewrite <- Hab in Eb.
            apply contains_key_in in Eb. congruence. }
        fold (contains_key pid0 pages). fold (contains_key pid0 graph).
        rewrite (Hsame _ _ pages graph pid0 Hkeys), Hkeys. reflexivity.
      * now apply set_NoDup.
      * intros pid meta Hin. apply in_set in Hin.
        destruct Hin as [[_ ->]|Hin]; [reflexivity | eapply Hmeta; eassumption].
      * intros pid links t Hin Ht. apply in_set in Hin.
        destruct Hin as [[_ ->]|Hin].
        -- eapply link_texts_nonempty; eassumption.
        -- eapply Hlinks; eassumption.
    + exists pages', graph'. split; [exact Hrun|]. split; [exact Hinv'|]. split.
      * intro pid. rewrite Hk', keys_set.
        assert (In pid (if contains_key pid0 graph then keys graph
                        else keys graph ++ [pid0])
                <-> In pid (keys graph) \/ pid = pid0) as Hset.
        { destruct (contains_key pid0 graph) eqn:Ec.
          - split; [now left|]. intros [H | ->]; [exact H|].
            now apply contains_key_in.
          - rewrite in_app_iff. simpl. split.
            + intros [H|[H|[]]]; [now left | right; now symmetry].
            + intros [H | ->]; [now left | right; now left]. }
        rewrite Hset. split.
        -- intros [[H | ->]|[page [Hpage Hid]]].
           ++ now left.
           ++ right. exists p. split; [now left | exact E].
           ++ right. exists page. split; [now right | exact Hid].
        -- intros [H|[page [[<-|Hpage] Hid]]].
           ++ left. now left.
           ++ left. right. congruence.
           ++ right. exists page. now split.
      * intros pid Hnone.
        destruct (Hget' pid) as [Hp Hg].
        { intros page Hpage. apply Hnone. now right. }
        assert (pid <> pid0) as Hne.
        { intro H. subst pid0. apply (Hnone p); [now left | exact E]. }
        rewrite Hp, Hg. split; now apply get_set_other.
Qed.

Lemma parse_xml_unfold (root : element) :
  parse_xml strip root
  = fold_left (parse_page strip) (findall "page" root)
      (@Some (dict (dict string) * dict (list string))
         (@pair (dict (dict string)) (dict (list string)) [] [])).
Proof. reflexivity. Qed.

Lemma parsed_nil : parsed [] [].
Proof.
  split; [reflexivity|]. split; [constructor|].
  split; intros; contradiction.
Qed.

Lemma parse_xml_parsed (root : element) (pages : dict (dict string))
  (graph : dict (list string)) :
  parse_xml strip root = Some (pages, graph) ->
  wf_dict pages /\ wf_dict graph /\ keys pages = keys graph /\
  (forall pid meta, In (pid, meta) pages -> keys meta = ["title"; "content"]) /\
  (forall pid links t, In (pid, links) graph -> In t links -> t <> "").
Proof.
  intro H. unfold parse_xml in H.
  destruct (parse_fold (findall "page" root) (parse_fold_ids _ _ H) parsed_nil)
    as [pages' [graph' [Hrun [[Hkeys [Hnd [Hmeta Hlinks]]] _]]]].
  pose proof (eq_trans (eq_sym Hrun) H) as Heq. injection Heq as -> ->.
  split; [|split; [|split; [|split]]]; try assumption.
  - apply distinctb_NoDup. now rewrite Hkeys.
  - now apply distinctb_NoDup.
Qed.

End ParseXmlFacts.

(** X15.  When every [page] element under the root has an [id],
    [parse_xml] returns two dictionaries with the same keys in the same
    order: exactly the ids that occur, each once.  Every entry of [pages]
    has exactly the keys [title] and [content], and no outbound list of
    [graph] holds an empty string: blank links are dropped. *)
Theorem parse_xml_shape (strip : string -> string) (root : element) :
  (forall page, In page (findall "page" root) ->
                get "id" (attrib_of page) <> None) ->
  exists pages graph,
    parse_xml strip root = Some (pages, graph) /\
    wf_dict pages /\ wf_dict graph /\ keys pages = keys graph /\
    (forall pid,
       In pid (keys graph) <->
       exists page, In page (findall "page" root) /\
                    get "id" (attrib_of page) = Some pid) /\
    (forall pid meta, In (pid, meta) pages -> keys meta = ["title"; "content"]) /\
    (forall pid links t, In (pid, links) graph -> In t links -> t <> "").
Proof.
  intro Hids.
  destruct (parse_fold strip (findall "page" root) Hids parsed_nil)
    as [pages [graph [Hrun [_ [Hk _]]]]].
  exists pages, graph. split; [exact Hrun|].
  destruct (parse_xml_parsed strip root Hrun) as [Hp [Hg [Hkeys [Hmeta Hlinks]]]].
  split; [exact Hp|]. split; [exact Hg|]. split; [exact Hkeys|].
  split; [|split; assumption].
  intro pid. rewrite Hk. split; [intros [[]|H]; exact H | now right].
Qed.

Lemma parse_xml_shape_witness :
  (forall page, In page (findall "page" example_document) ->
                get "id" (attrib_of page) <> None) /\
  exists pages graph,
    parse_xml strip_spaces example_document = Some (pages, graph) /\
    wf_dict pages /\ wf_dict graph /\ keys pages = keys graph /\
    (forall pid,
       In pid (keys graph) <->
       exists page, In page (findall "page" example_document) /\
                    get "id" (attrib_of page) = Some pid) /\
    (forall pid meta, In (pid, meta) pages -> keys meta = ["title"; "content"]) /\
    (forall pid links t, In (pid, links) graph -> In t links -> t <> "").
Proof.
  assert (forall page, In page (findall "page" example_document) ->
                       get "id" (attrib_of page) <> None) as Hids
    by (intros page [<-|[<-|[]]]; discriminate).
  split; [exact Hids|].
  apply (@parse_xml_shape strip_spaces example_document Hids).
Defined.

(** The example document: the blank link of [A] is dropped, and [B],
    which has no [content] element, gets the empty content. *)
Example parse_xml_example :
  parse_xml strip_spaces example_document
  = Some (example_document_pages, example_document_graph).
Proof. reflexivity. Qed.

(** X16.  When several [page] elements have the same [id], the last one
    decides: [pages] and [graph] hold, under that id, the title, content
    and links of the last such element (every [page] element having an
    [id]). *)
Theorem last_page_of_an_id_wins (strip : string -> string) (root : element)
  (before after : list element) (page : element) (pid : string) :
  findall "page" root = before ++ page :: after ->
  (forall p, In p (findall "page" root) -> get "id" (attrib_of p) <> None) ->
  get "id" (attrib_of page) = Some pid ->
  (forall p, In p after -> get "id" (attrib_of p) <> Some pid) ->
  exists pages graph,
    parse_xml strip root = Some (pages, graph) /\
    get pid pages = Some (page_meta strip page) /\
    get pid graph = Some (link_texts strip page).
Proof.
  intros Hsplit Hids Hpid Hafter. rewrite parse_xml_unfold. rewrite Hsplit in *.
  rewrite fold_left_app.
  destruct (parse_fold strip before (pages := []) (graph := []))
    as [pages1 [graph1 [Hrun1 [Hinv1 _]]]].
  - intros p Hp. apply Hids. apply in_or_app. now left.
  - apply parsed_nil.
  - rewrite Hrun1. cbn [fold_left parse_page]. rewrite Hpid.
    destruct (parse_fold strip after
                (pages := set pid (page_meta strip page) pages1)
                (graph := set pid (link_texts strip page) graph1))
      as [pages2 [graph2 [Hrun2 [_ [_ Hget]]]]].
    + intros p Hp. apply Hids. apply in_or_app. right. now right.
    + destruct (parse_fold strip [page] (pages := pages1) (graph := graph1))
        as [pages' [graph' [Hrun' [Hinv' _]]]].
      * intros p [<-|[]]. congruence.
      * exact Hinv1.
      * cbn [fold_left parse_page] in Hrun'. rewrite Hpid in Hrun'.
        injection Hrun' as <- <-. exact Hinv'.
    + exists pages2, graph2. split; [exact Hrun2|].
      destruct (Hget pid Hafter) as [-> ->].
      split; apply get_set_same.
Qed.

Lemma last_page_of_an_id_wins_witness :
  findall "page" repeated_document = [old_page] ++ new_page :: [] /\
  (forall p, In p (findall "page" repeated_document) ->
             get "id" (attrib_of p) <> None) /\
  get "id" (attrib_of new_page) = Some "A" /\
  (forall p, In p [] -> get "id" (attrib_of p) <> Some "A") /\
  exists pages graph,
    parse_xml strip_spaces repeated_document = Some (pages, graph) /\
    get "A" pages = Some (page_meta strip_spaces new_page) /\
    get "A" graph = Some (link_texts strip_spaces new_page).
Proof.
  assert (forall p, In p (findall "page" repeated_document) ->
                    get "id" (attrib_of p) <> None) as Hids
    by (intros p [<-|[<-|[]]]; discriminate).
  split; [reflexivity|]. split; [exact Hids|]. split; [reflexivity|].
  split; [intros p []|].
  apply (@last_page_of_an_id_wins strip_spaces repeated_document [old_page] []
           new_page "A"); [reflexivity | exact Hids | reflexivity | intros p []].
Defined.

(** The links of the first page with id [A] are gone. *)
Example parse_xml_repeated :
  parse_xml strip_spaces repeated_document
  = Some ([("A", [("title", "New"); ("content", "")])], [("A", [])]).
Proof. reflexivity. Qed.

(** ** The driver of [topic_pagerank.py] *)

Section PrintEach.

Context {F : Type} {AF : Arith F}.

Lemma print_each_ok {A : Type} (line_of : A -> result (option (topic_line F)))
  (keep : A -> bool) (shown : A -> topic_line F) (items : list A)
  (out : list (topic_line F)) :
  (forall item, In item items ->
     line_of item = Ok (if keep item then Some (shown item) else None)) ->
  print_each line_of items out
  = (out ++ map shown (filter keep items), Ok tt).
Proof.
  revert out. induction items as [|item items IH]; intros out H.
  - simpl. now rewrite app_nil_r.
  - cbn [print_each filter]. rewrite (H item (in_eq _ _)).
    destruct (keep item).
    + rewrite IH by (intros x Hx; apply H; now right).
      now rewrite <- app_assoc.
    + apply IH. intros x Hx. apply H. now right.
Qed.

Lemma filter_all {A : Type} (l : list A) : filter (fun _ => true) l = l.
Proof. induction l as [|x l IH]; simpl; [reflexivity | now rewrite IH]. Qed.

Variable pages : dict (dict string).

Hypothesis pages_titled :
  forall pid meta, In (pid, meta) pages -> In "title" (keys meta).

Lemma title_of_ok (pid : string) :
  In pid (keys pages) -> title_of pages pid = Ok (page_title pages pid).
Proof.
  intro Hpid. unfold title_of, page_title, getitem, get_default.
  destruct (get_key_in pages pid Hpid) as [meta Hmeta]. rewrite Hmeta.
  cbn [bind]. apply get_some_in in Hmeta. apply pages_titled in Hmeta.
  destruct (get_key_in meta "title" Hmeta) as [title ->]. reflexivity.
Qed.

Lemma print_summary_ok (graph : dict (list string)) (out : list (topic_line F)) :
  print_each (summary_line graph) pages out
  = (out ++ map (fun item =>
                   Summary (fst item) (get_default "title" "" (snd item))
                           (out_links graph (fst item))) pages,
     Ok tt).
Proof.
  rewrite (print_each_ok (summary_line graph) (fun _ => true)
             (fun item => Summary (fst item) (get_default "title" "" (snd item))
                                  (out_links graph (fst item)))).
  - now rewrite filter_all.
  - intros [pid meta] Hin. unfold summary_line, getitem, get_default. cbn [fst snd].
    pose proof (pages_titled _ _ Hin) as Ht.
    destruct (get_key_in meta "title" Ht) as [title ->]. reflexivity.
Qed.

Lemma print_weights_ok (tv : dict F) (out : list (topic_line F)) :
  (forall pid, In pid (keys tv) -> In pid (keys pages)) ->
  print_each (weight_line pages) tv out
  = (out ++ map (fun item => Weight (fst item) (snd item)
                                    (page_title pages (fst item)))
                (filter (fun item => fltb fzero (snd item)) tv),
     Ok tt).
Proof.
  intro Hkeys. apply print_each_ok. intros [pid w] Hin. unfold weight_line.
  cbn [fst snd]. destruct (fltb fzero w); [|reflexivity].
  rewrite title_of_ok; [reflexivity|].
  apply Hkeys. change pid with (fst (pid, w)). now apply in_map.
Qed.

Lemma print_ranked_ok (rows : list (string * F)) (out : list (topic_line F)) :
  (forall pid, In pid (map fst rows) -> In pid (keys pages)) ->
  print_each (ranked_line pages) rows out
  = (out ++ map (fun item => Ranked (fst item) (snd item)
                                    (page_title pages (fst item))) rows,
     Ok tt).
Proof.
  intro Hkeys.
  rewrite (print_each_ok (ranked_line pages) (fun _ => true)
             (fun item => Ranked (fst item) (snd item)
                                 (page_title pages (fst item)))).
  - now rewrite filter_all.
  - intros [pid r] Hin. unfold ranked_line. cbn [fst snd].
    rewrite title_of_ok; [reflexivity|].
    apply Hkeys. change pid with (fst (pid, r)). now apply in_map.
Qed.

End PrintEach.

Lemma titled_pages (pages : dict (dict string)) :
  (forall pid meta, In (pid, meta) pages -> keys meta = ["title"; "content"]) ->
  forall pid meta, In (pid, meta) pages -> In "title" (keys meta).
Proof. intros H pid meta Hin. rewrite (H pid meta Hin). now left. Qed.

(** X17.  The whole of [topic_pagerank.py], in exact arithmetic.  When
    [parse_xml] yields at least one page and every link of the document
    leads to the id of a page, then for every keyword list, damping
    factor, tolerance and budget: [build_topic_vector] returns a vector
    [tv], [topic_pagerank] returns ranks, one per page and summing to 1,
    and leaves the graph as it is, and [main] completes: every title
    lookup succeeds, and it lists every page with its title and links,
    the pages of positive weight, and every page with its rank and title,
    by descending rank. *)
Theorem topic_main_completes (strip lower : string -> string) (root : element)
  (pages : dict (dict string)) (graph : dict (list string))
  (keywords : list string) (d tol : Qc) (max_iter : nat) :
  parse_xml strip root = Some (pages, graph) ->
  graph <> [] -> closed graph ->
  exists tv ranks rows,
    build_topic_vector lower pages keywords = Ok tv /\
    topic_pagerank tv d tol graph pages max_iter = (graph, Ok ranks) /\
    keys ranks = keys pages /\
    fsum (values ranks) = 1%Qc /\
    Permutation rows ranks /\
    StronglySorted (fun a b => (snd b <= snd a)%Qc) rows /\
    topic_main_on sorted_desc lower pages graph keywords d tol max_iter
    = (map (fun item => Summary (fst item) (get_default "title" "" (snd item))
                                (out_links graph (fst item))) pages
       ++ map (fun item => Weight (fst item) (snd item)
                                  (page_title pages (fst item)))
              (filter (fun item => fltb fzero (snd item)) tv)
       ++ map (fun item => Ranked (fst item) (snd item)
                                  (page_title pages (fst item))) rows,
       Ok tt).
Proof.
  intros Hparse Hne Hcl.
  destruct (parse_xml_parsed strip root Hparse) as [Hpw [Hgw [Hkeys [Hmeta _]]]].
  pose proof (titled_pages pages Hmeta) as Htitle.
  assert (pages <> []) as Hpne.
  { intro E. rewrite E in Hkeys. destruct graph; [congruence | discriminate]. }
  destruct (build_topic_vector_distribution lower keywords Hpw Hpne)
    as [tv [Htv [Htk [Hsum Hnn]]]].
  rewrite Hkeys in Hsum.
  destruct (topic_loop_exit tv d tol Hgw Hcl max_iter 0 (uniform_rank graph))
    as [n [Hrun _]].
  set (last := Nat.iter n (topic_update tv d graph) (uniform_rank graph)) in *.
  assert (fsum (map last (keys graph)) = 1%Qc) as Hmass.
  { apply (iter_invariant (fun r => fsum (map r (keys graph)) = 1%Qc)).
    - intros r Hr. rewrite (topic_update_total tv d Hgw Hcl Hsum), Hr. ring.
    - now apply uniform_mass. }
  assert (topic_pagerank tv d tol graph pages max_iter
          = (graph, Ok (tabulate (keys graph) last))) as Hranks.
  { unfold topic_pagerank, topic_pagerank_run.
    rewrite topic_initial_ranks, Hrun.
    rewrite normalize_unit_mass by assumption. reflexivity. }
  exists tv, (tabulate (keys graph) last),
         (sorted_desc (tabulate (keys graph) last)).
  split; [exact Htv|]. split; [exact Hranks|].
  split; [now rewrite keys_tabulate|].
  split; [now rewrite values_tabulate|].
  split; [apply sorted_desc_perm|].
  split; [apply sorted_desc_sorted|].
  unfold topic_main_on.
  rewrite (print_summary_ok pages Htitle), Htv.
  rewrite (print_weights_ok pages Htitle) by (intro pid; now rewrite Htk).
  rewrite Hranks. cbn [snd].
  rewrite (print_ranked_ok pages Htitle).
  - cbn [app]. now rewrite <- app_assoc.
  - intros pid Hpid. rewrite Hkeys.
    rewrite <- (keys_tabulate (keys graph) last).
    eapply Permutation_in; [|exact Hpid].
    unfold keys at 1. apply Permutation_map, sorted_desc_perm.
Qed.

Lemma topic_main_completes_witness :
  parse_xml strip_spaces example_document
  = Some (example_document_pages, example_document_graph) /\
  example_document_graph <> [] /\
  closed example_document_graph /\
  exists tv ranks rows,
    build_topic_vector lower_ascii example_document_pages ["ranking"] = Ok tv /\
    topic_pagerank tv (q 85 100) (q 1 100) example_document_graph
                   example_document_pages 200
    = (example_document_graph, Ok ranks) /\
    keys ranks = keys example_document_pages /\
    fsum (values ranks) = 1%Qc /\
    Permutation rows ranks /\
    StronglySorted (fun a b => (snd b <= snd a)%Qc) rows /\
    topic_main_on sorted_desc lower_ascii example_document_pages
                  example_document_graph ["ranking"] (q 85 100) (q 1 100) 200
    = (map (fun item => Summary (fst item) (get_default "title" "" (snd item))
                                (out_links example_document_graph (fst item)))
           example_document_pages
       ++ map (fun item => Weight (fst item) (snd item)
                                  (page_title example_document_pages (fst item)))
              (filter (fun item => fltb fzero (snd item)) tv)
       ++ map (fun item => Ranked (fst item) (snd item)
                                  (page_title example_document_pages (fst item)))
              rows,
       Ok tt).
Proof.
  split; [reflexivity|]. split; [discriminate|]. split; [reflexivity|].
  apply (@topic_main_completes strip_spaces lower_ascii example_document
           example_document_pages example_document_graph ["ranking"]
           (q 85 100) (q 1 100) 200);
    [reflexivity | discriminate | reflexivity].
Defined.

(** The run of [main] on the example document with the keyword
    [ranking]: only [B] mentions it, and [B] ends up first. *)
Example topic_main_example :
  topic_main_on sorted_desc lower_ascii example_document_pages
                example_document_graph ["ranking"] (q 1 2) (q 1 100) 200
  = ([Summary "A" "Introduction to AI" ["B"]; Summary "B" "Ranking" ["A"];
      Weight "B" (q 1 1) "Ranking";
      Ranked "B" (q 171 256) "Ranking";
      Ranked "A" (q 85 256) "Introduction to AI"],
     Ok tt).
Proof. vm_compute. reflexivity. Qed.

(** X18.  [parse_xml] does not check where the links lead, and [main]
    passes its graph on as it is.  In exact arithmetic, when the document
    has a link to an id that no page has, [main] prints the summary and
    the weights, and then stops with the [RuntimeError] of
    [build_incoming_links] in the first pass of [topic_pagerank]; no rank
    is printed. *)
Theorem topic_main_stops_on_undeclared_link (strip lower : string -> string)
  (root : element) (pages : dict (dict string)) (graph : dict (list string))
  (keywords : list string) (d tol : Qc) (more : nat) :
  parse_xml strip root = Some (pages, graph) ->
  ~ closed graph ->
  exists tv,
    build_topic_vector lower pages keywords = Ok tv /\
    topic_main_on sorted_desc lower pages graph keywords d tol (S more)
    = (map (fun item => Summary (fst item) (get_default "title" "" (snd item))
                                (out_links graph (fst item))) pages
       ++ map (fun item => Weight (fst item) (snd item)
                                  (page_title pages (fst item)))
              (filter (fun item => fltb fzero (snd item)) tv),
       Raise size_changed).
Proof.
  intros Hparse Hopen.
  destruct (parse_xml_parsed strip root Hparse) as [Hpw [Hgw [Hkeys [Hmeta _]]]].
  pose proof (titled_pages pages Hmeta) as Htitle.
  assert (closedb graph = false) as Hb
    by (unfold closed in Hopen; destruct (closedb graph); congruence).
  assert (pages <> []) as Hpne.
  { intro E. rewrite E in Hkeys. destruct graph; [discriminate Hb | discriminate]. }
  destruct (build_topic_vector_distribution lower keywords Hpw Hpne)
    as [tv [Htv [Htk _]]].
  destruct (topic_pagerank_open d tol Hgw Hb tv pages more)
    as [graph' [Hrun _]].
  exists tv. split; [exact Htv|].
  unfold topic_main_on.
  rewrite (print_summary_ok pages Htitle), Htv.
  rewrite (print_weights_ok pages Htitle) by (intro pid; now rewrite Htk).
  rewrite Hrun. reflexivity.
Qed.

Lemma topic_main_stops_on_undeclared_link_witness :
  parse_xml strip_spaces open_document = Some (open_document_pages, open_graph) /\
  ~ closed open_graph /\
  exists tv,
    build_topic_vector lower_ascii open_document_pages ["home"] = Ok tv /\
    topic_main_on sorted_desc lower_ascii open_document_pages open_graph
                  ["home"] (q 85 100) (q 1 100) (S 199)
    = (map (fun item => Summary (fst item) (get_default "title" "" (snd item))
                                (out_links open_graph (fst item)))
           open_document_pages
       ++ map (fun item => Weight (fst item) (snd item)
                                  (page_title open_document_pages (fst item)))
              (filter (fun item => fltb fzero (snd item)) tv),
       Raise size_changed).
Proof.
  split; [reflexivity|]. split; [discriminate|].
  apply (@topic_main_stops_on_undeclared_link strip_spaces lower_ascii
           open_document open_document_pages open_graph ["home"]
           (q 85 100) (q 1 100) 199);
    [reflexivity | discriminate].
Defined.

(** X19.  [main] of [pr.py] on a graph with a link target that is not a
    key, in every arithmetic and with at least one pass: [page_rank]
    raises [KeyError] for such a target before it prints its line, so
    [print_rankings] is never called and nothing is printed. *)
Theorem main_stops_on_undeclared_target {F : Type} {AF : Arith F}
  (sorted_by_score : list (string * F) -> list (string * F))
  (graph : dict (list string)) (d tol : F) (more : nat) :
  wf_dict graph -> ~ closed graph ->
  exists t,
    ~ In t (keys graph) /\
    (exists page links, In (page, links) graph /\ In t links) /\
    main_on sorted_by_score graph d tol (S more) = ([], Raise (KeyError t)).
Proof.
  intros Hwf Hopen.
  assert (closedb graph = false) as Hb
    by (unfold closed in Hopen; destruct (closedb graph); congruence).
  destruct (page_rank_open d tol Hwf Hb more) as [t [Ht [Hlink Hrun]]].
  exists t. split; [exact Ht|]. split; [exact Hlink|].
  unfold main_on. now rewrite (page_rank_printing_raises _ _ _ _ Hrun).
Qed.

Lemma main_stops_on_undeclared_target_witness :
  wf_dict open_graph /\ ~ closed open_graph /\
  exists t,
    ~ In t (keys open_graph) /\
    (exists page links, In (page, links) open_graph /\ In t links) /\
    main_on sorted_desc open_graph (q 85 100) (q 1 1000000) (S 99)
    = ([], Raise (KeyError t)).
Proof.
  split; [reflexivity|]. split; [discriminate|].
  apply (@main_stops_on_undeclared_target Qc Arith_Qc sorted_desc open_graph
           (q 85 100) (q 1 1000000) 99); [reflexivity | discriminate].
Defined.

(** X20.  A document without [page] elements, in every arithmetic and
    whatever order the sort of the library produces: [parse_xml] returns
    two empty dictionaries, and [main] of [topic_pagerank.py] then
    completes without printing a page line, where [main] of [pr.py] on an
    empty graph ends in [ZeroDivisionError]. *)
Theorem empty_document_runs_through {F : Type} {AF : Arith F}
  (sorted_by_score : list (string * F) -> list (string * F))
  (strip lower : string -> string) (root : element) (keywords : list string)
  (d tol : F) (max_iter : nat) :
  (forall items, Permutation (sorted_by_score items) items) ->
  findall "page" root = [] ->
  parse_xml strip root = Some ([], []) /\
  build_topic_vector (F := F) lower [] keywords = Ok [] /\
  topic_main_on sorted_by_score lower [] [] keywords d tol max_iter = ([], Ok tt).
Proof.
  intros Hsort Hnone. split; [unfold parse_xml; now rewrite Hnone|].
  assert (build_topic_vector (F := F) lower [] keywords = Ok []) as Htv.
  { unfold build_topic_vector. cbn. now destruct (feqb fzero fzero). }
  split; [exact Htv|].
  unfold topic_main_on. cbn [print_each]. rewrite Htv. cbn [print_each].
  rewrite topic_pagerank_empty. cbn [snd].
  rewrite (Permutation_nil (Permutation_sym (Hsort []))). reflexivity.
Qed.

Lemma empty_document_runs_through_witness :
  (forall items : list (string * Qc), Permutation (sorted_desc items) items) /\
  findall "page" (Element "webpages" [] None []) = [] /\
  parse_xml strip_spaces (Element "webpages" [] None []) = Some ([], []) /\
  build_topic_vector (F := Qc) lower_ascii [] ["ranking"] = Ok [] /\
  topic_main_on sorted_desc lower_ascii [] [] ["ranking"] (q 85 100) (q 1 100) 200
  = ([], Ok tt).
Proof.
  split; [exact (@sorted_desc_perm Qc Arith_Qc)|]. split; [reflexivity|].
  apply (@empty_document_runs_through Qc Arith_Qc sorted_desc strip_spaces
           lower_ascii (Element "webpages" [] None []) ["ranking"]
           (q 85 100) (q 1 100) 200);
    [exact (@sorted_desc_perm Qc Arith_Qc) | reflexivity].
Defined.

(** ** Edge cases of the two loops, in exact arithmetic *)

Lemma uniform_total (graph : dict (list string)) :
  graph <> [] -> fsum (map (uniform_rank (F := Qc) graph) (keys graph)) = 1%Qc.
Proof.
  intro Hne. unfold uniform_rank. rewrite fsum_const.
  unfold keys. rewrite length_map. qc_ops.
  assert (of_nat (F := Qc) (List.length graph) <> 0%Qc) as H
    by (apply of_nat_nonzero; destruct graph; [congruence | simpl; lia]).
  field. exact H.
Qed.

(** X21.  In exact arithmetic, with an iteration budget of 0 both
    solvers return the uniform ranks [1/N] whatever the graph, the
    teleportation vector, the damping factor and the tolerance: no link is
    looked at, so a link to a page that is not a key goes unnoticed and the
    graph is left as it is. *)
Theorem zero_budget_returns_uniform_ranks (graph : dict (list string))
  (tv : dict Qc) (d tol : Qc) (pages : dict (dict string)) :
  page_rank graph d tol 0 = Ok (tabulate (keys graph) (uniform_rank graph)) /\
  topic_pagerank tv d tol graph pages 0
  = (graph, Ok (tabulate (keys graph) (uniform_rank graph))).
Proof.
  split.
  - unfold page_rank, page_rank_run. rewrite initial_ranks_ok. reflexivity.
  - unfold topic_pagerank, topic_pagerank_run. rewrite topic_initial_ranks.
    cbn [topic_loop]. rewrite normalize_tabulate by exact Qc_positive_nonzero.
    cbn [bind fst]. f_equal. f_equal.
    assert (graph = [] \/ graph <> []) as [->|Hne]
      by (destruct graph; [now left | right; discriminate]);
      [reflexivity|].
    apply tabulate_ext. intros p _. unfold normalized.
    rewrite uniform_total by assumption.
    generalize (uniform_rank (F := Qc) graph p). intro x.
    qc_ops. cbn. field. discriminate.
Qed.

(** The open graph with no pass: Step 2 is never reached. *)
Example open_graph_zero_budget :
  page_rank open_graph (q 85 100) (q 1 1000000) 0 = Ok [("A", q 1 1)].
Proof. reflexivity. Qed.

Section Linkless.

Local Open Scope Qc_scope.

Variable graph : dict (list string).
Variable tv : dict Qc.
Variable d : Qc.

Hypothesis graph_linkless : forall item, In item graph -> snd item = [].

Lemma linkless_closed : closed graph.
Proof.
  unfold closed, closedb. apply forallb_forall. intros item Hitem.
  now rewrite (graph_linkless item Hitem).
Qed.

Lemma linkless_out_degree (n : string) : out_degree graph n = 0%nat.
Proof.
  unfold out_degree, out_links, get_default.
  destruct (get n graph) as [links|] eqn:E; [|reflexivity].
  apply get_some_in in E. apply graph_linkless in E. cbn [snd] in E.
  now subst links.
Qed.

Lemma linkless_in_links (p : string) : in_links graph p = [].
Proof.
  unfold in_links.
  assert (forall its, (forall item, In item its -> snd item = []) ->
            flat_map (fun item : string * list string =>
                        repeat (fst item) (count_occ string_dec (snd item) p)) its
            = []) as H.
  { induction its as [|item its IH]; intro Hits; [reflexivity|].
    cbn [flat_map]. rewrite (Hits item (in_eq _ _)). cbn [count_occ repeat app].
    apply IH. intros x Hx. apply Hits. now right. }
  now apply H.
Qed.

Lemma linkless_update (r : string -> Qc) (p : string) :
  fsum (map r (keys graph)) = 1 -> topic_update tv d graph r p = teleport tv p.
Proof.
  intro Hr. unfold topic_update, link_sum, dangling_of.
  rewrite linkless_in_links.
  rewrite forallb_filter_id
    by (apply forallb_forall; intros n _; now rewrite linkless_out_degree).
  rewrite Hr. qc_ops. cbn [map]. rewrite fsum_nil. ring.
Qed.

End Linkless.

(** X22.  In exact arithmetic, on a graph with distinct keys in which no
    page links anywhere, every pass hands the whole rank out by the
    teleportation vector.  With a budget of at least one pass and a vector
    whose weights sum to 1 over the nodes, [topic_pagerank] returns the
    weight of each node as its rank, and [page_rank] returns the uniform
    ranks, for every damping factor and tolerance. *)
Theorem linkless_graph_returns_teleport (graph : dict (list string))
  (tv : dict Qc) (d tol : Qc) (pages : dict (dict string)) (max_iter : nat) :
  wf_dict graph ->
  (forall item, In item graph -> snd item = []) ->
  fsum (map (teleport tv) (keys graph)) = 1%Qc ->
  0 < max_iter ->
  page_rank graph d tol max_iter
  = Ok (tabulate (keys graph) (uniform_rank graph)) /\
  topic_pagerank tv d tol graph pages max_iter
  = (graph, Ok (tabulate (keys graph) (teleport tv))).
Proof.
  intros Hwf Hlinkless Htv Hpos.
  pose proof (@linkless_closed graph Hlinkless) as Hcl.
  assert (graph <> []) as Hne
    by (intro E; rewrite E in Htv; discriminate Htv).
  split.
  - destruct (page_rank_run_iter d tol Hwf Hcl max_iter) as [n [_ [Hrun _]]].
    unfold page_rank. rewrite Hrun. cbn [bind fst]. f_equal.
    apply tabulate_ext. intros p Hp.
    destruct n as [|n]; [reflexivity|]. rewrite Nat.iter_succ.
    rewrite classic_update_uniform by assumption.
    rewrite (@linkless_update graph _ d Hlinkless).
    + now apply teleport_tabulate.
    + apply (iter_invariant (fun r => fsum (map r (keys graph)) = 1%Qc)).
      * intros r Hr. now apply classic_update_mass.
      * now apply uniform_total.
  - destruct (topic_loop_exit tv d tol Hwf Hcl max_iter 0 (uniform_rank graph))
      as [n [Hrun [_ [Hn _]]]].
    specialize (Hn Hpos). destruct n as [|n]; [lia|].
    unfold topic_pagerank, topic_pagerank_run.
    rewrite topic_initial_ranks, Hrun.
    rewrite (tabulate_ext (keys graph) _ (teleport tv)).
    + rewrite normalize_unit_mass by assumption. reflexivity.
    + intros p _. rewrite Nat.iter_succ. apply linkless_update; [assumption|].
      apply (iter_invariant (fun r => fsum (map r (keys graph)) = 1%Qc)).
      * intros r Hr. rewrite (topic_update_total tv d Hwf Hcl Htv), Hr. ring.
      * now apply uniform_total.
Qed.

Lemma linkless_graph_returns_teleport_witness :
  wf_dict linkless_graph /\
  (forall item, In item linkless_graph -> snd item = []) /\
  fsum (map (teleport [("A", q 1 4); ("B", q 3 4)]) (keys linkless_graph)) = 1%Qc /\
  0 < 3 /\
  page_rank linkless_graph (q 85 100) (q 1 1000) 3
  = Ok (tabulate (keys linkless_graph) (uniform_rank linkless_graph)) /\
  topic_pagerank [("A", q 1 4); ("B", q 3 4)] (q 85 100) (q 1 1000)
                 linkless_graph [] 3
  = (linkless_graph,
     Ok (tabulate (keys linkless_graph) (teleport [("A", q 1 4); ("B", q 3 4)]))).
Proof.
  assert (forall item, In item linkless_graph -> snd item = [])
    as Hlinkless by (intros item [<-|[<-|[]]]; reflexivity).
  split; [reflexivity|]. split; [exact Hlinkless|].
  split; [apply Qc_is_canon; reflexivity|]. split; [lia|].
  apply (@linkless_graph_returns_teleport linkless_graph
           [("A", q 1 4); ("B", q 3 4)] (q 85 100) (q 1 1000) [] 3);
    [reflexivity | exact Hlinkless | apply Qc_is_canon; reflexivity | lia].
Defined.

Lemma l1_distance_nonneg (nodes : list string) (a b : string -> Qc) :
  (0 <= l1_distance nodes a b)%Qc.
Proof.
  unfold l1_distance. apply fsum_nonneg. intros p _. qc_ops.
  apply Qcabs_nonneg.
Qed.

(** X23.  In exact arithmetic, a tolerance that is zero or negative never
    stops a loop early, the distance between two rank vectors being at
    least 0: on a graph with distinct keys whose link targets are all
    keys, both solvers make exactly [max_iter] passes. *)
Theorem nonpositive_tolerance_uses_budget (graph : dict (list string))
  (tv : dict Qc) (d tol : Qc) (pages : dict (dict string)) (max_iter : nat) :
  wf_dict graph -> closed graph -> (tol <= 0)%Qc ->
  page_rank_run graph d tol max_iter
  = Ok (tabulate (keys graph)
          (Nat.iter max_iter (classic_update d graph) (uniform_rank graph)),
        max_iter) /\
  topic_pagerank_run tv d tol graph pages max_iter
  = (graph,
     Ok (tabulate (keys graph)
           (normalized (keys graph)
              (Nat.iter max_iter (topic_update tv d graph) (uniform_rank graph))),
         max_iter)).
Proof.
  intros Hwf Hcl Htol.
  assert (forall x : Qc, (0 <= x)%Qc -> fltb x tol = false) as Hnever.
  { intros x Hx. destruct (fltb x tol) eqn:E; [|reflexivity].
    apply Qc_fltb_true in E. exfalso. apply (Qclt_not_le _ _ E).
    eapply Qcle_trans; eassumption. }
  split.
  - destruct (page_rank_run_iter d tol Hwf Hcl max_iter) as [n [_ [Hrun Hfull]]].
    rewrite Hrun, Hfull; [reflexivity|].
    intros k _. apply Hnever, l1_distance_nonneg.
  - destruct (topic_pagerank_run_iter tv d tol Hwf Hcl pages max_iter
                Qc_positive_nonzero) as [n [_ [Hrun Hfull]]].
    rewrite Hrun, Hfull; [reflexivity|].
    intros k _. apply Hnever, l1_distance_nonneg.
Qed.

Lemma nonpositive_tolerance_uses_budget_witness :
  wf_dict example_graph /\ closed example_graph /\ (0 <= 0)%Qc /\
  page_rank_run example_graph (q 85 100) 0%Qc 3
  = Ok (tabulate (keys example_graph)
          (Nat.iter 3 (classic_update (q 85 100) example_graph)
                    (uniform_rank example_graph)),
        3) /\
  topic_pagerank_run example_teleport (q 85 100) 0%Qc example_graph [] 3
  = (example_graph,
     Ok (tabulate (keys example_graph)
           (normalized (keys example_graph)
              (Nat.iter 3 (topic_update example_teleport (q 85 100) example_graph)
                        (uniform_rank example_graph))),
         3)).
Proof.
  split; [reflexivity|]. split; [reflexivity|]. split; [apply Qcle_refl|].
  apply (@nonpositive_tolerance_uses_budget example_graph example_teleport
           (q 85 100) 0%Qc [] 3); [reflexivity | reflexivity | apply Qcle_refl].
Defined.

(** ** The line of [page_rank] *)


